(* ===== verification/_CoqProject ===== *)
-Q . S2P
Prelude.v
StdString.v
IStream.v
Message.v
StatusLine.v
Headers.v
Chunked.v
Parse.v
Request.v
Net.v
Client.v
Lifecycle.v
Legacy.v
Classify.v
Output.v
ClientApi.v
Console.v
FreeFunctions.v
Demos.v
