(* ===== verification/Prelude.v ===== *)
(** * Verification of u03n0/http_cpp: a minimal HTTP/1.1 client

    The repository is a small C++ HTTP/1.1 client over raw sockets.  Its
    parts, as they appear under [src/]:

    - [src/src/socket/socket.cpp] and [SimpleHttpClient::createConnection]
      in [src/src/processing/processing.cpp]: resolve a host and connect a
      TCP socket (getaddrinfo / socket / connect loop);
    - [src/src/request/send_request.cpp] and [formatHttpRequest] /
      [sendHttpRequest] in processing.cpp: build the request text and write
      it with a send loop;
    - [receiveHttpResponse] (both files): drain the socket with [recv]
      into a [std::string] until the peer closes;
    - [SimpleHttpClient::parseHttpResponse] with its helpers
      [parseStatusLine], [parseHeaderLine], [isChunkedEncoding] and
      [decodeChunkedBody] (processing.cpp): the parsing pipeline, the core
      of the program; [parseHttpResponse] in receive_request.cpp is an
      older variant of it;
    - [isSuccessStatusCode] .. [isServerErrorStatusCode] and the dispatch of
      [processResponse]: the status classifier;
    - the handlers and [displayImportantHeaders] / [displayBodyInfo]:
      console output of a parsed response;
    - the [*_demo.cpp] programs: [main] functions driving the above.

    The development models the program as executable Rocq functions over
    C++ strings represented as [list ascii] (one [ascii] per [char]), with
    the C++ standard library functions the code calls written out as the
    code relies on them, and the operating system as a state monad.

    Files, in dependency order:
    - [Prelude] (this file): the notation scope [http_scope], the shared
      tactics, the hint databases [http] and [http_rw], generic list lemmas,
      termination by a measure ([sn_measure]) and divergence of a closed
      set of states that all step ([closed_not_sn]).
    - [StdString]: the [<string>], [<cctype>] and [std::getline] behaviour
      the sources use: [find], [find_first_not_of], [find_last_not_of],
      [substr], [::tolower], [isspace], [std::endl], the line sequence an
      [istringstream] yields to a [getline] loop, and the [\r] stripping.
    - [IStream]: formatted extraction [operator>>] on an [istringstream] as
      libstdc++ implements it: words, decimal [int] (with its clamping to
      32 bits and the failbit) and hexadecimal [size_t] (64 bits, sign and
      [0x] prefix); the outcome records whether the target was written.
      Also [std::stoi] with its two exceptions, and decimal/hexadecimal
      printing ([std::to_string], [operator<<]).
    - [Message]: the [HttpResponse] struct of processing.h and its setters.
    - [StatusLine]: [parseStatusLine] and its reason-phrase loop.
    - [Headers]: [parseHeaderLine] (split at the first colon, trim, lower
      the key, [headers[key] = value]) and the abstract specification of
      the header map as an association list where the last write wins.
    - [Chunked]: [isChunkedEncoding] and [decodeChunkedBody].
    - [Parse]: [parseHttpResponse], the pipeline composed as the code
      composes it.
    - [Request]: [formatHttpRequest] and how a server splits its text.
    - [Net]: the state [OS] (open descriptors, live [addrinfo] lists, the
      bytes the peer received, a name resolver and the scripted results of
      [send] and [recv]), the monad [M] over it, the system calls, and
      [createConnection] (both versions), [sendHttpRequest] and
      [receiveHttpResponse] (both versions) as loops in [M]; the class
      [Transport] (the connection provider and byte-stream reader of the
      specification's section 6) with its laws [TransportLaws], met by the
      processing.cpp functions and broken by the socket.cpp
      [createConnection] ([Net.socket_transport_unlawful]).
    - [Client]: the [SimpleHttpClient] object, [makeHttpRequest] composing
      connect, send, receive, close and parse over a [Transport] (its
      resource theorem holds for every lawful transport), and [get].
    - [Legacy]: the struct, parser and printer of receive_request.cpp.
    - [Classify]: the four status predicates and the dispatch order of
      [processResponse].
    - [Output]: the text [processResponse] and its helpers write.
    - [ClientApi]: the public interface of class [SimpleHttpClient]
      (processing.h, lines 46-167) as a record of operations
      [HttpClientApi], its instance [processing_api] by the definitions of
      processing.cpp, and the promises of the header's comments that the
      code keeps ([HttpClientContract]; the two it breaks are named
      there), against which clients are proved.
    - [Lifecycle]: [makeHttpRequest] cut at its system calls as a
      transition system [step] on configurations (the point reached, the
      [OS] state), one rule per branch of the code.
    - [Console]: a process [World] (the [OS], [std::cout], [std::cerr],
      [std::cin]) and its monad [IO], where [None] is undefined behaviour;
      [io_refines m m'] relates a process that logs to [std::cerr] to a
      silent computation of [M].
    - [FreeFunctions]: socket.cpp's [createConnection], send_request.cpp's
      [formatHttpRequest] and [sendHttpRequest], receive_request.cpp's
      [receiveHttpResponse] and [parseHttpResponse] with their error
      reports, as processes.
    - [Demos]: the [main] functions of socket_demo.cpp,
      send_request_demo.cpp, receive_request_demo.cpp and
      processing_demo.cpp, returning the exit status; the default
      arguments of processing.h and send_request.h, and the struct
      receive_request_demo.cpp defines (the one of receive_request.cpp).

    Undefined behaviour.  [decodeChunkedBody] declares [size_t chunkSize]
    without an initialiser and reads it when the extraction [ss >> chunkSize]
    fails before writing it (a blank size line).  The model returns [None]
    there: [decodeChunkedBody], [parseHttpResponse] and [makeHttpRequest]
    live in the option monad, [None] meaning "the C++ program has undefined
    behaviour".  The same convention gives the uninitialised [statusCode]
    of receive_request.cpp the value [None].

    Standard error.  What the code writes to [std::cerr] is its own text,
    except [strerror(errno)] and [gai_strerror(rv)], whose wording is the C
    library's; those two are kept as symbols ([Console.piece]).

    The network.  Every outcome the C library allows is an entry of the
    state: [getaddrinfo] asks the resolver, [socket] and [connect] succeed
    or fail per address, [send] accepts as many bytes as its script says
    (or fails), [recv] returns the next piece of data (at most the buffer
    size), an error, or 0 at the end.  Theorems quantify over these states.
    The scripts are finite lists, and that limits what the model can
    express: the peer's data always ends (with a close or an error), and
    once the send script is used up [send] accepts every byte it is
    offered.  A peer that never closes cannot be written down. On such a
    peer the receive loop of the program blocks for ever (section 5 of the
    specification), and no theorem here says otherwise: the theorems hold
    for every network the model can express, not for every network.  The
    model of [send] reads the buffer only up to the end of the string; the
    client passes larger counts for requests of 2^31 to 2^32 - 1 bytes
    ([Lifecycle.send_count_overread]).  The send theorems of [Net] exclude
    those requests.

    Machine integers.  [int] values are [Z] with the conversion [to_int]
    written out (two's complement modulo 2^32), [size_t] values [N] with
    [size_t_of_int] (modulo 2^64); [int bytesleft = request.length()] and
    its passing to [send] go through both.

    Fuel.  The loops that are not structural take fuel: the reason-phrase
    loop and the outer loop of [decodeChunkedBody] get [S (length input)],
    the send loop the length of the send script plus 2 (one iteration per
    scripted result, then one that sends the rest, then the exit test),
    the receive loop one more than the total size of the receive script.
    The lemmas [StatusLine.reason_loop_fuel], [Chunked.decode_loop_fuel],
    [Net.send_loop_spec] and [Net.recv_loop_spec] show that the fuel is
    never exhausted.  The transition system of [Lifecycle] has no fuel.

    Theorem groups.
    - Pipeline (file [Parse]): parsing a rendered well-formed response gives
      back its status line and headers and its body; the error paths (empty
      input, no header/body separator, malformed status line); the
      lower-case-key invariant of the header map; the one case where
      [isSuccess] holds without a status line (an empty header block).
    - Headers: the map built by the header loop refines the association
      list specification (lookup returns the last value written for a
      case-folded key); trimming removes exactly the outer spaces and tabs.
    - Chunked decoding: round trip with the framing the code really
      implements (a chunk size counts lines, the lines of a chunk are joined
      with a newline); the behaviour on standard byte-counted chunks (the
      spec's own example among them), on malformed and on blank size lines.
    - Client and network: [makeHttpRequest] sends exactly the request text
      and returns the parse of what the peer sent, and it leaks no
      descriptor and no address list on any path; socket.cpp's
      [createConnection] leaks the address list; NUL bytes cut the
      received data; a failed [recv] is taken for the end of the stream by
      processing.cpp and discards all data in receive_request.cpp; the
      exception [get] lets escape.
    - Request text: how a server splits it, and that a CR LF in the host
      name ends the header block.
    - The older code: its parser agrees with the newer one on the status
      line but keeps header keys as written, never rejects a status line,
      and leaves [statusCode] uninitialised without a separator.
    - Classification and output: that codes of 600 and above count as
      server errors, against the specification's ranges, and the bound on
      the body preview.
    - Lifecycle: every reachable configuration holds exactly the client's
      socket open between connect and close (invariant, by rule
      induction); a request of 2^31 to 2^32 - 1 bytes asks [send] for more
      bytes than the string holds ([Lifecycle.send_count_overread]); a
      request of a positive multiple of 2^32 bytes makes the machine run
      for ever ([Lifecycle.lifecycle_diverges_wrap]: [bytesleft] is 0 and
      every [send] is asked for no byte).  [step] takes [createConnection]
      as one step (its system calls are not separated); lemmas show that
      the functional [makeHttpRequest] is a run of the machine.
    - Demos: send_request_demo exits 0 exactly when it connects and
      sends the whole request and closes its socket on every path;
      socket_demo exits 0 exactly when it connects and closes its socket;
      receive_request_demo has undefined behaviour exactly when the older
      parser leaves [statusCode] uninitialised on a non-empty answer;
      processing_demo lets no exception escape, keeps the process's
      resources over its six requests and is defined when no name
      resolves.

    Not modelled: the declarations-only parts of the headers (prototypes of
    functions modelled from their definitions); the wording of the C
    library's [strerror] and [gai_strerror] messages; the flush of
    [std::endl]; what [send] does with a count larger than its buffer (it
    reads memory past the string: the model stops at the end of the
    string, and [Lifecycle.send_count_overread] shows when the client
    passes such a count); a peer that never closes the connection (see
    "The network" above).  Requests of 2^31 bytes or more are outside the
    functional send theorems; [Lifecycle] covers them. *)

From stdpp Require Export base list gmap strings.
From Stdlib Require Export Ascii ZArith Lia.
From Stdlib Require String.

(** ** Notation scope *)

Declare Scope http_scope.
Delimit Scope http_scope with http.
Open Scope http_scope.

(** A C++ [std::string]: its [char]s in order. *)
Abbreviation str := (list ascii).

(** A string literal as a C++ string. *)
Definition cs (s : String.string) : str := String.list_ascii_of_string s.
Notation "‹ s ›" := (cs s%string) (at level 0, s at level 0, format "‹ s ›") : http_scope.

(** ** Tactics *)

Ltac invc H := inversion H; subst; clear H.

(** Destruct every [if] / [match] on a boolean or an option in the goal,
    keeping the equation. *)
Ltac case_if :=
  match goal with
  | |- context [if ?b then _ else _] => destruct b eqn:?
  end.

(** Case on every boolean comparison of [Z] or [N] in the goal, with the
    propositional fact in the context, for [lia]. *)
Ltac destruct_cmp :=
  repeat match goal with
  | |- context [(?a <? ?b)%Z] => destruct (Z.ltb_spec a b)
  | |- context [(?a <=? ?b)%Z] => destruct (Z.leb_spec a b)
  | |- context [(?a =? ?b)%Z] => destruct (Z.eqb_spec a b)
  | |- context [(?a <? ?b)%N] => destruct (N.ltb_spec a b)
  | |- context [(?a <=? ?b)%N] => destruct (N.leb_spec a b)
  | |- context [(?a =? ?b)%N] => destruct (N.eqb_spec a b)
  | |- context [(?a <? ?b)%nat] => destruct (Nat.ltb_spec a b)
  | |- context [(?a =? ?b)%nat] => destruct (Nat.eqb_spec a b)
  end.

(** Flatten appends of literals: reassociate to the right and compute. *)
Ltac app_simpl := repeat ((rewrite <- !app_assoc) || (progress cbn)).

(** Prove a decidable proposition about concrete data by computation. *)
Ltac decide_concrete := apply (bool_decide_unpack _); vm_compute; reflexivity.

Create HintDb http discriminated.
Create Rewrite HintDb http_rw.

(** ** Generic list lemmas *)

Section lists.
Context {A : Type}.

Lemma app_cons_app (l1 l2 : list A) (x : A) :
  l1 ++ x :: l2 = (l1 ++ [x]) ++ l2.
Proof. by rewrite <- app_assoc. Qed.

Lemma removelast_app_single (l : list A) (x : A) :
  removelast (l ++ [x]) = l.
Proof. apply removelast_last. Qed.

Lemma last_app_single (l : list A) (x : A) : last (l ++ [x]) = Some x.
Proof. apply last_snoc. Qed.
End lists.

#[export] Hint Rewrite @removelast_app_single @last_app_single : http_rw.

(** ** Termination of a transition relation by a measure

    A relation terminates from every state of an invariant [P] that its
    steps preserve while they decrease a natural-number measure. *)

Section measure.
Context {A : Type} (R : relation A) (P : A → Prop) (μ : A → nat).
Hypothesis step_P : ∀ x y, P x → R x y → P y.
Hypothesis step_μ : ∀ x y, P x → R x y → μ y < μ x.

Lemma sn_measure (x : A) : P x → sn R x.
Proof.
  remember (μ x) as n eqn:Hn. revert x Hn.
  induction (lt_wf n) as [n _ IH]. intros x -> Hx.
  constructor. intros y Hy. eapply IH; [apply (step_μ x y)| |]; eauto.
Qed.
End measure.

(** Divergence, in the style of [infseq] of Leroy's [Sequences]: a set of
    states that is closed under the relation and in which every state
    steps holds no strongly normalising state. *)
Section divergence.
Context {A : Type} (R : relation A) (P : A → Prop).
Hypothesis P_red : ∀ x, P x → red R x.
Hypothesis P_closed : ∀ x y, P x → R x y → P y.

Lemma closed_not_sn (x : A) : P x → ¬ sn R x.
Proof.
  intros Hx Hsn. induction Hsn as [x _ IH].
  destruct (P_red x Hx) as [y Hy]. exact (IH y Hy (P_closed x y Hx Hy)).
Qed.

Lemma closed_rtc (x y : A) : P x → rtc R x y → P y.
Proof. intros Hx Hxy. induction Hxy; eauto. Qed.
End divergence.
