(* ===== verification/StdString.v ===== *)
(** * The C++ string library as the sources use it

    [std::string] is a [list ascii] ([str]).  This file models the library
    calls of processing.cpp and receive_request.cpp: [find] of a character
    or of a substring, [find_first_not_of] / [find_last_not_of], [substr],
    [::tolower] over [std::transform], [isspace], and the sequence of lines a
    [while (std::getline(stream, line))] loop reads from an
    [std::istringstream], with the [line.back() == '\r'] stripping that
    follows every such [getline] in the sources.  [npos] is [None]. *)

From S2P Require Import Prelude.

(** ** Characters *)

Definition CR : ascii := "013"%char.
Definition LF : ascii := "010"%char.
Definition SP : ascii := " "%char.
Definition TAB : ascii := "009"%char.

(** [std::endl]: a newline (and a flush, which has no visible effect here). *)
Definition endl : str := [LF].

(** [isspace] of [<cctype>] in the "C" locale: space, \t, \n, \v, \f, \r. *)
Definition c_isspace (c : ascii) : bool :=
  match c with
  | "009" | "010" | "011" | "012" | "013" | " " => true
  | _ => false
  end%char.

(** [::tolower] in the "C" locale: only 'A'..'Z' change. *)
Definition c_tolower (c : ascii) : ascii :=
  let n := N_of_ascii c in
  if (65 <=? n)%N && (n <=? 90)%N then ascii_of_N (n + 32) else c.

(** [std::transform(s.begin(), s.end(), s.begin(), ::tolower)]. *)
Definition lower (s : str) : str := map c_tolower s.

(** ** Searching *)

(** [s.find(c)]. *)
Fixpoint find_char (c : ascii) (s : str) : option nat :=
  match s with
  | [] => None
  | x :: s' => if decide (x = c) then Some 0 else S <$> find_char c s'
  end.

(** [s.find(pat)]: the first position where [pat] occurs. *)
Fixpoint find_sub (pat s : str) : option nat :=
  if bool_decide (pat `prefix_of` s) then Some 0
  else match s with
       | [] => None
       | _ :: s' => S <$> find_sub pat s'
       end.

(** [pat] occurs in [s]. *)
Definition occurs (pat s : str) : Prop := ∃ a b, s = a ++ pat ++ b.

(** [s.find_first_not_of(set)]. *)
Fixpoint find_first_not_of (set s : str) : option nat :=
  match s with
  | [] => None
  | c :: s' => if bool_decide (c ∈ set) then S <$> find_first_not_of set s' else Some 0
  end.

(** [s.find_last_not_of(set)]. *)
Fixpoint find_last_not_of (set s : str) : option nat :=
  match s with
  | [] => None
  | c :: s' =>
      match find_last_not_of set s' with
      | Some i => Some (S i)
      | None => if bool_decide (c ∈ set) then None else Some 0
      end
  end.

(** [s.substr(pos, len)]; the sources only call it with [pos <= s.size()],
    where it does not throw. *)
Definition substr (pos len : nat) (s : str) : str := take len (drop pos s).

(** ** Lines *)

(** The lines a [while (std::getline(stream, line))] loop reads from an
    [istringstream] over [s]: the text is cut at every '\n'; a last piece
    that is empty is not a line (getline fails at end of input when it
    extracts nothing). *)
Fixpoint getlines (s : str) : list str :=
  match s with
  | [] => []
  | c :: s' =>
      if decide (c = LF) then [] :: getlines s'
      else match getlines s' with
           | [] => [[c]]
           | l :: ls => (c :: l) :: ls
           end
  end.

(** [if (!line.empty() && line.back() == '\r') line.pop_back();] *)
Definition strip_cr (line : str) : str :=
  match last line with
  | Some c => if decide (c = CR) then removelast line else line
  | None => line
  end.

(** A character of a line: neither CR nor LF. *)
Definition line_char (c : ascii) : Prop := c ≠ CR ∧ c ≠ LF.

(** ** Lemmas *)

Lemma lower_app (s t : str) : lower (s ++ t) = lower s ++ lower t.
Proof. apply map_app. Qed.

Lemma c_tolower_idem (c : ascii) : c_tolower (c_tolower c) = c_tolower c.
Proof. by destruct c as [[] [] [] [] [] [] [] []]. Qed.

Lemma lower_idem (s : str) : lower (lower s) = lower s.
Proof.
  unfold lower. rewrite map_map. apply map_ext. apply c_tolower_idem.
Qed.

Lemma length_lower (s : str) : length (lower s) = length s.
Proof. apply length_map. Qed.

Lemma find_char_app (c : ascii) (a b : str) :
  c ∉ a → find_char c (a ++ c :: b) = Some (length a).
Proof.
  induction a as [|x a IH]; intros Hn; simpl; [by rewrite decide_True|].
  rewrite decide_False by set_solver. rewrite IH by set_solver. done.
Qed.

Lemma find_char_None (c : ascii) (s : str) : c ∉ s → find_char c s = None.
Proof.
  induction s as [|x s IH]; intros Hn; simpl; [done|].
  rewrite decide_False by set_solver. rewrite IH by set_solver. done.
Qed.

(** [find_char] returns the position of the first occurrence. *)
Lemma find_char_Some (c : ascii) (s : str) (i : nat) :
  find_char c s = Some i → ∃ a b, s = a ++ c :: b ∧ length a = i ∧ c ∉ a.
Proof.
  revert i. induction s as [|x s IH]; intros i H; simpl in H; [done|].
  case_decide; simplify_eq.
  - exists [], s. split_and!; [done|done|set_solver].
  - destruct (find_char c s) as [j|] eqn:E; simplify_eq/=.
    destruct (IH j eq_refl) as (a & b & -> & <- & Ha).
    exists (x :: a), b. split_and!; [done|done|set_solver].
Qed.

Lemma find_char_None_inv (c : ascii) (s : str) : find_char c s = None → c ∉ s.
Proof.
  induction s as [|x s IH]; simpl; [set_solver|].
  case_decide; [done|]. destruct (find_char c s); [done|]. set_solver.
Qed.

Lemma find_sub_occurs (pat s : str) : is_Some (find_sub pat s) ↔ occurs pat s.
Proof.
  induction s as [|x s IH]; simpl.
  - case_bool_decide as H.
    + split; [|done]. intros _. destruct H as [b Hb]. exists [], b. done.
    + split; [by intros []|]. intros ([|] & b & Hb); [|done].
      destruct H. exists b. done.
  - case_bool_decide as H.
    + split; [|done]. intros _. destruct H as [b Hb]. by exists [], b.
    + rewrite fmap_is_Some, IH. split.
      * intros (a & b & ->). by exists (x :: a), b.
      * intros ([|y a] & b & Hs). { destruct H. rewrite Hs. by exists b. }
        simplify_eq/=. by exists a, b.
Qed.

Lemma getlines_line (l r : str) :
  LF ∉ l → getlines (l ++ LF :: r) = l :: getlines r.
Proof.
  induction l as [|c l IH]; intros Hn; simpl; [reflexivity|].
  rewrite decide_False by set_solver. rewrite IH by set_solver. done.
Qed.

Lemma getlines_last (l : str) : LF ∉ l → l ≠ [] → getlines l = [l].
Proof.
  induction l as [|c [|c' l] IH]; intros Hn Hne; [done| |].
  - simpl. by rewrite decide_False by set_solver.
  - change (getlines (c :: c' :: l)) with
      (if decide (c = LF) then [] :: getlines (c' :: l)
       else match getlines (c' :: l) with [] => [[c]] | l0 :: ls => (c :: l0) :: ls end).
    rewrite decide_False by set_solver. rewrite IH by set_solver. done.
Qed.

Lemma strip_cr_snoc (l : str) : strip_cr (l ++ [CR]) = l.
Proof. unfold strip_cr. rewrite last_snoc, decide_True; [|done]. apply removelast_last. Qed.

Lemma strip_cr_id (l : str) : last l ≠ Some CR → strip_cr l = l.
Proof.
  unfold strip_cr. destruct (last l) as [c|]; [|done]. intros Hc.
  rewrite decide_False; congruence.
Qed.

Lemma find_sub_unfold (pat s : str) :
  find_sub pat s =
    if bool_decide (pat `prefix_of` s) then Some 0
    else match s with [] => None | _ :: s' => S <$> find_sub pat s' end.
Proof. by destruct s. Qed.

Lemma find_sub_here (pat s : str) : find_sub pat (pat ++ s) = Some 0.
Proof. rewrite find_sub_unfold, bool_decide_true; [done|]. by exists s. Qed.

(** No occurrence of [c :: p] starts inside a text without [c]. *)
Lemma find_sub_skip (c : ascii) (p l s : str) :
  c ∉ l → find_sub (c :: p) (l ++ s) = (λ i, length l + i)%nat <$> find_sub (c :: p) s.
Proof.
  induction l as [|x l IH]; intros Hl; simpl.
  - by destruct (find_sub (c :: p) s).
  - rewrite bool_decide_false.
    + rewrite IH by set_solver. by destruct (find_sub (c :: p) s).
    + intros [? Hp]. simplify_eq/=. set_solver.
Qed.

Lemma nospace_line_char (c : ascii) : c_isspace c = false → line_char c.
Proof. intros H. split; intros ->; discriminate. Qed.

Lemma line_chars_notin (l : str) : Forall line_char l → CR ∉ l ∧ LF ∉ l.
Proof.
  rewrite Forall_forall. intros H. split; intros Hin; apply H in Hin; by destruct Hin.
Qed.

#[export] Hint Rewrite lower_app lower_idem length_lower strip_cr_snoc : http_rw.
#[export] Hint Resolve find_char_app getlines_line getlines_last nospace_line_char : http.
