(* ===== verification/IStream.v ===== *)
(** * Formatted extraction from an [std::istringstream]

    [operator>>] as libstdc++ implements it for the three targets the
    sources extract into:
    - [std::string] ([statusStream >> response.httpVersion] and
      [statusStream >> word]): skip white space, read up to the next white
      space;
    - [int] ([statusStream >> response.statusCode]): through [long] and
      [num_get], then clamped to the [int] range with the failbit (LWG 696);
    - [size_t] with [std::hex] set ([ss >> chunkSize] in
      [decodeChunkedBody]): an optional sign, an optional [0x] prefix,
      hexadecimal digits, the 64-bit range and wrap-around of a negated
      unsigned value.

    An extraction has one of three outcomes ([extract]): the sentry fails
    because only white space is left ([XEof]: the target is NOT written);
    the conversion fails ([XFail v]: the failbit is set and the target is
    written with [v], which is 0 when no digit was read and the clamped
    bound on overflow); or it succeeds ([XOk v rest], [rest] being the
    unread input).  After a failure the stream reads nothing more, which the
    callers model by stopping. *)

From S2P Require Import Prelude StdString.

Inductive extract (A : Type) : Type :=
  | XEof
  | XFail (v : A)
  | XOk (v : A) (rest : str).
Arguments XEof {A}.
Arguments XFail {A} v.
Arguments XOk {A} v rest.

(** ** Words *)

(** The sentry of an input stream skips white space ([std::skipws]). *)
Fixpoint skip_ws (s : str) : str :=
  match s with
  | [] => []
  | c :: s' => if c_isspace c then skip_ws s' else s
  end.

Fixpoint span_word (s : str) : str * str :=
  match s with
  | [] => ([], [])
  | c :: s' =>
      if c_isspace c then ([], s)
      else let '(w, r) := span_word s' in (c :: w, r)
  end.

(** [stream >> word] for a [std::string] target. *)
Definition extract_string (s : str) : extract str :=
  match skip_ws s with
  | [] => XEof
  | s1 => let '(w, r) := span_word s1 in XOk w r
  end.

(** ** Numbers *)

Definition INT_MIN : Z := (- 2 ^ 31)%Z.
Definition INT_MAX : Z := (2 ^ 31 - 1)%Z.
Definition SIZE_MAX : N := (2 ^ 64 - 1)%N.

(** The value of a digit character in base 10 or 16 ([num_get] accepts
    both cases of the hexadecimal letters). *)
Definition digit_value (base : N) (c : ascii) : option N :=
  let n := N_of_ascii c in
  if (48 <=? n)%N && (n <=? 57)%N then Some (n - 48)%N
  else if (base =? 16)%N && (97 <=? n)%N && (n <=? 102)%N then Some (n - 87)%N
  else if (base =? 16)%N && (65 <=? n)%N && (n <=? 70)%N then Some (n - 55)%N
  else None.

(** The digit loop of [num_get::_M_extract_int]: it keeps reading digits
    after an overflow, so accumulating without bound and comparing at the
    end is the same test.  Returns the value, the number of digits read and
    the unread input. *)
Fixpoint scan_digits (base : N) (s : str) (acc : N) (cnt : nat) : N * nat * str :=
  match s with
  | [] => (acc, cnt, [])
  | c :: s' =>
      match digit_value base c with
      | Some d => scan_digits base s' (acc * base + d)%N (S cnt)
      | None => (acc, cnt, s)
      end
  end.

(** The sign of [num_get]: a leading '-' or '+' is consumed. *)
Definition scan_sign (s : str) : bool * str :=
  match s with
  | "-"%char :: s' => (true, s')
  | "+"%char :: s' => (false, s')
  | _ => (false, s)
  end.

(** With [std::hex], a leading "0x" or "0X" is a prefix, not digits. *)
Definition skip_hex_prefix (s : str) : str :=
  match s with
  | "0"%char :: ("x"%char | "X"%char) :: s' => s'
  | _ => s
  end.

(** [stream >> n] for an [int] target. *)
Definition extract_int (s : str) : extract Z :=
  match skip_ws s with
  | [] => XEof
  | s1 =>
      let '(neg, s2) := scan_sign s1 in
      let '(mag, cnt, rest) := scan_digits 10 s2 0 0 in
      if (cnt =? 0)%nat then XFail 0%Z
      else
        let v := if neg then (- Z.of_N mag)%Z else Z.of_N mag in
        if (v <? INT_MIN)%Z then XFail INT_MIN
        else if (INT_MAX <? v)%Z then XFail INT_MAX
        else XOk v rest
  end.

(** [stream >> n] for a [size_t] target, [std::hex] set. *)
Definition extract_size_hex (s : str) : extract N :=
  match skip_ws s with
  | [] => XEof
  | s1 =>
      let '(neg, s2) := scan_sign s1 in
      let '(mag, cnt, rest) := scan_digits 16 (skip_hex_prefix s2) 0 0 in
      if (cnt =? 0)%nat then XFail 0%N
      else if (SIZE_MAX <? mag)%N then XFail SIZE_MAX
      else XOk (if neg then (2 ^ 64 - mag) mod 2 ^ 64 else mag)%N rest
  end.

(** ** [std::stoi]

    [std::stoi(s)] calls [strtol(s.c_str(), &end, 10)]: leading white
    space, an optional sign, decimal digits.  No digit throws
    [std::invalid_argument]; a value outside [long] (errno [ERANGE]) or
    outside [int] throws [std::out_of_range].  A value outside [long] is
    also outside [int], so one range test decides both. *)
Inductive exn := invalid_argument | out_of_range.

#[export] Instance exn_eq_dec : EqDecision exn.
Proof. solve_decision. Defined.

Definition stoi (s : str) : exn + Z :=
  let '(neg, s2) := scan_sign (skip_ws s) in
  let '(mag, cnt, _) := scan_digits 10 s2 0 0 in
  if (cnt =? 0)%nat then inl invalid_argument
  else
    let v := if neg then (- Z.of_N mag)%Z else Z.of_N mag in
    if (v <? INT_MIN)%Z || (INT_MAX <? v)%Z then inl out_of_range else inr v.

(** ** Printing numbers

    The sender side of the round trips: the digits of [n] in [base], most
    significant first, and their characters (lower-case hexadecimal). *)

Definition digit_char (d : N) : ascii :=
  if (d <? 10)%N then ascii_of_N (48 + d) else ascii_of_N (87 + d).

(** Fuel: [n < 2 ^ fuel] suffices, since every step divides by [base >= 2]. *)
Fixpoint digits_go (fuel : nat) (base n : N) (acc : list N) : list N :=
  match fuel with
  | O => acc
  | S f =>
      if (n <? base)%N then n :: acc
      else digits_go f base (n / base)%N ((n mod base)%N :: acc)
  end.

Definition to_digits (base n : N) : list N :=
  digits_go (S (N.to_nat (N.size n))) base n [].

Definition show_N (base n : N) : str := map digit_char (to_digits base n).

Definition show_Z (z : Z) : str :=
  if (z <? 0)%Z then "-"%char :: show_N 10 (Z.to_N (- z)) else show_N 10 (Z.to_N z).

(** The value of a digit list. *)
Definition horner (base : N) (ds : list N) (acc : N) : N :=
  foldl (λ a d, a * base + d)%N acc ds.

(** The input after a number: no further digit and no [x] that would turn a
    leading 0 into a hexadecimal prefix. *)
Definition stops (base : N) (rest : str) : Prop :=
  match rest with
  | [] => True
  | c :: _ => digit_value base c = None ∧ c ≠ "x"%char ∧ c ≠ "X"%char
  end.

(** ** Lemmas *)

Lemma digit_value_char (base d : N) :
  (base = 10 ∨ base = 16)%N → (d < base)%N → digit_value base (digit_char d) = Some d.
Proof.
  intros Hb Hd. assert (Hk : (N.to_nat d < 16)%nat) by lia.
  rewrite <- (N2Nat.id d) in *. generalize dependent (N.to_nat d). intros k Hd Hk.
  destruct Hb as [-> | ->];
    do 16 (destruct k as [|k]; [try reflexivity; exfalso; lia|]); lia.
Qed.

Lemma horner_app (base : N) (ds1 ds2 : list N) (acc : N) :
  horner base (ds1 ++ ds2) acc = horner base ds2 (horner base ds1 acc).
Proof. unfold horner. apply foldl_app. Qed.

Lemma horner_acc (base : N) (ds : list N) (acc : N) :
  horner base ds acc = (acc * base ^ N.of_nat (length ds) + horner base ds 0)%N.
Proof.
  revert acc. induction ds as [|d ds IH]; intros acc; simpl; [lia|].
  unfold horner in *; simpl. rewrite (IH (acc * base + d)%N), (IH (0 * base + d)%N).
  rewrite Nat2N.inj_succ, N.pow_succ_r'. lia.
Qed.

Lemma horner_cons (base d : N) (ds : list N) :
  horner base (d :: ds) 0 = (d * base ^ N.of_nat (length ds) + horner base ds 0)%N.
Proof.
  change (horner base (d :: ds) 0) with (horner base ds (0 * base + d)%N).
  rewrite horner_acc. nia.
Qed.

Lemma digits_go_spec (f : nat) (base n : N) (acc : list N) :
  (2 <= base)%N → (0 < f)%nat → (n < 2 ^ N.of_nat f)%N → Forall (λ d, d < base)%N acc →
  horner base (digits_go f base n acc) 0 =
    (n * base ^ N.of_nat (length acc) + horner base acc 0)%N ∧
  Forall (λ d, d < base)%N (digits_go f base n acc) ∧
  digits_go f base n acc ≠ [].
Proof.
  revert n acc. induction f as [|f IH]; intros n acc Hb Hf Hn Hacc; [lia|]. simpl.
  destruct (N.ltb_spec n base) as [Hlt|Hge].
  - split_and!; [|by constructor|done].
    by rewrite horner_cons.
  - assert (Hdiv : (n / base < 2 ^ N.of_nat f)%N).
    { rewrite Nat2N.inj_succ, N.pow_succ_r' in Hn.
      apply N.Div0.div_lt_upper_bound. nia. }
    assert (Hf' : (0 < f)%nat).
    { destruct f; [|lia]. simpl in Hdiv.
      assert (1 <= n / base)%N by (apply N.div_le_lower_bound; lia). lia. }
    destruct (IH (n / base)%N (n mod base :: acc)%N Hb Hf' Hdiv) as (H1 & H2 & H3).
    { constructor; [apply N.mod_lt; lia|done]. }
    split_and!; [|done|done]. rewrite H1.
    rewrite horner_cons. simpl length. rewrite Nat2N.inj_succ, N.pow_succ_r'.
    pose proof (N.div_mod n base ltac:(lia)). nia.
Qed.

Lemma to_digits_spec (base n : N) :
  (2 <= base)%N →
  horner base (to_digits base n) 0 = n ∧ Forall (λ d, d < base)%N (to_digits base n) ∧
  to_digits base n ≠ [].
Proof.
  intros Hb. unfold to_digits.
  destruct (digits_go_spec (S (N.to_nat (N.size n))) base n [] Hb) as (H1 & H2 & H3);
    [lia| |constructor|].
  - pose proof (N.size_gt n). rewrite Nat2N.inj_succ, N2Nat.id, N.pow_succ_r'. lia.
  - split_and!; [|done|done]. rewrite H1. simpl. lia.
Qed.

Lemma digit_char_props (d : N) :
  (d < 16)%N →
  c_isspace (digit_char d) = false ∧ digit_char d ≠ "-"%char ∧ digit_char d ≠ "+"%char ∧
  digit_char d ≠ "x"%char ∧ digit_char d ≠ "X"%char.
Proof.
  intros Hd. assert (Hk : (N.to_nat d < 16)%nat) by lia.
  rewrite <- (N2Nat.id d) in *. generalize dependent (N.to_nat d). intros k Hd Hk.
  do 16 (destruct k as [|k]; [split_and!; [reflexivity|vm_compute; congruence..]|]); lia.
Qed.

Lemma scan_sign_other (c : ascii) (s : str) :
  c ≠ "-"%char → c ≠ "+"%char → scan_sign (c :: s) = (false, c :: s).
Proof. intros H1 H2. destruct c as [[] [] [] [] [] [] [] []]; done. Qed.

Lemma skip_hex_prefix_keep (c c' : ascii) (s : str) :
  c' ≠ "x"%char → c' ≠ "X"%char → skip_hex_prefix (c :: c' :: s) = c :: c' :: s.
Proof.
  intros H1 H2. destruct (decide (c = "0"%char)) as [->|Hc].
  - destruct c' as [[] [] [] [] [] [] [] []]; done.
  - destruct c as [[] [] [] [] [] [] [] []]; done.
Qed.

Lemma skip_hex_prefix_single (c : ascii) : skip_hex_prefix [c] = [c].
Proof. destruct c as [[] [] [] [] [] [] [] []]; done. Qed.

Lemma skip_ws_app (ws s : str) :
  Forall (λ c, c_isspace c = true) ws → skip_ws (ws ++ s) = skip_ws s.
Proof. induction 1 as [|c ws Hc _ IH]; simpl; [done|]. by rewrite Hc. Qed.

Lemma scan_digits_map (base : N) (ds : list N) (rest : str) (acc : N) (cnt : nat) :
  (base = 10 ∨ base = 16)%N → Forall (λ d, d < base)%N ds → stops base rest →
  scan_digits base (map digit_char ds ++ rest) acc cnt =
    (horner base ds acc, (cnt + length ds)%nat, rest).
Proof.
  intros Hb Hds Hr. revert acc cnt.
  induction Hds as [|d ds Hd _ IH]; intros acc cnt; simpl.
  - rewrite Nat.add_0_r. destruct rest as [|c rest]; [done|]. simpl.
    by destruct Hr as [-> _].
  - rewrite digit_value_char by done. rewrite IH. do 2 f_equal. lia.
Qed.

(** The characters of a digit list written by [show_N]. *)
Lemma show_N_shape (base n : N) :
  (base = 10 ∨ base = 16)%N →
  ∃ d ds, to_digits base n = d :: ds ∧ Forall (λ d, d < base)%N (d :: ds) ∧
          horner base (d :: ds) 0 = n ∧ (d < 16)%N.
Proof.
  intros Hb. destruct (to_digits_spec base n) as (H1 & H2 & H3); [lia|].
  destruct (to_digits base n) as [|d ds]; [done|].
  exists d, ds. split_and!; [done|done|done|]. apply Forall_cons in H2. lia.
Qed.

Lemma skip_hex_prefix_digits (ds : list N) (rest : str) :
  Forall (λ d, d < 16)%N ds → stops 16 rest →
  skip_hex_prefix (map digit_char ds ++ rest) = map digit_char ds ++ rest.
Proof.
  intros Hds Hr. destruct Hds as [|d0 ds H0 Hds].
  { destruct rest as [|c [|c' rest]]; simpl in *; [done|apply skip_hex_prefix_single|].
    destruct Hr as (Hc & _ & _). destruct c as [[] [] [] [] [] [] [] []]; done. }
  destruct Hds as [|d1 ds H1 _]; simpl.
  - destruct rest as [|c rest]; simpl in *; [apply skip_hex_prefix_single|].
    destruct Hr as (_ & Hx & HX). by apply skip_hex_prefix_keep.
  - destruct (digit_char_props d1 H1) as (_ & _ & _ & Hx & HX).
    by apply skip_hex_prefix_keep.
Qed.

Lemma skip_ws_nonspace (c : ascii) (s : str) :
  c_isspace c = false → skip_ws (c :: s) = c :: s.
Proof. intros H. simpl. by rewrite H. Qed.

(** Decimal round trip: [show_Z] read back by [operator>>(int&)]. *)
Lemma extract_int_show (ws rest : str) (z : Z) :
  Forall (λ c, c_isspace c = true) ws → (INT_MIN <= z <= INT_MAX)%Z → stops 10 rest →
  extract_int (ws ++ show_Z z ++ rest) = XOk z rest.
Proof.
  intros Hws Hz Hr. unfold extract_int. rewrite skip_ws_app by done. unfold show_Z.
  destruct (Z.ltb_spec z 0) as [Hneg|Hpos].
  - destruct (show_N_shape 10 (Z.to_N (- z))) as (d & ds & Hd & Hall & Hh & H16); [by left|].
    unfold show_N. rewrite Hd. rewrite <- app_comm_cons, skip_ws_nonspace by done.
    change (scan_sign ("-"%char :: ?s)) with (true, s). cbv beta iota zeta.
    rewrite scan_digits_map by auto. cbn -[horner INT_MIN INT_MAX]. rewrite Hh.
    destruct (Z.ltb_spec (- Z.of_N (Z.to_N (- z))) INT_MIN); [lia|].
    destruct (Z.ltb_spec INT_MAX (- Z.of_N (Z.to_N (- z)))); [lia|].
    f_equal. lia.
  - destruct (show_N_shape 10 (Z.to_N z)) as (d & ds & Hd & Hall & Hh & H16); [by left|].
    destruct (digit_char_props d H16) as (Hsp & Hm & Hp & _).
    unfold show_N. rewrite Hd. cbn [map app].
    rewrite skip_ws_nonspace, scan_sign_other by done.
    change (digit_char d :: map digit_char ds ++ rest) with (map digit_char (d :: ds) ++ rest).
    cbv beta iota zeta. rewrite scan_digits_map by auto. cbn -[horner INT_MIN INT_MAX]. rewrite Hh.
    destruct (Z.ltb_spec (Z.of_N (Z.to_N z)) INT_MIN); [lia|].
    destruct (Z.ltb_spec INT_MAX (Z.of_N (Z.to_N z))); [lia|].
    f_equal. lia.
Qed.

(** Hexadecimal round trip: [show_N 16] read back by [operator>>(size_t&)]
    with [std::hex]. *)
Lemma extract_size_hex_show (ws rest : str) (n : N) :
  Forall (λ c, c_isspace c = true) ws → (n <= SIZE_MAX)%N → stops 16 rest →
  extract_size_hex (ws ++ show_N 16 n ++ rest) = XOk n rest.
Proof.
  intros Hws Hn Hr. unfold extract_size_hex. rewrite skip_ws_app by done.
  destruct (show_N_shape 16 n) as (d & ds & Hd & Hall & Hh & H16); [by right|].
  destruct (digit_char_props d H16) as (Hsp & Hm & Hp & _).
  unfold show_N. rewrite Hd. cbn [map app].
  rewrite skip_ws_nonspace, scan_sign_other by done.
  change (digit_char d :: map digit_char ds ++ rest) with (map digit_char (d :: ds) ++ rest).
  cbv beta iota zeta. rewrite skip_hex_prefix_digits, scan_digits_map by auto.
  cbn -[horner SIZE_MAX]. rewrite Hh.
  destruct (N.ltb_spec SIZE_MAX n); [lia|]. done.
Qed.

(** The sign and digits of [show_Z z], as the two scanners read them. *)
Lemma scan_show (z : Z) (rest : str) :
  stops 10 rest →
  (let '(neg, s2) := scan_sign (show_Z z ++ rest) in
   let '(mag, cnt, rest') := scan_digits 10 s2 0 0 in
   (neg, mag, (cnt =? 0)%nat, rest')) = ((z <? 0)%Z, Z.to_N (Z.abs z), false, rest).
Proof.
  intros Hr. unfold show_Z. destruct (Z.ltb_spec z 0) as [Hneg|Hpos].
  - destruct (show_N_shape 10 (Z.to_N (- z))) as (d & ds & Hd & Hall & Hh & H16); [by left|].
    unfold show_N. rewrite Hd. rewrite <- app_comm_cons.
    change (scan_sign ("-"%char :: ?s)) with (true, s). cbv beta iota zeta.
    rewrite scan_digits_map by auto. cbn -[horner]. rewrite Hh. by rewrite Z.abs_neq by lia.
  - destruct (show_N_shape 10 (Z.to_N z)) as (d & ds & Hd & Hall & Hh & H16); [by left|].
    destruct (digit_char_props d H16) as (Hsp & Hm & Hp & _).
    unfold show_N. rewrite Hd. cbn [map app]. rewrite scan_sign_other by done.
    change (digit_char d :: map digit_char ds ++ rest) with (map digit_char (d :: ds) ++ rest).
    cbv beta iota zeta. rewrite scan_digits_map by auto. cbn -[horner]. rewrite Hh. by rewrite Z.abs_eq by lia.
Qed.

(** ** Bounds *)

(** Whatever [operator>>(int&)] writes is an [int]. *)
Lemma extract_int_range (s : str) (v : Z) :
  (extract_int s = XFail v ∨ ∃ r, extract_int s = XOk v r) → (INT_MIN <= v <= INT_MAX)%Z.
Proof.
  unfold extract_int. destruct (skip_ws s) as [|c s1]; [by intros [? | [? ?]]|].
  destruct (scan_sign (c :: s1)) as [neg s2].
  destruct (scan_digits 10 s2 0 0) as [[mag cnt] rest].
  destruct_cmp; intros [Hx|[r Hx]]; simplify_eq; unfold INT_MIN, INT_MAX in *; lia.
Qed.

(** Whatever [operator>>(size_t&)] writes is a 64-bit unsigned value. *)
Lemma extract_size_hex_range (s : str) (v : N) :
  (extract_size_hex s = XFail v ∨ ∃ r, extract_size_hex s = XOk v r) → (v <= SIZE_MAX)%N.
Proof.
  unfold extract_size_hex. destruct (skip_ws s) as [|c s1]; [by intros [? | [? ?]]|].
  destruct (scan_sign (c :: s1)) as [neg s2].
  destruct (scan_digits 16 (skip_hex_prefix s2) 0 0) as [[mag cnt] rest].
  destruct_cmp; intros [Hx|[r Hx]]; simplify_eq; unfold SIZE_MAX in *; try lia.
  destruct neg; [|lia]. pose proof (N.mod_lt (2 ^ 64 - mag) (2 ^ 64)). lia.
Qed.

(** ** Words *)

Lemma span_word_spec (s w r : str) :
  span_word s = (w, r) →
  s = w ++ r ∧ Forall (λ c, c_isspace c = false) w ∧
  match r with [] => True | c :: _ => c_isspace c = true end.
Proof.
  revert w r. induction s as [|c s IH]; intros w r H; simpl in H; [by simplify_eq|].
  destruct (c_isspace c) eqn:Hc; [by simplify_eq|].
  destruct (span_word s) as [w' r'] eqn:E. simplify_eq.
  destruct (IH _ _ eq_refl) as (-> & Hw & Hr). split_and!; [done|by constructor|done].
Qed.

Lemma skip_ws_suffix (s : str) : ∃ ws, s = ws ++ skip_ws s ∧ Forall (λ c, c_isspace c = true) ws.
Proof.
  induction s as [|c s (ws & Hs & Hws)]; simpl; [by exists []|].
  destruct (c_isspace c) eqn:Hc; [|by exists []].
  exists (c :: ws). split; [simpl; congruence|by constructor].
Qed.

Lemma skip_ws_head (s s1 : str) (c : ascii) :
  skip_ws s = c :: s1 → c_isspace c = false.
Proof.
  induction s as [|x s IH]; simpl; [done|].
  destruct (c_isspace x) eqn:Hx; [done|]. intros; by simplify_eq.
Qed.

(** A successful word extraction reads a non-empty word of non-space
    characters and consumes input. *)
Lemma extract_string_ok (s w r : str) :
  extract_string s = XOk w r →
  w ≠ [] ∧ Forall (λ c, c_isspace c = false) w ∧ (length r < length s)%nat.
Proof.
  unfold extract_string. destruct (skip_ws_suffix s) as (ws & Hs & _).
  destruct (skip_ws s) as [|c s1] eqn:E; [done|].
  pose proof (skip_ws_head _ _ _ E) as Hc.
  destruct (span_word (c :: s1)) as [w' r'] eqn:Hsp. intros Hx; simplify_eq.
  destruct (span_word_spec _ _ _ Hsp) as (Heq & Hw & _).
  destruct w as [|x w]; simpl in Heq.
  - subst r. simpl in Hsp. rewrite Hc in Hsp. destruct (span_word s1); simplify_eq.
  - split_and!; [done|done|]. apply (f_equal length) in Heq.
    rewrite ?length_app in *; simpl in *; rewrite ?length_app in *; lia.
Qed.

Lemma extract_string_word (ws w rest : str) :
  Forall (λ c, c_isspace c = true) ws → w ≠ [] → Forall (λ c, c_isspace c = false) w →
  match rest with [] => True | c :: _ => c_isspace c = true end →
  extract_string (ws ++ w ++ rest) = XOk w rest.
Proof.
  intros Hws Hne Hw Hr. unfold extract_string. rewrite skip_ws_app by done.
  destruct w as [|c w]; [done|]. apply Forall_cons in Hw as [Hc Hw].
  rewrite <- app_comm_cons, skip_ws_nonspace by done.
  assert (span_word (w ++ rest) = (w, rest)) as Hs.
  { induction Hw as [|x w Hx _ IH]; simpl.
    - destruct rest as [|c' rest]; [done|]. simpl. by rewrite Hr.
    - by rewrite Hx, IH. }
  simpl. by rewrite Hc, Hs.
Qed.

Lemma extract_string_eof (s : str) :
  Forall (λ c, c_isspace c = true) s → extract_string s = XEof.
Proof.
  intros Hs. unfold extract_string. rewrite <- (app_nil_r s), skip_ws_app by done. done.
Qed.

(** Printed numbers contain no white space. *)
Lemma show_N_nospace (base n : N) :
  (2 <= base <= 16)%N → Forall (λ c, c_isspace c = false) (show_N base n).
Proof.
  intros Hb. unfold show_N. destruct (to_digits_spec base n) as (_ & Hall & _); [lia|].
  apply Forall_map. eapply Forall_impl; [done|]. intros d Hd.
  cbv beta in Hd. by destruct (digit_char_props d ltac:(lia)).
Qed.

Lemma show_Z_nospace (z : Z) : Forall (λ c, c_isspace c = false) (show_Z z).
Proof.
  unfold show_Z. destruct (z <? 0)%Z; [constructor; [done|]|]; apply (show_N_nospace 10); lia.
Qed.

Lemma show_Z_cons (z : Z) : ∃ c s, show_Z z = c :: s.
Proof.
  unfold show_Z. destruct (z <? 0)%Z; [by eexists _, _|].
  destruct (show_N_shape 10 (Z.to_N z)) as (d & ds & Hd & _); [by left|].
  unfold show_N. rewrite Hd. by eexists _, _.
Qed.

Lemma skip_ws_show (z : Z) (rest : str) : skip_ws (show_Z z ++ rest) = show_Z z ++ rest.
Proof.
  pose proof (show_Z_nospace z) as Hn. destruct (show_Z_cons z) as (c & s & E).
  rewrite E in Hn |- *. apply Forall_cons in Hn as [Hc _]. by apply skip_ws_nonspace.
Qed.

(** A character that is neither '-' nor a decimal digit does not occur
    in a printed [int]. *)
Lemma show_Z_notin (c : ascii) (z : Z) :
  c ≠ "-"%char → digit_value 10 c = None → c ∉ show_Z z.
Proof.
  intros Hm Hd. assert (Hn : ∀ n, c ∉ show_N 10 n).
  { intros n Hin. destruct (to_digits_spec 10 n) as (_ & Hall & _); [lia|].
    unfold show_N in Hin. apply list_elem_of_fmap in Hin as (d & -> & Hd').
    rewrite digit_value_char in Hd; [done|by left|]. by eapply Forall_forall in Hall. }
  unfold show_Z. destruct (z <? 0)%Z; [|apply Hn]. apply not_elem_of_cons. split; [done|apply Hn].
Qed.

(** [std::stoi] reads back a decimal [int] followed by a non-digit. *)
Lemma stoi_show (z : Z) (rest : str) :
  (INT_MIN <= z <= INT_MAX)%Z → stops 10 rest → stoi (show_Z z ++ rest) = inr z.
Proof.
  intros Hz Hr. unfold stoi. rewrite skip_ws_show. pose proof (scan_show z rest Hr) as Hs.
  destruct (scan_sign (show_Z z ++ rest)) as [neg s2].
  destruct (scan_digits 10 s2 0 0) as [[mag cnt] rest'].
  injection Hs as -> -> -> ->. cbn -[INT_MIN INT_MAX].
  destruct (Z.ltb_spec z 0); [rewrite Z.abs_neq by lia|rewrite Z.abs_eq by lia];
    rewrite Z2N.id by lia; destruct_cmp; simpl; try lia; f_equal; lia.
Qed.

(** Decimal round trip: a status code printed in decimal is read back by
    [operator>>(int&)] exactly, with nothing left over. *)
Theorem extract_int_roundtrip (z : Z) :
  (INT_MIN <= z <= INT_MAX)%Z → extract_int (show_Z z) = XOk z [].
Proof.
  intros Hz. pose proof (extract_int_show [] [] z (List.Forall_nil _) Hz I) as H.
  by rewrite app_nil_l, app_nil_r in H.
Qed.

(** Hexadecimal round trip: a 64-bit size printed in hexadecimal is read
    back by [operator>>(size_t&)] with [std::hex]. *)
Theorem extract_size_hex_roundtrip (n : N) :
  (n <= SIZE_MAX)%N → extract_size_hex (show_N 16 n) = XOk n [].
Proof.
  intros Hn. pose proof (extract_size_hex_show [] [] n (List.Forall_nil _) Hn I) as H.
  by rewrite app_nil_l, app_nil_r in H.
Qed.

(** ** Witnesses *)

Lemma extract_int_roundtrip_witness :
  (INT_MIN <= 404 <= INT_MAX)%Z ∧ extract_int (show_Z 404) = XOk 404%Z [].
Proof.
  assert (H : (INT_MIN <= 404 <= INT_MAX)%Z) by (unfold INT_MIN, INT_MAX; lia).
  exact (conj H (extract_int_roundtrip 404 H)).
Defined.

Lemma extract_size_hex_roundtrip_witness :
  (26 <= SIZE_MAX)%N ∧ extract_size_hex (show_N 16 26) = XOk 26%N [].
Proof.
  assert (H : (26 <= SIZE_MAX)%N) by (unfold SIZE_MAX; lia).
  exact (conj H (extract_size_hex_roundtrip 26 H)).
Defined.

Lemma extract_size_hex_range_witness :
  (extract_size_hex ‹"-1"› = XFail SIZE_MAX ∨ ∃ r, extract_size_hex ‹"-1"› = XOk SIZE_MAX r) ∧
  (SIZE_MAX <= SIZE_MAX)%N.
Proof.
  assert (H : extract_size_hex ‹"-1"› = XFail SIZE_MAX ∨
              ∃ r, extract_size_hex ‹"-1"› = XOk SIZE_MAX r)
    by (right; exists []; vm_compute; reflexivity).
  exact (conj H (extract_size_hex_range ‹"-1"› SIZE_MAX H)).
Defined.
