(* ===== verification/Message.v ===== *)
(** * The [HttpResponse] struct of src/include/processing/processing.h

    The record has the struct's seven fields with their C++ types:
    [std::string] is [str], [int] is [Z] (kept in the [int] range by the
    code that writes it, see [StatusLine.parseStatusLine_code_range]),
    [std::map<std::string, std::string>] is a [gmap str str] (only its
    lookups matter to the code: [headers.find] and [headers[key] = value]),
    [bool] is [bool].  One setter per field stands for an assignment
    [response.field = v]. *)

From S2P Require Import Prelude StdString.

Record HttpResponse := mkHttpResponse {
  httpVersion : str;
  statusCode : Z;
  reasonPhrase : str;
  headers : gmap str str;
  body : str;
  isSuccess : bool;
  errorMessage : str
}.

(** [HttpResponse() : statusCode(0), isSuccess(false) {}]; the strings and
    the map are default-constructed empty. *)
Definition HttpResponse_init : HttpResponse :=
  mkHttpResponse [] 0%Z [] ∅ [] false [].

Definition set_httpVersion (v : str) (r : HttpResponse) : HttpResponse :=
  mkHttpResponse v (statusCode r) (reasonPhrase r) (headers r) (body r) (isSuccess r) (errorMessage r).
Definition set_statusCode (v : Z) (r : HttpResponse) : HttpResponse :=
  mkHttpResponse (httpVersion r) v (reasonPhrase r) (headers r) (body r) (isSuccess r) (errorMessage r).
Definition set_reasonPhrase (v : str) (r : HttpResponse) : HttpResponse :=
  mkHttpResponse (httpVersion r) (statusCode r) v (headers r) (body r) (isSuccess r) (errorMessage r).
Definition set_headers (v : gmap str str) (r : HttpResponse) : HttpResponse :=
  mkHttpResponse (httpVersion r) (statusCode r) (reasonPhrase r) v (body r) (isSuccess r) (errorMessage r).
Definition set_body (v : str) (r : HttpResponse) : HttpResponse :=
  mkHttpResponse (httpVersion r) (statusCode r) (reasonPhrase r) (headers r) v (isSuccess r) (errorMessage r).
Definition set_isSuccess (v : bool) (r : HttpResponse) : HttpResponse :=
  mkHttpResponse (httpVersion r) (statusCode r) (reasonPhrase r) (headers r) (body r) v (errorMessage r).
Definition set_errorMessage (v : str) (r : HttpResponse) : HttpResponse :=
  mkHttpResponse (httpVersion r) (statusCode r) (reasonPhrase r) (headers r) (body r) (isSuccess r) v.

#[export] Instance HttpResponse_eq_dec : EqDecision HttpResponse.
Proof. intros [] []. solve_decision. Defined.

(** The error texts [parseHttpResponse] and [parseStatusLine] store. *)
Definition msg_empty : str := ‹"Empty response received"›.
Definition msg_no_separator : str :=
  ‹"Invalid HTTP response format - no header separator found"›.
Definition msg_status_line : str := ‹"Invalid status line format"›.
