(* ===== verification/StatusLine.v ===== *)
(** * [SimpleHttpClient::parseStatusLine] (processing.cpp, lines 249-266)

    [statusStream >> response.httpVersion >> response.statusCode] on an
    [istringstream] over the line, the failure branch that stores
    "Invalid status line format", and the loop
    [while (statusStream >> word)] that rebuilds the reason phrase with one
    space between words.  The loop takes fuel; [reason_loop_fuel] shows
    that the fuel [parseStatusLine] passes is never exhausted, and
    [reason_loop_words] that the loop computes the words of the rest of the
    line joined by single spaces. *)

From S2P Require Import Prelude StdString IStream Message.

(** The body of the reason-phrase loop:
    [if (!reasonPhrase.empty()) reasonPhrase += " "; reasonPhrase += word;] *)
Definition append_word (phrase word : str) : str :=
  (if decide (phrase = []) then phrase else phrase ++ [SP]) ++ word.

(** [while (statusStream >> word) { ... }] *)
Fixpoint reason_loop (fuel : nat) (s phrase : str) : str :=
  match fuel with
  | O => phrase
  | S f =>
      match extract_string s with
      | XOk w rest => reason_loop f rest (append_word phrase w)
      | _ => phrase
      end
  end.

(** [bool parseStatusLine(const std::string& line, HttpResponse& response)]:
    the boolean result and the response as the call leaves it. *)
Definition parseStatusLine (line : str) (r : HttpResponse) : bool * HttpResponse :=
  match extract_string line with
  | XOk ver rest =>
      let r1 := set_httpVersion ver r in
      match extract_int rest with
      | XOk code rest' =>
          let r2 := set_statusCode code r1 in
          (true, set_reasonPhrase (reason_loop (S (length rest')) rest' []) r2)
      | XFail v => (false, set_errorMessage msg_status_line (set_statusCode v r1))
      | XEof => (false, set_errorMessage msg_status_line r1)
      end
  | _ => (false, set_errorMessage msg_status_line r)
  end.

(** ** Reference: the words of a line *)

(** The white-space separated words of [s], as a reference for the loop. *)
Fixpoint split_words (s : str) : list str :=
  match s with
  | [] => []
  | c :: s' =>
      if c_isspace c then split_words s'
      else match s' with
           | [] => [[c]]
           | c' :: _ =>
               if c_isspace c' then [c] :: split_words s'
               else match split_words s' with
                    | [] => [[c]]
                    | w :: ws => (c :: w) :: ws
                    end
           end
  end.

(** Words joined by single spaces. *)
Definition join_words (ws : list str) : str :=
  match ws with
  | [] => []
  | w :: ws' => w ++ mjoin (map (λ w, SP :: w) ws')
  end.

(** A status line as a server writes it: version, code, reason words. *)
Definition render_status_line (ver : str) (code : Z) (words : list str) : str :=
  ver ++ [SP] ++ show_Z code ++ mjoin (map (λ w, SP :: w) words).

(** A token: non-empty, without white space. *)
Definition token (w : str) : Prop := w ≠ [] ∧ Forall (λ c, c_isspace c = false) w.

#[export] Instance token_dec (w : str) : Decision (token w).
Proof. unfold token. apply _. Defined.

(** ** Lemmas *)

Lemma split_words_spaces (ws s : str) :
  Forall (λ c, c_isspace c = true) ws → split_words (ws ++ s) = split_words s.
Proof. induction 1 as [|c ws Hc _ IH]; simpl; [done|]. by rewrite Hc. Qed.

Lemma split_words_cons (c : ascii) (s : str) :
  split_words (c :: s) =
    if c_isspace c then split_words s
    else match s with
         | [] => [[c]]
         | c' :: _ =>
             if c_isspace c' then [c] :: split_words s
             else match split_words s with [] => [[c]] | w :: ws => (c :: w) :: ws end
         end.
Proof. reflexivity. Qed.

Lemma split_words_word (w r : str) :
  token w → match r with [] => True | c :: _ => c_isspace c = true end →
  split_words (w ++ r) = w :: split_words r.
Proof.
  intros [Hne Hw] Hr. induction Hw as [|c w Hc Hw IH]; [done|].
  rewrite <- app_comm_cons, split_words_cons, Hc.
  destruct w as [|c' w].
  - destruct r as [|c' r]; [done|]. simpl. by rewrite Hr.
  - apply Forall_cons in Hw as [Hc' _]. cbn [app] in *. rewrite Hc', IH; done.
Qed.

(** One extraction reads the first word of the reference split. *)
Lemma split_words_extract (s : str) :
  split_words s =
    match extract_string s with XOk w rest => w :: split_words rest | _ => [] end.
Proof.
  destruct (skip_ws_suffix s) as (ws & Hs & Hws).
  unfold extract_string. rewrite Hs at 1. rewrite split_words_spaces by done.
  destruct (skip_ws s) as [|c s1] eqn:E; [done|].
  destruct (span_word (c :: s1)) as [w r] eqn:Hsp.
  destruct (span_word_spec _ _ _ Hsp) as (Heq & Hw & Hr). rewrite Heq.
  apply split_words_word; [|done]. split; [|done].
  intros ->. simpl in Heq. subst r. pose proof (skip_ws_head _ _ _ E) as Hc.
  simpl in Hsp. rewrite Hc in Hsp. destruct (span_word s1); simplify_eq.
Qed.

(** Termination of the reason-phrase loop: every round consumes input, so
    any fuel above the length of the input gives the same result. *)
Lemma reason_loop_fuel (n m : nat) (s phrase : str) :
  (length s < n)%nat → (length s < m)%nat → reason_loop n s phrase = reason_loop m s phrase.
Proof.
  revert m s phrase. induction n as [|n IH]; intros m s phrase Hn Hm; [lia|].
  destruct m as [|m]; [lia|]. simpl.
  destruct (extract_string s) as [| |w rest] eqn:E; [done|done|].
  destruct (extract_string_ok _ _ _ E) as (_ & _ & Hlt). apply IH; lia.
Qed.

(** The loop is the reference: the words of the input, appended to the
    phrase one by one. *)
Lemma reason_loop_words (n : nat) (s phrase : str) :
  (length s < n)%nat → reason_loop n s phrase = foldl append_word phrase (split_words s).
Proof.
  revert s phrase. induction n as [|n IH]; intros s phrase Hn; [lia|].
  rewrite split_words_extract. simpl.
  destruct (extract_string s) as [| |w rest] eqn:E; [done|done|].
  destruct (extract_string_ok _ _ _ E) as (_ & _ & Hlt). simpl. apply IH. lia.
Qed.

(** Appending the words one by one joins them with single spaces. *)
Lemma foldl_append_word (phrase : str) (ws : list str) :
  phrase ≠ [] → Forall (λ w, w ≠ []) ws →
  foldl append_word phrase ws = phrase ++ mjoin (map (λ w, SP :: w) ws).
Proof.
  intros Hp Hws. revert phrase Hp. induction Hws as [|w ws Hw Hws IH]; intros phrase Hp.
  - by rewrite app_nil_r.
  - simpl. rewrite IH.
    + unfold append_word. rewrite decide_False by done. by rewrite <- !app_assoc.
    + unfold append_word. rewrite decide_False by done. by destruct phrase.
Qed.

Lemma foldl_append_word_nil (ws : list str) :
  Forall (λ w, w ≠ []) ws → foldl append_word [] ws = join_words ws.
Proof.
  intros Hws. destruct Hws as [|w ws Hw Hws]; [done|]. cbn [foldl join_words].
  assert (append_word [] w = w) as -> by reflexivity. by apply foldl_append_word.
Qed.

Lemma split_words_render (words : list str) :
  Forall token words → split_words (mjoin (map (λ w, SP :: w) words)) = words.
Proof.
  induction 1 as [|w ws Hw Hws IH]; [done|].
  change (mjoin (map (λ w, SP :: w) (w :: ws))) with ([SP] ++ w ++ mjoin (map (λ w, SP :: w) ws)).
  rewrite split_words_spaces by (by constructor).
  rewrite split_words_word, IH; [done|done|]. by destruct ws.
Qed.

Lemma render_rest_stops (words : list str) :
  stops 10 (mjoin (map (λ w, SP :: w) words)).
Proof. by destruct words. Qed.

(** ** Properties of [parseStatusLine] *)

(** Round trip: a status line written as version, code and reason words is
    parsed back to exactly these fields; the reason phrase is the words
    joined by single spaces (empty when there is none). *)
Theorem parseStatusLine_render (ver : str) (code : Z) (words : list str) (r : HttpResponse) :
  token ver → (INT_MIN <= code <= INT_MAX)%Z → Forall token words →
  parseStatusLine (render_status_line ver code words) r =
    (true, set_reasonPhrase (join_words words) (set_statusCode code (set_httpVersion ver r))).
Proof.
  intros [Hv Hvs] Hc Hws. unfold parseStatusLine, render_status_line.
  rewrite <- (app_nil_l (ver ++ _)).
  rewrite extract_string_word; [|constructor|done|done|reflexivity].
  rewrite (extract_int_show [SP]); [|repeat constructor|exact Hc|apply render_rest_stops].
  rewrite (reason_loop_words _ _ _ (Nat.lt_succ_diag_r _)), split_words_render by done.
  rewrite foldl_append_word_nil; [done|]. eapply Forall_impl; [done|]. by intros w [].
Qed.

(** What a successful call leaves: a non-empty version token and an [int]
    status code; the other fields of the response are untouched. *)
Lemma parseStatusLine_true (line : str) (r r' : HttpResponse) :
  parseStatusLine line r = (true, r') →
  token (httpVersion r') ∧ (INT_MIN <= statusCode r' <= INT_MAX)%Z ∧
  headers r' = headers r ∧ body r' = body r ∧ isSuccess r' = isSuccess r ∧
  errorMessage r' = errorMessage r.
Proof.
  unfold parseStatusLine.
  destruct (extract_string line) as [| |ver rest] eqn:E1; [done|done|].
  destruct (extract_int rest) as [|v|code rest'] eqn:E2; [done|done|].
  intros H; simplify_eq/=. destruct (extract_string_ok _ _ _ E1) as (Hne & Hw & _).
  pose proof (extract_int_range rest code ltac:(eauto)). split_and!; done || lia.
Qed.

(** What a failed call leaves: the error text, and the headers, body and
    success flag untouched. *)
Lemma parseStatusLine_false (line : str) (r r' : HttpResponse) :
  parseStatusLine line r = (false, r') →
  errorMessage r' = msg_status_line ∧ headers r' = headers r ∧ body r' = body r ∧
  isSuccess r' = isSuccess r.
Proof.
  unfold parseStatusLine.
  destruct (extract_string line) as [| |ver rest]; [by intros; simplify_eq|by intros; simplify_eq|].
  destruct (extract_int rest) as [|v|code rest']; intros H; by simplify_eq/=.
Qed.

(** Whatever the line, [response.statusCode] stays in the [int] range. *)
Theorem parseStatusLine_code_range (line : str) (r : HttpResponse) :
  (INT_MIN <= statusCode r <= INT_MAX)%Z →
  (INT_MIN <= statusCode (snd (parseStatusLine line r)) <= INT_MAX)%Z.
Proof.
  intros Hr. unfold parseStatusLine.
  destruct (extract_string line) as [| |ver rest]; [done|done|].
  destruct (extract_int rest) as [|v|code rest'] eqn:E; [done| |]; simpl;
    apply (extract_int_range rest); eauto.
Qed.

(** ** Witnesses *)

Lemma reason_loop_fuel_witness :
  (length ‹" Not Found"› < 11)%nat ∧ (length ‹" Not Found"› < 20)%nat ∧
  reason_loop 11 ‹" Not Found"› [] = reason_loop 20 ‹" Not Found"› [].
Proof.
  assert (H1 : (length ‹" Not Found"› < 11)%nat) by (simpl; lia).
  assert (H2 : (length ‹" Not Found"› < 20)%nat) by (simpl; lia).
  exact (conj H1 (conj H2 (reason_loop_fuel 11 20 ‹" Not Found"› [] H1 H2))).
Defined.

Lemma parseStatusLine_code_range_witness :
  (INT_MIN <= statusCode HttpResponse_init <= INT_MAX)%Z ∧
  (INT_MIN <= statusCode (snd (parseStatusLine ‹"HTTP/1.1 99999999999 Big"› HttpResponse_init))
     <= INT_MAX)%Z.
Proof.
  assert (H : (INT_MIN <= statusCode HttpResponse_init <= INT_MAX)%Z)
    by (simpl; unfold INT_MIN, INT_MAX; lia).
  exact (conj H (parseStatusLine_code_range ‹"HTTP/1.1 99999999999 Big"› HttpResponse_init H)).
Defined.
