(* ===== verification/Headers.v ===== *)
(** * [SimpleHttpClient::parseHeaderLine] (processing.cpp, lines 268-287)

    A header line is split at its first colon; the value is trimmed of
    spaces and tabs with [find_first_not_of(" \t")] /
    [find_last_not_of(" \t")]; the key is lowered with [::tolower]; the pair
    is stored with [response.headers[key] = value], which overwrites an
    earlier value of the same key.  A line without a colon leaves the
    response as it is.

    The abstract specification of the header block is an association list
    of (lowered key, trimmed value) entries in the order of the lines, read
    with [assoc_last] (the last entry for a key wins).  [header_loop_lookup]
    shows that the [gmap] the code builds refines it. *)

From S2P Require Import Prelude StdString IStream Message.

(** [" \t"] *)
Definition hws : str := [SP; TAB].

(** [size_t start = value.find_first_not_of(" \t");
     size_t end = value.find_last_not_of(" \t");
     if (start != npos) value = value.substr(start, end - start + 1);
     else value = "";]
    ([end] is not [npos] whenever [start] is not.) *)
Definition trim_value (value : str) : str :=
  match find_first_not_of hws value, find_last_not_of hws value with
  | Some start, Some end_ => substr start (end_ - start + 1) value
  | _, _ => []
  end.

(** [void parseHeaderLine(const std::string& line, HttpResponse& response)] *)
Definition parseHeaderLine (line : str) (r : HttpResponse) : HttpResponse :=
  match find_char ":"%char line with
  | Some colonPos =>
      let key := substr 0 colonPos line in
      let value := drop (colonPos + 1) line in
      set_headers (<[lower key := trim_value value]> (headers r)) r
  | None => r
  end.

(** ** Specification *)

(** The entry a header line contributes, if any. *)
Definition header_entry (line : str) : option (str * str) :=
  match find_char ":"%char line with
  | Some p => Some (lower (take p line), trim_value (drop (S p) line))
  | None => None
  end.

(** The last value recorded for [k]. *)
Fixpoint assoc_last (k : str) (es : list (str * str)) : option str :=
  match es with
  | [] => None
  | (k', v) :: es' =>
      match assoc_last k es' with
      | Some v' => Some v'
      | None => if decide (k = k') then Some v else None
      end
  end.

(** A trimmed value: no space or tab at either end. *)
Definition trimmed (v : str) : Prop :=
  match v with
  | [] => True
  | c :: _ => c ∉ hws ∧ ∀ c', last v = Some c' → c' ∉ hws
  end.

#[export] Instance trimmed_dec (v : str) : Decision (trimmed v).
Proof.
  destruct v as [|c v]; [by left|]. unfold trimmed.
  destruct (last (c :: v)) as [c'|] eqn:E.
  - destruct (decide (c ∉ hws ∧ c' ∉ hws)) as [[H1 H2]|Hn].
    + left. split; [done|]. by intros ? [= <-].
    + right. intros [H1 H2]. apply Hn. split; [done|]. by apply H2.
  - exfalso. apply last_None in E. done.
Defined.

(** Every key of the map is lower case and every value trimmed. *)
Definition headers_wf (m : gmap str str) : Prop :=
  map_Forall (λ k v, lower k = k ∧ trimmed v) m.

(** The lines after the status line, each passed to [parseHeaderLine]. *)
Definition header_fold (lines : list str) (r : HttpResponse) : HttpResponse :=
  foldl (λ r l, parseHeaderLine l r) r lines.

(** ** Lemmas on trimming *)

Lemma find_first_not_of_app (set a s : str) :
  Forall (λ c, c ∈ set) a →
  find_first_not_of set (a ++ s) = (λ i, length a + i)%nat <$> find_first_not_of set s.
Proof.
  induction 1 as [|c a Hc _ IH]; simpl.
  - by destruct (find_first_not_of set s).
  - rewrite bool_decide_true by done. rewrite IH. by destruct (find_first_not_of set s).
Qed.

Lemma find_first_not_of_all (set b : str) :
  Forall (λ c, c ∈ set) b → find_first_not_of set b = None.
Proof.
  induction 1 as [|c b Hc _ IH]; simpl; [done|]. rewrite bool_decide_true by done.
  by rewrite IH.
Qed.

Lemma find_last_not_of_all (set b : str) :
  Forall (λ c, c ∈ set) b → find_last_not_of set b = None.
Proof.
  induction 1 as [|c b Hc _ IH]; simpl; [done|]. rewrite IH. by rewrite bool_decide_true.
Qed.

Lemma find_last_not_of_app_r (set s b : str) :
  find_last_not_of set b = None → find_last_not_of set (s ++ b) = find_last_not_of set s.
Proof. intros Hb. induction s as [|c s IH]; simpl; [done|]. by rewrite IH. Qed.

Lemma find_last_not_of_snoc (set s : str) (c : ascii) :
  c ∉ set → find_last_not_of set (s ++ [c]) = Some (length s).
Proof.
  intros Hc. induction s as [|x s IH]; simpl.
  - by rewrite bool_decide_false.
  - by rewrite IH.
Qed.

(** Trimming drops exactly the spaces and tabs around a trimmed text. *)
Lemma trim_value_frame (a t b : str) :
  Forall (λ c, c ∈ hws) a → Forall (λ c, c ∈ hws) b → trimmed t →
  trim_value (a ++ t ++ b) = t.
Proof.
  intros Ha Hb Ht. unfold trim_value.
  rewrite find_first_not_of_app by done.
  rewrite app_assoc, find_last_not_of_app_r by (by apply find_last_not_of_all).
  destruct t as [|c t].
  - simpl. by rewrite find_first_not_of_all.
  - destruct Ht as [Hc Hl].
    destruct (@exists_last _ (c :: t)) as (t' & cl & Ht'); [done|].
    rewrite Ht', last_snoc in Hl. specialize (Hl cl eq_refl).
    assert (find_first_not_of hws ((c :: t) ++ b) = Some 0) as ->.
    { simpl. by rewrite bool_decide_false. }
    rewrite Ht', (app_assoc a t' [cl]), find_last_not_of_snoc by done.
    change ((λ i, length a + i)%nat <$> Some 0) with (Some (length a + 0)%nat).
    cbv beta iota. unfold substr. rewrite Nat.add_0_r, <- !app_assoc, drop_app_length, (app_assoc t').
    replace (length (a ++ t') - length a + 1)%nat with (length (t' ++ [cl]))
      by (rewrite !length_app; simpl; lia).
    apply take_app_length.
Qed.

(** Every value splits into spaces and tabs, a trimmed middle, and spaces
    and tabs. *)
Lemma trim_split (v : str) :
  ∃ a t b, v = a ++ t ++ b ∧ Forall (λ c, c ∈ hws) a ∧ Forall (λ c, c ∈ hws) b ∧ trimmed t.
Proof.
  induction v as [|c v (a & t & b & -> & Ha & Hb & Ht)].
  { by exists [], [], []. }
  destruct (decide (c ∈ hws)) as [Hc|Hc].
  { exists (c :: a), t, b. split_and!; [done|by constructor|done|done]. }
  destruct t as [|c' t].
  - exists [], [c], (a ++ b). do 3 (split; [done || by apply Forall_app|]).
    split; [done|]. by intros ? [= <-].
  - exists [], (c :: a ++ c' :: t), b.
    split; [simpl; by rewrite <- app_assoc|]. do 2 (split; [done|]).
    destruct Ht as [_ Hl]. split; [done|]. intros c'' Hc''. apply Hl.
    rewrite <- Hc''. change (c :: a ++ c' :: t) with ((c :: a) ++ c' :: t).
    by rewrite last_app_cons.
Qed.

Lemma trim_value_trimmed (v : str) : trimmed (trim_value v).
Proof.
  destruct (trim_split v) as (a & t & b & -> & Ha & Hb & Ht). by rewrite trim_value_frame.
Qed.

(** Trimming, completely: the trimmed value is the part of the value left
    between leading and trailing spaces and tabs, and has none at its ends
    (a value of spaces and tabs only becomes empty). *)
Theorem trim_value_spec (v : str) :
  ∃ a b, v = a ++ trim_value v ++ b ∧
         Forall (λ c, c ∈ hws) a ∧ Forall (λ c, c ∈ hws) b ∧ trimmed (trim_value v).
Proof.
  destruct (trim_split v) as (a & t & b & -> & Ha & Hb & Ht).
  exists a, b. rewrite trim_value_frame by done. done.
Qed.

(** ** The header loop *)

(** What one call does to the response: the entry of the line, if any, is
    inserted; nothing else changes. *)
Lemma parseHeaderLine_spec (line : str) (r : HttpResponse) :
  parseHeaderLine line r =
    match header_entry line with
    | Some (k, v) => set_headers (<[k := v]> (headers r)) r
    | None => r
    end.
Proof.
  unfold parseHeaderLine, header_entry, substr.
  destruct (find_char ":"%char line); [|done]. by rewrite drop_0, Nat.add_1_r.
Qed.

(** C8: Refinement: the map built by the loop answers every lookup as the
    association-list specification does (last write wins), falling back on
    the map it started from. *)
Theorem header_fold_lookup (lines : list str) (r : HttpResponse) (k : str) :
  headers (header_fold lines r) !! k =
    match assoc_last k (omap header_entry lines) with
    | Some v => Some v
    | None => headers r !! k
    end.
Proof.
  unfold header_fold. revert r. induction lines as [|l ls IH]; intros r; [done|].
  cbn [foldl]. rewrite IH, parseHeaderLine_spec.
  change (omap header_entry (l :: ls)) with
    (match header_entry l with
     | Some e => e :: omap header_entry ls
     | None => omap header_entry ls
     end).
  destruct (header_entry l) as [[k' v]|]; [|done]. cbn [assoc_last headers set_headers].
  destruct (assoc_last k (omap header_entry ls)); [done|].
  rewrite lookup_insert. by case_decide; case_decide; subst.
Qed.

(** The loop leaves the other fields alone. *)
Lemma header_fold_frame (lines : list str) (r : HttpResponse) :
  header_fold lines r = set_headers (headers (header_fold lines r)) r.
Proof.
  unfold header_fold. revert r. induction lines as [|l ls IH]; intros r; [by destruct r|].
  simpl. rewrite IH, parseHeaderLine_spec.
  by destruct (header_entry l) as [[k v]|]; [|destruct r].
Qed.

Lemma header_entry_wf (line k v : str) :
  header_entry line = Some (k, v) → lower k = k ∧ trimmed v.
Proof.
  unfold header_entry. destruct (find_char ":"%char line); [|done].
  intros; simplify_eq. split; [apply lower_idem|apply trim_value_trimmed].
Qed.

Lemma headers_wf_entry (line : str) (m : gmap str str) :
  headers_wf m →
  headers_wf (match header_entry line with Some (k, v) => <[k := v]> m | None => m end).
Proof.
  intros Hm. destruct (header_entry line) as [[k v]|] eqn:E; [|done].
  apply map_Forall_insert_2; [|done]. by eapply header_entry_wf.
Qed.

(** Invariant, one step: [parseHeaderLine] keeps every key lower case and
    every value trimmed. *)
Theorem parseHeaderLine_wf (line : str) (r : HttpResponse) :
  headers_wf (headers r) → headers_wf (headers (parseHeaderLine line r)).
Proof.
  intros Hr. rewrite parseHeaderLine_spec.
  pose proof (headers_wf_entry line (headers r) Hr) as H.
  by destruct (header_entry line) as [[k v]|].
Qed.

(** The loop keeps every key lower case and every value trimmed. *)
Lemma header_fold_wf (lines : list str) (r : HttpResponse) :
  headers_wf (headers r) → headers_wf (headers (header_fold lines r)).
Proof.
  unfold header_fold. revert r. induction lines as [|l ls IH]; intros r Hr; [done|].
  simpl. apply IH. rewrite parseHeaderLine_spec.
  pose proof (headers_wf_entry l (headers r) Hr) as H.
  by destruct (header_entry l) as [[k v]|].
Qed.

(** ** Witnesses *)

Lemma parseHeaderLine_wf_witness :
  headers_wf (headers HttpResponse_init) ∧
  headers_wf (headers (parseHeaderLine (‹"Content-Type:  text/html "› ++ [TAB]) HttpResponse_init)).
Proof.
  assert (H : headers_wf (headers HttpResponse_init)) by apply map_Forall_empty.
  exact (conj H (parseHeaderLine_wf _ HttpResponse_init H)).
Defined.
