(* ===== verification/Chunked.v ===== *)
(** * [isChunkedEncoding] and [decodeChunkedBody] (processing.cpp, lines 289-327)

    [isChunkedEncoding] lowers the whole header block and searches it for
    the text "transfer-encoding: chunked".

    [decodeChunkedBody] reads the body line by line ([std::getline] on an
    [istringstream], each line stripped of one trailing '\r'):
    - a size line is extracted with [ss << std::hex << line; ss >> chunkSize];
      a size of 0 (including a failed conversion, which stores 0) ends the
      loop;
    - then [for (i = 0; i < chunkSize && std::getline(stream, line); ++i)]
      appends [chunkSize] further LINES (not bytes), with a newline after
      every line but the one of index [chunkSize - 1];
    - the chunk is appended to the decoded body.
    [size_t chunkSize] has no initialiser: when the size line is blank the
    extraction fails before writing it and the [if (chunkSize == 0)] reads
    an indeterminate value, which is undefined behaviour; the model returns
    [None] there.

    The outer loop consumes at least one line per round; it takes fuel and
    [decode_loop_fuel] shows that the fuel [decodeChunkedBody] passes is
    enough. *)

From S2P Require Import Prelude StdString IStream.

(** [bool isChunkedEncoding(const std::string& headerSection)] *)
Definition isChunkedEncoding (headerSection : str) : bool :=
  bool_decide (is_Some (find_sub ‹"transfer-encoding: chunked"› (lower headerSection))).

(** [ss << std::hex << line; ss >> chunkSize;]: the value [chunkSize] then
    holds, [None] when it was never written. *)
Definition chunk_size (line : str) : option N :=
  match extract_size_hex line with
  | XEof => None
  | XFail v => Some v
  | XOk v _ => Some v
  end.

(** The inner [for] loop: [i] and [chunkSize], the lines left in the
    stream, the [chunkData] read so far; returns the chunk and the lines
    left. *)
Fixpoint chunk_lines (i n : N) (ls : list str) (chunkData : str) : str * list str :=
  if (i <? n)%N then
    match ls with
    | [] => (chunkData, [])
    | l :: ls' =>
        chunk_lines (i + 1)%N n ls'
          (chunkData ++ strip_cr l ++ (if (i <? n - 1)%N then [LF] else []))
    end
  else (chunkData, ls).

(** The outer [while (std::getline(stream, line))] loop. *)
Fixpoint decode_loop (fuel : nat) (ls : list str) (decodedBody : str) : option str :=
  match fuel with
  | O => Some decodedBody
  | S f =>
      match ls with
      | [] => Some decodedBody
      | l :: ls' =>
          match chunk_size (strip_cr l) with
          | None => None
          | Some chunkSize =>
              if (chunkSize =? 0)%N then Some decodedBody
              else
                let '(chunkData, rest) := chunk_lines 0 chunkSize ls' [] in
                decode_loop f rest (decodedBody ++ chunkData)
          end
      end
  end.

(** [std::string decodeChunkedBody(const std::string& chunkedBody)];
    [None]: the call reads the uninitialised [chunkSize]. *)
Definition decodeChunkedBody (chunkedBody : str) : option str :=
  let ls := getlines chunkedBody in
  decode_loop (S (length ls)) ls [].

(** ** The framing the decoder implements

    A chunk is a non-empty list of lines; it is sent as its number of
    lines in hexadecimal, then its lines, each line ending in CRLF; a
    line "0" and an empty line end the body. *)
Definition encode_chunk (chunk : list str) : str :=
  show_N 16 (N.of_nat (length chunk)) ++ [CR; LF] ++ mjoin (map (λ l, l ++ [CR; LF]) chunk).

Definition encode_chunks (chunks : list (list str)) : str :=
  mjoin (map encode_chunk chunks) ++ ‹"0"› ++ [CR; LF; CR; LF].

(** The lines of a chunk, joined with a newline. *)
Definition join_lines (chunk : list str) : str :=
  match chunk with
  | [] => []
  | l :: ls => l ++ mjoin (map (λ l, LF :: l) ls)
  end.

(** A line of chunk data: no '\n' inside. *)
Definition data_line (l : str) : Prop := LF ∉ l.

(** A chunk the framing can carry: non-empty, of data lines, with a line
    count that fits a [size_t]. *)
Definition chunk_ok (c : list str) : Prop :=
  c ≠ [] ∧ Forall data_line c ∧ (N.of_nat (length c) <= SIZE_MAX)%N.

#[export] Instance chunk_ok_dec (c : list str) : Decision (chunk_ok c).
Proof. unfold chunk_ok, data_line. apply _. Defined.

(** The lines of encoded chunks, before their CRLF. *)
Definition chunk_prefix (chunks : list (list str)) : list str :=
  mjoin (map (λ c, show_N 16 (N.of_nat (length c)) :: c) chunks).

(** The standard framing of RFC 9112: sizes count bytes, data is followed by
    CRLF. *)
Definition encode_chunk_bytes (data : str) : str :=
  show_N 16 (N.of_nat (length data)) ++ [CR; LF] ++ data ++ [CR; LF].

(** ** Lemmas *)

Lemma chunk_lines_rest (i n : N) (ls : list str) (d d' : str) (rest : list str) :
  chunk_lines i n ls d = (d', rest) → (length rest <= length ls)%nat.
Proof.
  revert i d. induction ls as [|l ls IH]; intros i d; simpl.
  - destruct (i <? n)%N; intros; simplify_eq/=; lia.
  - destruct (i <? n)%N; [|intros; simplify_eq/=; lia].
    intros H. apply IH in H. lia.
Qed.

(** Termination of the outer loop: each round consumes at least the size
    line, so any fuel above the number of lines gives the same result. *)
Theorem decode_loop_fuel (n m : nat) (ls : list str) (d : str) :
  (length ls < n)%nat → (length ls < m)%nat → decode_loop n ls d = decode_loop m ls d.
Proof.
  revert m ls d. induction n as [|n IH]; intros m ls d Hn Hm; [lia|].
  destruct m as [|m]; [lia|]. destruct ls as [|l ls]; [done|]. simpl.
  destruct (chunk_size (strip_cr l)) as [k|]; [|done].
  destruct (k =? 0)%N; [done|].
  destruct (chunk_lines 0 k ls []) as [data rest] eqn:E.
  apply chunk_lines_rest in E. simpl in Hn, Hm. apply IH; lia.
Qed.

Lemma chunk_lines_stop (i n : N) (ls : list str) (d : str) :
  (n <= i)%N → chunk_lines i n ls d = (d, ls).
Proof. intros H. destruct ls; simpl; destruct (N.ltb_spec i n); done || lia. Qed.

Lemma chunk_lines_step (i n : N) (l : str) (ls : list str) (d : str) :
  (i < n)%N →
  chunk_lines i n (l :: ls) d =
    chunk_lines (i + 1) n ls (d ++ strip_cr l ++ (if (i <? n - 1)%N then [LF] else [])).
Proof. intros H. simpl. by destruct (N.ltb_spec i n); [|lia]. Qed.

(** One chunk of the code's framing: [length c] lines, each followed by the
    '\r' that [strip_cr] removes, read from index [i] on. *)
Lemma chunk_lines_chunk (c : list str) (rest : list str) (i : nat) (d : str) :
  c ≠ [] →
  chunk_lines (N.of_nat i) (N.of_nat (i + length c)) (map (λ l, l ++ [CR]) c ++ rest) d =
    (d ++ join_lines c, rest).
Proof.
  revert i d. induction c as [|l c IH]; intros i d Hc; [done|].
  rewrite map_cons, <- app_comm_cons, chunk_lines_step by (simpl; lia).
  rewrite strip_cr_snoc. destruct c as [|l' c].
  - rewrite chunk_lines_stop by (simpl; lia).
    rewrite (proj2 (N.ltb_ge _ _)) by (simpl; lia). simpl. by rewrite !app_nil_r.
  - rewrite (proj2 (N.ltb_lt _ _)) by (simpl; lia).
    replace (N.of_nat i + 1)%N with (N.of_nat (S i)) by lia.
    replace (i + length (l :: l' :: c))%nat with (S i + length (l' :: c))%nat by (simpl; lia).
    rewrite IH by done. f_equal. simpl. by rewrite <- !app_assoc.
Qed.

Lemma decode_loop_cons (f : nat) (l : str) (ls : list str) (d : str) :
  decode_loop (S f) (l :: ls) d =
    match chunk_size (strip_cr l) with
    | None => None
    | Some k =>
        if (k =? 0)%N then Some d
        else let '(data, rest) := chunk_lines 0 k ls [] in decode_loop f rest (d ++ data)
    end.
Proof. reflexivity. Qed.

Lemma show_N_no_LF (n : N) : LF ∉ show_N 16 n.
Proof.
  intros Hin. pose proof (show_N_nospace 16 n ltac:(lia)) as H.
  rewrite Forall_forall in H. by apply H in Hin.
Qed.

Lemma chunk_size_show (k : N) : (k <= SIZE_MAX)%N → chunk_size (show_N 16 k) = Some k.
Proof.
  intros Hk. unfold chunk_size.
  pose proof (extract_size_hex_show [] [] k (List.Forall_nil _) Hk I) as H.
  rewrite app_nil_l, app_nil_r in H. by rewrite H.
Qed.

Lemma getlines_crlf_app (ls : list str) (s : str) :
  Forall (λ l, LF ∉ l) ls →
  getlines (mjoin (map (λ l, l ++ [CR; LF]) ls) ++ s) = map (λ l, l ++ [CR]) ls ++ getlines s.
Proof.
  induction 1 as [|l ls Hl _ IH]; [done|]. simpl.
  replace (((l ++ [CR; LF]) ++ mjoin (map (λ l, l ++ [CR; LF]) ls)) ++ s)
    with ((l ++ [CR]) ++ LF :: mjoin (map (λ l, l ++ [CR; LF]) ls) ++ s)
    by (by rewrite <- !app_assoc).
  rewrite getlines_line, IH; [done|].
  assert (LF ≠ CR) by done. set_solver.
Qed.

Lemma encode_prefix_lines (chunks : list (list str)) :
  mjoin (map encode_chunk chunks) = mjoin (map (λ l, l ++ [CR; LF]) (chunk_prefix chunks)).
Proof.
  induction chunks as [|c cs IH]; [done|]. unfold chunk_prefix in *. simpl.
  rewrite map_app, join_app, IH. unfold encode_chunk. simpl. by rewrite <- !app_assoc.
Qed.

Lemma chunk_prefix_no_LF (chunks : list (list str)) :
  Forall chunk_ok chunks → Forall (λ l, LF ∉ l) (chunk_prefix chunks).
Proof.
  induction 1 as [|c cs (_ & Hdl & _) _ IH]; [constructor|]. unfold chunk_prefix in *. simpl.
  constructor; [apply show_N_no_LF|]. by apply Forall_app_2.
Qed.

Lemma getlines_encoded (chunks : list (list str)) (s : str) :
  Forall chunk_ok chunks →
  getlines (mjoin (map encode_chunk chunks) ++ s) =
    map (λ l, l ++ [CR]) (chunk_prefix chunks) ++ getlines s.
Proof.
  intros H. rewrite encode_prefix_lines, getlines_crlf_app; [done|].
  by apply chunk_prefix_no_LF.
Qed.

(** The decoder reads chunks of the code's framing one after the other,
    whatever follows them. *)
Lemma decode_loop_prefix (f : nat) (chunks : list (list str)) (tail : list str) (d : str) :
  Forall chunk_ok chunks →
  decode_loop (length chunks + f) (map (λ l, l ++ [CR]) (chunk_prefix chunks) ++ tail) d =
    decode_loop f tail (d ++ mjoin (map join_lines chunks)).
Proof.
  revert d. induction chunks as [|c cs IH]; intros d Hall.
  { by rewrite app_nil_r. }
  apply Forall_cons in Hall as [(Hne & Hdl & Hsz) Hall].
  assert (Hp : map (λ l, l ++ [CR]) (chunk_prefix (c :: cs)) ++ tail =
    (show_N 16 (N.of_nat (length c)) ++ [CR]) ::
      map (λ l, l ++ [CR]) c ++ (map (λ l, l ++ [CR]) (chunk_prefix cs) ++ tail)).
  { unfold chunk_prefix. simpl. by rewrite map_app, <- app_assoc. }
  rewrite Hp. change (length (c :: cs) + f)%nat with (S (length cs + f)).
  rewrite decode_loop_cons.
  rewrite strip_cr_snoc, chunk_size_show by done.
  destruct (N.eqb_spec (N.of_nat (length c)) 0) as [Hz|_].
  { destruct c; [done|simpl in Hz; lia]. }
  rewrite (chunk_lines_chunk c _ 0 []) by done. simpl.
  rewrite IH by done. by rewrite app_assoc.
Qed.

(** C2: Round trip of the framing the code implements: a body sent as chunks of
    lines, each chunk preceded by its number of lines in hexadecimal and
    the whole ended by a zero chunk, decodes to the lines of each chunk
    joined by a newline, the chunks concatenated with no separator. *)
Theorem decode_encode_chunks (chunks : list (list str)) :
  Forall chunk_ok chunks →
  decodeChunkedBody (encode_chunks chunks) = Some (mjoin (map join_lines chunks)).
Proof.
  intros Hall. unfold decodeChunkedBody, encode_chunks.
  rewrite getlines_encoded by done.
  match goal with |- decode_loop (S ?k) _ _ = _ =>
    rewrite (decode_loop_fuel _ (length chunks + S k)) by lia end.
  rewrite decode_loop_prefix by done. reflexivity.
Qed.

(** ** Behaviour on other inputs *)

Lemma strip_cr_spaces (l : str) :
  Forall (λ c, c_isspace c = true) l → Forall (λ c, c_isspace c = true) (strip_cr l).
Proof.
  intros Hl. unfold strip_cr. destruct (last l) as [c|] eqn:E; [|done].
  case_decide; [|done]. apply last_Some in E as [l' ->].
  rewrite removelast_app_single. by apply Forall_app in Hl as [? _].
Qed.

Lemma chunk_size_blank (l : str) :
  Forall (λ c, c_isspace c = true) l → chunk_size (strip_cr l) = None.
Proof.
  intros Hl. unfold chunk_size, extract_size_hex.
  rewrite <- (app_nil_r (strip_cr l)), skip_ws_app; [done|]. by apply strip_cr_spaces.
Qed.

(** C23: Undefined behaviour: when a size line is blank (empty, or white space
    only, e.g. the CRLF that ends the data of a chunk), [ss >> chunkSize]
    fails in its sentry and the indeterminate [chunkSize] is read. *)
Theorem decode_blank_size_line (chunks : list (list str)) (l rest : str) :
  Forall chunk_ok chunks → Forall (λ c, c_isspace c = true) l → LF ∉ l →
  decodeChunkedBody (mjoin (map encode_chunk chunks) ++ l ++ LF :: rest) = None.
Proof.
  intros Hall Hl Hlf. unfold decodeChunkedBody.
  rewrite getlines_encoded, getlines_line by done.
  match goal with |- decode_loop (S ?k) _ _ = _ =>
    rewrite (decode_loop_fuel _ (length chunks + S k)) by lia end.
  rewrite decode_loop_prefix, decode_loop_cons by done.
  by rewrite chunk_size_blank.
Qed.

(** C24: No error for a malformed size: when the size line is not a number
    ([num_get] fails and stores 0), decoding stops silently and the body is
    what was decoded before it, whatever follows. *)
Theorem decode_malformed_size (chunks : list (list str)) (l rest : str) :
  Forall chunk_ok chunks → extract_size_hex (strip_cr l) = XFail 0%N → LF ∉ l →
  decodeChunkedBody (mjoin (map encode_chunk chunks) ++ l ++ LF :: rest) =
    Some (mjoin (map join_lines chunks)).
Proof.
  intros Hall Hl Hlf. unfold decodeChunkedBody.
  rewrite getlines_encoded, getlines_line by done.
  match goal with |- decode_loop (S ?k) _ _ = _ =>
    rewrite (decode_loop_fuel _ (length chunks + S k)) by lia end.
  rewrite decode_loop_prefix, decode_loop_cons by done.
  unfold chunk_size. by rewrite Hl.
Qed.

(** ** Detection of the chunked encoding *)

(** The header block is recognised as chunked exactly when its lowered
    text contains "transfer-encoding: chunked" anywhere. *)
Lemma isChunkedEncoding_occurs (h : str) :
  isChunkedEncoding h = true ↔ occurs ‹"transfer-encoding: chunked"› (lower h).
Proof. unfold isChunkedEncoding. rewrite bool_decide_eq_true. apply find_sub_occurs. Qed.

(** Any spelling of the header line in any case is detected. *)
Theorem isChunkedEncoding_any_case (a k b : str) :
  lower k = ‹"transfer-encoding: chunked"› → isChunkedEncoding (a ++ k ++ b) = true.
Proof.
  intros Hk. apply isChunkedEncoding_occurs. rewrite !lower_app, Hk.
  by exists (lower a), (lower b).
Qed.

Lemma chunk_lines_nil (i n : N) (d : str) : chunk_lines i n [] d = (d, []).
Proof. simpl. by destruct (i <? n)%N. Qed.

(** C3: The standard framing, where the size counts bytes, decoded by the code,
    for one chunk of data [d] without '\n': only chunks of 0 or 1 byte come
    out right; 2 bytes reach the blank line as a size line (undefined
    behaviour); 3 bytes or more swallow the terminating chunk into the
    body. *)
Theorem decode_bytes_single (d : str) :
  LF ∉ d → (N.of_nat (length d) <= SIZE_MAX)%N →
  decodeChunkedBody (encode_chunk_bytes d ++ ‹"0"› ++ [CR; LF; CR; LF]) =
    match length d with
    | 0 => Some []
    | 1 => Some d
    | 2 => None
    | 3 => Some (d ++ [LF] ++ ‹"0"› ++ [LF])
    | _ => Some (d ++ [LF] ++ ‹"0"› ++ [LF; LF])
    end.
Proof.
  intros Hd Hsz. unfold decodeChunkedBody.
  assert (Hl : getlines (encode_chunk_bytes d ++ ‹"0"› ++ [CR; LF; CR; LF]) =
    map (λ l, l ++ [CR]) [show_N 16 (N.of_nat (length d)); d; ‹"0"›; []]).
  { replace (encode_chunk_bytes d ++ ‹"0"› ++ [CR; LF; CR; LF]) with
      (mjoin (map (λ l, l ++ [CR; LF]) [show_N 16 (N.of_nat (length d)); d; ‹"0"›; []]) ++ [])
      by (unfold encode_chunk_bytes; simpl; rewrite ?app_nil_r, <- !app_assoc; simpl;
          rewrite <- !app_assoc; reflexivity).
    rewrite getlines_crlf_app; [by rewrite app_nil_r|].
    repeat constructor; try apply show_N_no_LF; try done;
      rewrite list_elem_of_In; simpl; intuition discriminate. }
  rewrite Hl. cbn [map length]. rewrite decode_loop_cons, strip_cr_snoc, chunk_size_show by done.
  destruct d as [|c1 [|c2 [|c3 [|c4 d']]]]; [reflexivity..|].
  set (n := N.of_nat (length (c1 :: c2 :: c3 :: c4 :: d'))).
  assert (Hn : (4 <= n)%N) by (subst n; simpl length; lia).
  rewrite (proj2 (N.eqb_neq n 0)) by lia.
  rewrite chunk_lines_step, strip_cr_snoc, (proj2 (N.ltb_lt 0 (n - 1))) by lia.
  rewrite chunk_lines_step, strip_cr_snoc, (proj2 (N.ltb_lt (0 + 1) (n - 1))) by lia.
  rewrite chunk_lines_step, strip_cr_snoc, (proj2 (N.ltb_lt (0 + 1 + 1) (n - 1))) by lia.
  rewrite chunk_lines_nil. simpl. by rewrite <- !app_assoc.
Qed.

(** ** Witnesses *)

Lemma decode_encode_chunks_witness :
  Forall chunk_ok [[‹"ab"›; ‹"cd"›]; [‹"x"›]] ∧
  decodeChunkedBody (encode_chunks [[‹"ab"›; ‹"cd"›]; [‹"x"›]]) =
    Some (mjoin (map join_lines [[‹"ab"›; ‹"cd"›]; [‹"x"›]])).
Proof.
  assert (H : Forall chunk_ok [[‹"ab"›; ‹"cd"›]; [‹"x"›]]) by decide_concrete.
  exact (conj H (decode_encode_chunks _ H)).
Defined.

Lemma decode_bytes_single_witness :
  LF ∉ ‹"hello"› ∧ (N.of_nat (length ‹"hello"›) <= SIZE_MAX)%N ∧
  decodeChunkedBody (encode_chunk_bytes ‹"hello"› ++ ‹"0"› ++ [CR; LF; CR; LF]) =
    Some (‹"hello"› ++ [LF] ++ ‹"0"› ++ [LF; LF]).
Proof.
  assert (H1 : LF ∉ ‹"hello"›) by decide_concrete.
  assert (H2 : (N.of_nat (length ‹"hello"›) <= SIZE_MAX)%N) by decide_concrete.
  exact (conj H1 (conj H2 (decode_bytes_single ‹"hello"› H1 H2))).
Defined.

(** The standard encoding of a one-byte chunk, "1\r\na\r\n", followed by
    the blank line of its data's CRLF read as a size line. *)
Lemma decode_blank_size_line_witness :
  Forall chunk_ok [[‹"a"›]] ∧ Forall (λ c, c_isspace c = true) [CR] ∧ LF ∉ [CR] ∧
  decodeChunkedBody (mjoin (map encode_chunk [[‹"a"›]]) ++ [CR] ++ LF :: ‹"0"› ++ [CR; LF; CR; LF])
    = None.
Proof.
  assert (H1 : Forall chunk_ok [[‹"a"›]]) by decide_concrete.
  assert (H2 : Forall (λ c, c_isspace c = true) [CR]) by decide_concrete.
  assert (H3 : LF ∉ [CR]) by decide_concrete.
  exact (conj H1 (conj H2 (conj H3 (decode_blank_size_line _ _ _ H1 H2 H3)))).
Defined.

Lemma decode_malformed_size_witness :
  Forall chunk_ok [[‹"a"›]] ∧ extract_size_hex (strip_cr (‹"zz"› ++ [CR])) = XFail 0%N ∧
  LF ∉ ‹"zz"› ++ [CR] ∧
  decodeChunkedBody (mjoin (map encode_chunk [[‹"a"›]]) ++ (‹"zz"› ++ [CR]) ++ LF :: ‹"b"›) =
    Some (mjoin (map join_lines [[‹"a"›]])).
Proof.
  assert (H1 : Forall chunk_ok [[‹"a"›]]) by decide_concrete.
  assert (H2 : extract_size_hex (strip_cr (‹"zz"› ++ [CR])) = XFail 0%N)
    by (vm_compute; reflexivity).
  assert (H3 : LF ∉ ‹"zz"› ++ [CR]) by decide_concrete.
  exact (conj H1 (conj H2 (conj H3 (decode_malformed_size _ _ _ H1 H2 H3)))).
Defined.

Lemma isChunkedEncoding_any_case_witness :
  lower ‹"Transfer-Encoding: Chunked"› = ‹"transfer-encoding: chunked"› ∧
  isChunkedEncoding (‹"HTTP/1.1 200 OK"› ++ [CR; LF] ++ ‹"Transfer-Encoding: Chunked"› ++ []) =
    true.
Proof.
  assert (H : lower ‹"Transfer-Encoding: Chunked"› = ‹"transfer-encoding: chunked"›)
    by (vm_compute; reflexivity).
  refine (conj H _).
  rewrite app_assoc. exact (isChunkedEncoding_any_case _ _ [] H).
Defined.

