(* ===== verification/Parse.v ===== *)
(** * [SimpleHttpClient::parseHttpResponse] (processing.cpp, lines 96-140)

    The pipeline as the code composes it: the empty-input check, the search
    for the first "\r\n\r\n", the split into header section and body, the
    chunked decoding of the body (before any header is parsed), then the
    [getline] loop over the header section, whose first line goes to
    [parseStatusLine] (a failure returns at once) and the others to
    [parseHeaderLine]; reaching the end of the loop sets [isSuccess].

    The result is in the option monad: [None] is the undefined behaviour of
    [decodeChunkedBody] (see [Chunked]). *)

From S2P Require Import Prelude StdString IStream Message StatusLine Headers Chunked.

(** [while (std::getline(headerStream, line)) { ... }] with [isFirstLine],
    followed by [response.isSuccess = true]. *)
Fixpoint header_block_loop (lines : list str) (isFirstLine : bool) (r : HttpResponse)
    : HttpResponse :=
  match lines with
  | [] => set_isSuccess true r
  | l :: ls =>
      let line := strip_cr l in
      if isFirstLine then
        let '(ok, r') := parseStatusLine line r in
        if ok then header_block_loop ls false r' else r'
      else header_block_loop ls false (parseHeaderLine line r)
  end.

Definition CRLFCRLF : str := [CR; LF; CR; LF].

(** [HttpResponse parseHttpResponse(const std::string& rawResponse)] *)
Definition parseHttpResponse (rawResponse : str) : option HttpResponse :=
  let response := set_isSuccess false HttpResponse_init in
  if decide (rawResponse = []) then Some (set_errorMessage msg_empty response)
  else
    match find_sub CRLFCRLF rawResponse with
    | None => Some (set_errorMessage msg_no_separator response)
    | Some headerEndPos =>
        let headerSection := substr 0 headerEndPos rawResponse in
        let body0 := drop (headerEndPos + 4) rawResponse in
        b ← (if isChunkedEncoding headerSection then decodeChunkedBody body0 else Some body0);
        Some (header_block_loop (getlines headerSection) true (set_body b response))
    end.

(** ** A response as a server writes it *)

(** "Key: value" *)
Definition render_header (h : str * str) : str := h.1 ++ ‹": "› ++ h.2.

(** Lines joined with CRLF, with none after the last. *)
Definition join_crlf (ls : list str) : str :=
  match ls with
  | [] => []
  | l :: ls' => l ++ mjoin (map (λ l, CR :: LF :: l) ls')
  end.

(** The header section: the status line and the header lines. *)
Definition render_head (ver : str) (code : Z) (words : list str) (hs : list (str * str)) : str :=
  join_crlf (render_status_line ver code words :: map render_header hs).

Definition render_response (ver : str) (code : Z) (words : list str)
    (hs : list (str * str)) (b : str) : str :=
  render_head ver code words hs ++ CRLFCRLF ++ b.

(** A header the server can send: the key has no colon, neither part has a
    CR or LF, the value has no outer spaces or tabs. *)
Definition header_ok (h : str * str) : Prop :=
  ":"%char ∉ h.1 ∧ CR ∉ h.1 ∧ LF ∉ h.1 ∧ trimmed h.2 ∧ CR ∉ h.2 ∧ LF ∉ h.2.

#[export] Instance header_ok_dec (h : str * str) : Decision (header_ok h).
Proof. unfold header_ok. apply _. Defined.

(** The header map the specification asks for: keys lowered, the last
    value of a key wins. *)
Definition spec_headers (hs : list (str * str)) : gmap str str :=
  foldl (λ m h, <[lower h.1 := h.2]> m) ∅ hs.

(** ** Lemmas *)

Lemma join_crlf_cons2 (l l' : str) (ls : list str) :
  join_crlf (l :: l' :: ls) = l ++ CR :: LF :: join_crlf (l' :: ls).
Proof. done. Qed.

Lemma join_crlf_single (l : str) : join_crlf [l] = l.
Proof. apply app_nil_r. Qed.

Lemma find_sub_crlf (c : ascii) (s : str) :
  c ≠ CR →
  find_sub [CR; LF; CR; LF] (CR :: LF :: c :: s) =
    (λ i, 2 + i)%nat <$> find_sub [CR; LF; CR; LF] (c :: s).
Proof.
  intros Hc. rewrite find_sub_unfold, bool_decide_false by (intros [? ?]; simplify_eq/=).
  rewrite find_sub_unfold, bool_decide_false by (intros [? ?]; simplify_eq/=).
  by destruct (find_sub [CR; LF; CR; LF] (c :: s)).
Qed.

(** A header section of non-empty lines without CR or LF: its first
    "\r\n\r\n" is the one after it. *)
Lemma find_sub_head (ls : list str) (b : str) :
  ls ≠ [] → Forall (λ l, l ≠ [] ∧ Forall line_char l) ls →
  find_sub CRLFCRLF (join_crlf ls ++ CRLFCRLF ++ b) = Some (length (join_crlf ls)).
Proof.
  intros Hne Hall. unfold CRLFCRLF. induction Hall as [|l ls [Hl Hlc] Hall IH]; [done|].
  destruct (line_chars_notin l Hlc) as [Hcr _].
  destruct ls as [|l' ls].
  - rewrite join_crlf_single, find_sub_skip, find_sub_here by done. simpl. by rewrite Nat.add_0_r.
  - rewrite join_crlf_cons2, <- app_assoc, find_sub_skip by done.
    destruct (Forall_cons_1 _ _ _ Hall) as [[Hl' Hlc'] _].
    destruct l' as [|c' l']; [done|]. apply Forall_cons in Hlc' as [[Hc' _] _].
    change ((CR :: LF :: join_crlf ((c' :: l') :: ls)) ++ [CR; LF; CR; LF] ++ b) with
      (CR :: LF :: c' :: ((l' ++ mjoin (map (λ l, CR :: LF :: l) ls)) ++ [CR; LF; CR; LF] ++ b)).
    rewrite find_sub_crlf by done.
    change (c' :: (l' ++ mjoin (map (λ l, CR :: LF :: l) ls)) ++ [CR; LF; CR; LF] ++ b) with
      (join_crlf ((c' :: l') :: ls) ++ [CR; LF; CR; LF] ++ b).
    rewrite IH by done. rewrite length_app. set (J := join_crlf _). simpl. done.
Qed.

(** The lines [getline] reads from such a section are its lines, each but
    the last still carrying the CR that the loop strips. *)
Lemma getlines_join_crlf (ls : list str) :
  Forall (λ l, l ≠ [] ∧ Forall line_char l) ls →
  map strip_cr (getlines (join_crlf ls)) = ls.
Proof.
  induction 1 as [|l ls [Hl Hlc] Hall IH]; [done|].
  destruct (line_chars_notin l Hlc) as [Hcr Hlf].
  destruct ls as [|l' ls].
  - simpl. rewrite app_nil_r, getlines_last by done. simpl. f_equal.
    apply strip_cr_id. intros Hlast. apply last_Some in Hlast as [? ->]. set_solver.
  - rewrite join_crlf_cons2, app_cons_app, getlines_line by set_solver.
    simpl. rewrite strip_cr_snoc. by f_equal.
Qed.

(** After the status line, the loop is the header fold over the stripped
    lines, then [isSuccess = true]. *)
Lemma header_block_loop_rest (ls : list str) (r : HttpResponse) :
  header_block_loop ls false r = set_isSuccess true (header_fold (map strip_cr ls) r).
Proof.
  revert r. induction ls as [|l ls IH]; intros r; [done|]. simpl. by rewrite IH.
Qed.

Lemma header_entry_render (h : str * str) :
  header_ok h → header_entry (render_header h) = Some (lower h.1, h.2).
Proof.
  destruct h as [k v]. intros (Hk & _ & _ & Hv & _). unfold header_entry, render_header. simpl.
  rewrite find_char_app by done. rewrite take_app_length.
  replace (drop (S (length k)) (k ++ ":"%char :: " "%char :: v)) with ([SP] ++ v ++ [])
    by (rewrite app_nil_r, app_cons_app, drop_app_length'; [done|rewrite length_app; simpl; lia]).
  rewrite trim_value_frame; [done|by repeat constructor|constructor|done].
Qed.

Lemma header_fold_render (hs : list (str * str)) (r : HttpResponse) :
  Forall header_ok hs →
  header_fold (map render_header hs) r =
    set_headers (foldl (λ m h, <[lower h.1 := h.2]> m) (headers r) hs) r.
Proof.
  unfold header_fold. intros Hall. revert r.
  induction Hall as [|h hs Hh _ IH]; intros r; [by destruct r|].
  simpl. rewrite IH, parseHeaderLine_spec, header_entry_render by done. done.
Qed.

Lemma render_status_line_chars (ver : str) (code : Z) (words : list str) :
  token ver → Forall token words →
  render_status_line ver code words ≠ [] ∧ Forall line_char (render_status_line ver code words).
Proof.
  intros [Hv Hvs] Hws. split; [by destruct ver|]. unfold render_status_line.
  assert (Hsp : line_char SP) by done.
  repeat apply Forall_app_2.
  - eapply Forall_impl; [done|]. apply nospace_line_char.
  - by constructor.
  - eapply Forall_impl; [apply show_Z_nospace|]. apply nospace_line_char.
  - induction Hws as [|w ws [_ Hw] _ IH]; simpl; [done|]. constructor; [done|].
    apply Forall_app_2; [|done]. eapply Forall_impl; [done|]. apply nospace_line_char.
Qed.

Lemma render_header_chars (h : str * str) :
  header_ok h → render_header h ≠ [] ∧ Forall line_char (render_header h).
Proof.
  destruct h as [k v]. intros (_ & Hk1 & Hk2 & _ & Hv1 & Hv2). unfold render_header. simpl.
  split; [by destruct k|].
  assert (∀ s : str, CR ∉ s → LF ∉ s → Forall line_char s) as Hlc.
  { intros s H1 H2. apply Forall_forall. intros c Hc. split; intros ->; done. }
  apply Forall_app_2; [by apply Hlc|]. constructor; [done|]. constructor; [done|]. by apply Hlc.
Qed.

Lemma render_head_lines (ver : str) (code : Z) (words : list str) (hs : list (str * str)) :
  token ver → Forall token words → Forall header_ok hs →
  Forall (λ l, l ≠ [] ∧ Forall line_char l)
    (render_status_line ver code words :: map render_header hs).
Proof.
  intros Hv Hws Hhs. constructor; [by apply render_status_line_chars|].
  apply Forall_map. eapply Forall_impl; [done|]. intros h Hh. by apply render_header_chars.
Qed.

(** The header loop over a rendered header section. *)
Lemma header_block_loop_render (ver : str) (code : Z) (words : list str)
    (hs : list (str * str)) (r : HttpResponse) :
  token ver → (INT_MIN <= code <= INT_MAX)%Z → Forall token words → Forall header_ok hs →
  header_block_loop (getlines (render_head ver code words hs)) true r =
    mkHttpResponse ver code (join_words words)
      (foldl (λ m h, <[lower h.1 := h.2]> m) (headers r) hs) (body r) true (errorMessage r).
Proof.
  intros Hv Hc Hws Hhs.
  pose proof (getlines_join_crlf _ (render_head_lines ver code words hs Hv Hws Hhs)) as Hl.
  unfold render_head. destruct (getlines _) as [|l0 ls]; [done|].
  simpl in Hl. injection Hl as H0 Hls. simpl. rewrite H0, parseStatusLine_render by done.
  rewrite header_block_loop_rest, Hls, header_fold_render by done. by destruct r.
Qed.

(** C1: Round trip of the pipeline: a response written as a status line,
    header lines and a body after the blank line parses to its version,
    code, reason phrase, the header map of the specification (lowered keys,
    last value wins) and its body, decoded when the header section announces
    the chunked encoding; [isSuccess] is set and no error is recorded. *)
Theorem parse_render (ver : str) (code : Z) (words : list str)
    (hs : list (str * str)) (b : str) :
  token ver → (INT_MIN <= code <= INT_MAX)%Z → Forall token words → Forall header_ok hs →
  parseHttpResponse (render_response ver code words hs b) =
    (λ b', mkHttpResponse ver code (join_words words) (spec_headers hs) b' true []) <$>
      (if isChunkedEncoding (render_head ver code words hs) then decodeChunkedBody b
       else Some b).
Proof.
  intros Hv Hc Hws Hhs. unfold parseHttpResponse, render_response.
  rewrite decide_False.
  2: { intros Hx. apply app_eq_nil in Hx as [_ Hx]. apply app_eq_nil in Hx as [Hx _].
       discriminate. }
  rewrite (find_sub_head (render_status_line ver code words :: map render_header hs));
    [|done|by apply render_head_lines].
  unfold substr.
  rewrite drop_0, take_app_length, drop_app_add.
  change (drop 4 (CRLFCRLF ++ b)) with b.
  destruct (isChunkedEncoding _); [destruct (decodeChunkedBody b) as [b'|]|];
    simpl; [|done|]; by rewrite header_block_loop_render.
Qed.

(** ** Error paths and invariants *)

Lemma header_block_loop_first (ls : list str) (r : HttpResponse) :
  header_block_loop ls true r =
    match ls with
    | [] => set_isSuccess true r
    | l :: ls' =>
        let '(ok, r') := parseStatusLine (strip_cr l) r in
        if ok then set_isSuccess true (header_fold (map strip_cr ls') r') else r'
    end.
Proof.
  destruct ls as [|l ls]; [done|]. simpl.
  destruct (parseStatusLine (strip_cr l) r) as [[] r']; [|done].
  apply header_block_loop_rest.
Qed.

Lemma getlines_nil (s : str) : getlines s = [] → s = [].
Proof.
  destruct s as [|c s]; [done|]. simpl. case_decide; [done|]. by destruct (getlines s).
Qed.

Lemma find_sub_zero (pat s : str) : find_sub pat s = Some 0 → pat `prefix_of` s.
Proof.
  rewrite find_sub_unfold. case_bool_decide; [done|].
  destruct s; [done|]. by destruct (find_sub pat s).
Qed.

(** The shape of every result: what the code does after the separator is
    found, the chunked decoding of the body having succeeded. *)
Lemma parse_cases (raw : str) (r : HttpResponse) :
  parseHttpResponse raw = Some r →
  (raw = [] ∧ r = set_errorMessage msg_empty (set_isSuccess false HttpResponse_init)) ∨
  (find_sub CRLFCRLF raw = None ∧
     r = set_errorMessage msg_no_separator (set_isSuccess false HttpResponse_init)) ∨
  (∃ pos b, find_sub CRLFCRLF raw = Some pos ∧
     r = header_block_loop (getlines (take pos raw)) true
           (set_body b (set_isSuccess false HttpResponse_init))).
Proof.
  unfold parseHttpResponse. case_decide; [intros; simplify_eq; by left|].
  destruct (find_sub CRLFCRLF raw) as [pos|] eqn:E; [|intros; simplify_eq; by right; left].
  unfold substr. rewrite drop_0. intros Hr. right; right.
  destruct (isChunkedEncoding _); [destruct (decodeChunkedBody _) as [b|]|];
    simplify_eq/=; eauto.
Qed.

(** C6: When [parseHttpResponse] reports a failure, the error is one of its
    three texts and no header was stored: a bad status line stops the
    parse before any header line. *)
Theorem parse_failure (raw : str) (r : HttpResponse) :
  parseHttpResponse raw = Some r → isSuccess r = false →
  headers r = ∅ ∧ errorMessage r ∈ [msg_empty; msg_no_separator; msg_status_line].
Proof.
  intros H Hs. destruct (parse_cases raw r H) as [[_ ->]|[[_ ->]|(pos & b & _ & ->)]];
    [split; [done|set_solver]..|].
  revert Hs. rewrite header_block_loop_first.
  destruct (getlines _) as [|l ls]; [done|].
  destruct (parseStatusLine (strip_cr l) _) as [[] r'] eqn:E; [done|].
  intros _. apply parseStatusLine_false in E as (-> & -> & _). set_solver.
Qed.

(** C7: Without a header/body separator the response is the error
    "Invalid HTTP response format - no header separator found". *)
Theorem parse_no_separator (raw : str) :
  raw ≠ [] → ¬ occurs CRLFCRLF raw →
  parseHttpResponse raw =
    Some (set_errorMessage msg_no_separator (set_isSuccess false HttpResponse_init)).
Proof.
  intros Hne Hno. unfold parseHttpResponse. rewrite decide_False by done.
  destruct (find_sub CRLFCRLF raw) eqn:E; [|done].
  destruct Hno. apply find_sub_occurs. by rewrite E.
Qed.

(** C4: An empty header section is a success: the response starting with
    "\r\n\r\n" has [isSuccess] set with an empty version and status 0,
    though no status line was parsed. *)
Theorem parse_empty_head (b : str) :
  parseHttpResponse (CRLFCRLF ++ b) = Some (mkHttpResponse [] 0 [] ∅ b true []).
Proof.
  unfold parseHttpResponse. rewrite decide_False by done.
  rewrite find_sub_here. reflexivity.
Qed.

(** C5: A successful parse read a status line with a version token and an
    [int] status code, except for the empty header section. *)
Theorem parse_success_status (raw : str) (r : HttpResponse) :
  parseHttpResponse raw = Some r → isSuccess r = true →
  (token (httpVersion r) ∧ (INT_MIN <= statusCode r <= INT_MAX)%Z) ∨
  (CRLFCRLF `prefix_of` raw ∧ httpVersion r = [] ∧ statusCode r = 0%Z).
Proof.
  intros H Hs. destruct (parse_cases raw r H) as [[_ ->]|[[_ ->]|(pos & b & E & ->)]];
    [done|done|].
  revert Hs. rewrite header_block_loop_first.
  destruct (getlines (take pos raw)) as [|l ls] eqn:Hl.
  - intros _. right. apply getlines_nil in Hl.
    destruct pos as [|pos]; [split; [by apply find_sub_zero|done]|].
    destruct raw as [|x raw]; [vm_compute in E; discriminate|inversion Hl].
  - destruct (parseStatusLine (strip_cr l) _) as [[] r'] eqn:Ep.
    2: { intros Hs. apply parseStatusLine_false in Ep as (_ & _ & _ & Hs').
         simpl in Hs'. congruence. }
    intros _. left. apply parseStatusLine_true in Ep as (Ht & Hc & _).
    rewrite header_fold_frame. done.
Qed.

(** C16: Invariant: every key of the parsed header map is lower case and every
    value is trimmed of spaces and tabs. *)
Theorem parse_headers_wf (raw : str) (r : HttpResponse) :
  parseHttpResponse raw = Some r → headers_wf (headers r).
Proof.
  intros H. destruct (parse_cases raw r H) as [[_ ->]|[[_ ->]|(pos & b & _ & ->)]];
    [apply map_Forall_empty..|].
  rewrite header_block_loop_first.
  destruct (getlines _) as [|l ls]; [apply map_Forall_empty|].
  destruct (parseStatusLine (strip_cr l) _) as [[] r'] eqn:Ep.
  - apply header_fold_wf. apply parseStatusLine_true in Ep as (_ & _ & -> & _).
    apply map_Forall_empty.
  - apply parseStatusLine_false in Ep as (_ & -> & _). apply map_Forall_empty.
Qed.

(** C22: The only undefined behaviour of the pipeline is the one of the chunked
    decoder: [None] comes from a body announced as chunked. *)
Theorem parse_undefined (raw : str) :
  parseHttpResponse raw = None →
  ∃ pos, find_sub CRLFCRLF raw = Some pos ∧ isChunkedEncoding (take pos raw) = true ∧
         decodeChunkedBody (drop (pos + 4) raw) = None.
Proof.
  unfold parseHttpResponse. case_decide; [done|].
  destruct (find_sub CRLFCRLF raw) as [pos|]; [|done]. unfold substr. rewrite drop_0.
  destruct (isChunkedEncoding _) eqn:Ec; [|done].
  destruct (decodeChunkedBody _) eqn:Ed; [done|]. eauto.
Qed.

(** ** Witnesses *)

(** The success example of the specification:
    "HTTP/1.1 200 OK\r\nContent-Type: text/plain\r\n\r\nhello". *)
Lemma parse_render_witness :
  token ‹"HTTP/1.1"› ∧ (INT_MIN <= 200 <= INT_MAX)%Z ∧ Forall token [‹"OK"›] ∧
  Forall header_ok [(‹"Content-Type"›, ‹"text/plain"›)] ∧
  render_response ‹"HTTP/1.1"› 200 [‹"OK"›] [(‹"Content-Type"›, ‹"text/plain"›)] ‹"hello"› =
    ‹"HTTP/1.1 200 OK"› ++ [CR; LF] ++ ‹"Content-Type: text/plain"› ++ CRLFCRLF ++ ‹"hello"› ∧
  parseHttpResponse
    (render_response ‹"HTTP/1.1"› 200 [‹"OK"›] [(‹"Content-Type"›, ‹"text/plain"›)] ‹"hello"›) =
    Some (mkHttpResponse ‹"HTTP/1.1"› 200 ‹"OK"› {[ ‹"content-type"› := ‹"text/plain"› ]}
            ‹"hello"› true []).
Proof.
  assert (H1 : token ‹"HTTP/1.1"›) by decide_concrete.
  assert (H2 : (INT_MIN <= 200 <= INT_MAX)%Z) by (unfold INT_MIN, INT_MAX; lia).
  assert (H3 : Forall token [‹"OK"›]) by decide_concrete.
  assert (H4 : Forall header_ok [(‹"Content-Type"›, ‹"text/plain"›)]) by decide_concrete.
  refine (conj H1 (conj H2 (conj H3 (conj H4 (conj (eq_refl _) _))))).
  rewrite (parse_render _ _ _ _ _ H1 H2 H3 H4). vm_compute. reflexivity.
Defined.

(** The empty header section: a success with no status line. *)
Lemma parse_success_status_witness :
  parseHttpResponse (CRLFCRLF ++ ‹"hello"›) = Some (mkHttpResponse [] 0 [] ∅ ‹"hello"› true []) ∧
  isSuccess (mkHttpResponse [] 0 [] ∅ ‹"hello"› true []) = true ∧
  ((token [] ∧ (INT_MIN <= 0 <= INT_MAX)%Z) ∨
   (CRLFCRLF `prefix_of` (CRLFCRLF ++ ‹"hello"›) ∧ @nil ascii = [] ∧ 0%Z = 0%Z)).
Proof.
  assert (H1 : parseHttpResponse (CRLFCRLF ++ ‹"hello"›) =
               Some (mkHttpResponse [] 0 [] ∅ ‹"hello"› true [])) by (vm_compute; reflexivity).
  assert (H2 : isSuccess (mkHttpResponse [] 0 [] ∅ ‹"hello"› true []) = true) by reflexivity.
  exact (conj H1 (conj H2 (parse_success_status _ _ H1 H2))).
Defined.

(** The malformed-status example of the specification:
    "HTTP/1.1 OK\r\n\r\nbody". *)
Lemma parse_failure_witness :
  parseHttpResponse (‹"HTTP/1.1 OK"› ++ CRLFCRLF ++ ‹"body"›) =
    Some (mkHttpResponse ‹"HTTP/1.1"› 0 [] ∅ ‹"body"› false msg_status_line) ∧
  isSuccess (mkHttpResponse ‹"HTTP/1.1"› 0 [] ∅ ‹"body"› false msg_status_line) = false ∧
  headers (mkHttpResponse ‹"HTTP/1.1"› 0 [] ∅ ‹"body"› false msg_status_line) = ∅ ∧
  errorMessage (mkHttpResponse ‹"HTTP/1.1"› 0 [] ∅ ‹"body"› false msg_status_line)
    ∈ [msg_empty; msg_no_separator; msg_status_line].
Proof.
  assert (H1 : parseHttpResponse (‹"HTTP/1.1 OK"› ++ CRLFCRLF ++ ‹"body"›) =
    Some (mkHttpResponse ‹"HTTP/1.1"› 0 [] ∅ ‹"body"› false msg_status_line))
    by (vm_compute; reflexivity).
  assert (H2 : isSuccess (mkHttpResponse ‹"HTTP/1.1"› 0 [] ∅ ‹"body"› false msg_status_line)
               = false) by reflexivity.
  exact (conj H1 (conj H2 (parse_failure _ _ H1 H2))).
Defined.

(** The missing-boundary example of the specification:
    "HTTP/1.1 200 OK\r\nContent-Length: 5\r\n". *)
Lemma parse_no_separator_witness :
  ‹"HTTP/1.1 200 OK"› ++ [CR; LF] ++ ‹"Content-Length: 5"› ++ [CR; LF] ≠ [] ∧
  ¬ occurs CRLFCRLF (‹"HTTP/1.1 200 OK"› ++ [CR; LF] ++ ‹"Content-Length: 5"› ++ [CR; LF]) ∧
  parseHttpResponse (‹"HTTP/1.1 200 OK"› ++ [CR; LF] ++ ‹"Content-Length: 5"› ++ [CR; LF]) =
    Some (set_errorMessage msg_no_separator (set_isSuccess false HttpResponse_init)).
Proof.
  assert (H1 : ‹"HTTP/1.1 200 OK"› ++ [CR; LF] ++ ‹"Content-Length: 5"› ++ [CR; LF] ≠ [])
    by decide_concrete.
  assert (H2 : ¬ occurs CRLFCRLF
                 (‹"HTTP/1.1 200 OK"› ++ [CR; LF] ++ ‹"Content-Length: 5"› ++ [CR; LF])).
  { intros Ho. apply find_sub_occurs in Ho. vm_compute in Ho. by destruct Ho. }
  exact (conj H1 (conj H2 (parse_no_separator _ H1 H2))).
Defined.

Lemma parse_headers_wf_witness :
  parseHttpResponse (‹"HTTP/1.1 200 OK"› ++ [CR; LF] ++ ‹"Content-Type:  Text/Plain "› ++
                     [CR; LF] ++ ‹"CONTENT-TYPE: text/html"› ++ CRLFCRLF ++ ‹"hi"›) =
    Some (mkHttpResponse ‹"HTTP/1.1"› 200 ‹"OK"› {[ ‹"content-type"› := ‹"text/html"› ]}
            ‹"hi"› true []) ∧
  headers_wf {[ ‹"content-type"› := ‹"text/html"› ]}.
Proof.
  assert (H : parseHttpResponse (‹"HTTP/1.1 200 OK"› ++ [CR; LF] ++
                ‹"Content-Type:  Text/Plain "› ++ [CR; LF] ++ ‹"CONTENT-TYPE: text/html"› ++
                CRLFCRLF ++ ‹"hi"›) =
    Some (mkHttpResponse ‹"HTTP/1.1"› 200 ‹"OK"› {[ ‹"content-type"› := ‹"text/html"› ]}
            ‹"hi"› true [])) by (vm_compute; reflexivity).
  exact (conj H (parse_headers_wf _ _ H)).
Defined.

(** A chunked response whose one-byte chunk is framed in the standard way:
    the CRLF after its data is read as a blank size line. *)
Lemma parse_undefined_witness :
  parseHttpResponse (‹"HTTP/1.1 200 OK"› ++ [CR; LF] ++ ‹"Transfer-Encoding: chunked"› ++
                     CRLFCRLF ++ ‹"1"› ++ [CR; LF] ++ ‹"a"› ++ [CR; LF; CR; LF] ++ ‹"0"› ++
                     CRLFCRLF) = None ∧
  ∃ pos, find_sub CRLFCRLF (‹"HTTP/1.1 200 OK"› ++ [CR; LF] ++ ‹"Transfer-Encoding: chunked"› ++
                     CRLFCRLF ++ ‹"1"› ++ [CR; LF] ++ ‹"a"› ++ [CR; LF; CR; LF] ++ ‹"0"› ++
                     CRLFCRLF) = Some pos ∧
    isChunkedEncoding (take pos (‹"HTTP/1.1 200 OK"› ++ [CR; LF] ++
                     ‹"Transfer-Encoding: chunked"› ++ CRLFCRLF ++ ‹"1"› ++ [CR; LF] ++ ‹"a"› ++
                     [CR; LF; CR; LF] ++ ‹"0"› ++ CRLFCRLF)) = true ∧
    decodeChunkedBody (drop (pos + 4) (‹"HTTP/1.1 200 OK"› ++ [CR; LF] ++
                     ‹"Transfer-Encoding: chunked"› ++ CRLFCRLF ++ ‹"1"› ++ [CR; LF] ++ ‹"a"› ++
                     [CR; LF; CR; LF] ++ ‹"0"› ++ CRLFCRLF)) = None.
Proof.
  assert (H : parseHttpResponse (‹"HTTP/1.1 200 OK"› ++ [CR; LF] ++
                ‹"Transfer-Encoding: chunked"› ++ CRLFCRLF ++ ‹"1"› ++ [CR; LF] ++ ‹"a"› ++
                [CR; LF; CR; LF] ++ ‹"0"› ++ CRLFCRLF) = None) by (vm_compute; reflexivity).
  exact (conj H (parse_undefined _ H)).
Defined.

