(* ===== verification/Request.v ===== *)
(** * The request text: [formatHttpRequest]

    [SimpleHttpClient::formatHttpRequest] (processing.cpp, lines 52-64) and
    the free function of the same name in send_request.cpp (lines 11-28)
    write the same text into a [std::stringstream]: the request line, four
    header lines, each ended by "\r\n", and the empty line.  The file proves
    how a server splits that text (its header block ends exactly at the end
    of the request and its lines are the five lines written) and that the
    arguments are not checked: a CR LF inside the host name adds header
    lines or ends the header block early. *)

From S2P Require Import Prelude StdString Parse.

(** The five lines, without their line ends. *)
Definition request_lines (hostname path method : str) : list str :=
  [method ++ ‹" "› ++ path ++ ‹" HTTP/1.1"›;
   ‹"Host: "› ++ hostname;
   ‹"User-Agent: SimpleHTTPClient/1.0"›;
   ‹"Accept: */*"›;
   ‹"Connection: close"›].

(** [request << method << " " << path << " HTTP/1.1\r\n"; ...;
    request << "\r\n"; return request.str();] *)
Definition formatHttpRequest (hostname path method : str) : str :=
  method ++ ‹" "› ++ path ++ ‹" HTTP/1.1"› ++ [CR; LF] ++
  ‹"Host: "› ++ hostname ++ [CR; LF] ++
  ‹"User-Agent: SimpleHTTPClient/1.0"› ++ [CR; LF] ++
  ‹"Accept: */*"› ++ [CR; LF] ++
  ‹"Connection: close"› ++ [CR; LF] ++
  [CR; LF].

(** An argument that cannot break a line. *)
Definition line_safe (s : str) : Prop := Forall line_char s.

#[export] Instance line_safe_dec (s : str) : Decision (line_safe s).
Proof. unfold line_safe, line_char. apply _. Defined.

(** ** Lemmas *)

Lemma formatHttpRequest_join (hostname path method : str) :
  formatHttpRequest hostname path method =
    join_crlf (request_lines hostname path method) ++ CRLFCRLF.
Proof.
  unfold formatHttpRequest, request_lines, join_crlf.
  app_simpl. reflexivity.
Qed.

(** The request is 88 bytes longer than its three arguments. *)
Lemma formatHttpRequest_length (hostname path method : str) :
  length (formatHttpRequest hostname path method) = length method + length path + length hostname + 88.
Proof. unfold formatHttpRequest. rewrite !length_app. simpl. lia. Qed.

Lemma line_char_lit (s : String.string) :
  bool_decide (Forall line_char (cs s)) = true → Forall line_char (cs s).
Proof. apply bool_decide_eq_true_1. Qed.

Lemma request_lines_ok (hostname path method : str) :
  line_safe hostname → line_safe path → line_safe method →
  Forall (λ l, l ≠ [] ∧ Forall line_char l) (request_lines hostname path method).
Proof.
  unfold line_safe. intros Hh Hp Hm.
  repeat constructor; try (by destruct method); try (apply line_char_lit; vm_compute; reflexivity).
  repeat apply Forall_app_2; try done; apply line_char_lit; by vm_compute.
Qed.

(** ** Properties *)

(** C25: How a server reads the request: when no argument contains CR or LF,
    the first "\r\n\r\n" is the last four characters, so the header block
    is everything before them and the request has no body, and the lines
    of the header block are the five lines written. *)
Theorem formatHttpRequest_frame (hostname path method : str) :
  line_safe hostname → line_safe path → line_safe method →
  find_sub CRLFCRLF (formatHttpRequest hostname path method) =
    Some (length (formatHttpRequest hostname path method) - 4)%nat ∧
  map strip_cr (getlines (take (length (formatHttpRequest hostname path method) - 4)
                            (formatHttpRequest hostname path method))) =
    request_lines hostname path method.
Proof.
  intros Hh Hp Hm. pose proof (request_lines_ok _ _ _ Hh Hp Hm) as Hok.
  rewrite formatHttpRequest_join, length_app. change (length CRLFCRLF) with 4%nat.
  rewrite Nat.add_sub, take_app_length.
  split; [|by apply getlines_join_crlf].
  rewrite <- (app_nil_r CRLFCRLF). by apply find_sub_head.
Qed.

(** C26: The host name is written as it is: a host name that ends in CR LF
    ends the header block after the Host line, and the fixed header lines
    become the start of a request body. *)
Theorem formatHttpRequest_split (hostname path method : str) :
  line_safe hostname → line_safe path → line_safe method →
  find_sub CRLFCRLF (formatHttpRequest (hostname ++ [CR; LF]) path method) =
    Some (length (method ++ ‹" "› ++ path ++ ‹" HTTP/1.1"› ++ [CR; LF] ++
                  ‹"Host: "› ++ hostname)).
Proof.
  intros Hh Hp Hm.
  destruct (Forall_cons_1 _ _ _ (request_lines_ok _ _ _ Hh Hp Hm)) as [H1 Hr].
  destruct (Forall_cons_1 _ _ _ Hr) as [H2 _].
  pose proof (find_sub_head [method ++ ‹" "› ++ path ++ ‹" HTTP/1.1"›; ‹"Host: "› ++ hostname]
    (‹"User-Agent: SimpleHTTPClient/1.0"› ++ [CR; LF] ++ ‹"Accept: */*"› ++ [CR; LF] ++
     ‹"Connection: close"› ++ [CR; LF; CR; LF]) ltac:(done) ltac:(constructor; [done|constructor; [done|constructor]])) as Hf.
  revert Hf. unfold formatHttpRequest, join_crlf.
  app_simpl. by rewrite app_nil_r.
Qed.

(** ** Witnesses *)

Lemma formatHttpRequest_frame_witness :
  line_safe ‹"example.com"› ∧ line_safe ‹"/"› ∧ line_safe ‹"GET"› ∧
  find_sub CRLFCRLF (formatHttpRequest ‹"example.com"› ‹"/"› ‹"GET"›) =
    Some (length (formatHttpRequest ‹"example.com"› ‹"/"› ‹"GET"›) - 4)%nat ∧
  map strip_cr (getlines (take (length (formatHttpRequest ‹"example.com"› ‹"/"› ‹"GET"›) - 4)
                            (formatHttpRequest ‹"example.com"› ‹"/"› ‹"GET"›))) =
    request_lines ‹"example.com"› ‹"/"› ‹"GET"›.
Proof.
  assert (H1 : line_safe ‹"example.com"›) by decide_concrete.
  assert (H2 : line_safe ‹"/"›) by decide_concrete.
  assert (H3 : line_safe ‹"GET"›) by decide_concrete.
  exact (conj H1 (conj H2 (conj H3 (formatHttpRequest_frame _ _ _ H1 H2 H3)))).
Defined.

Lemma formatHttpRequest_split_witness :
  line_safe ‹"example.com"› ∧ line_safe ‹"/"› ∧ line_safe ‹"GET"› ∧
  find_sub CRLFCRLF (formatHttpRequest (‹"example.com"› ++ [CR; LF]) ‹"/"› ‹"GET"›) =
    Some (length (‹"GET"› ++ ‹" "› ++ ‹"/"› ++ ‹" HTTP/1.1"› ++ [CR; LF] ++
                  ‹"Host: "› ++ ‹"example.com"›)).
Proof.
  assert (H1 : line_safe ‹"example.com"›) by decide_concrete.
  assert (H2 : line_safe ‹"/"›) by decide_concrete.
  assert (H3 : line_safe ‹"GET"›) by decide_concrete.
  exact (conj H1 (conj H2 (conj H3 (formatHttpRequest_split _ _ _ H1 H2 H3)))).
Defined.
