(* ===== verification/Net.v ===== *)
(** * The operating system as the client uses it

    The client's stateful code calls [getaddrinfo], [freeaddrinfo],
    [socket], [connect], [send], [recv] and [close].  The model is a state
    monad [M] over a record [OS] of what those calls read and change: the
    open descriptors, the number of [addrinfo] lists not yet freed, the
    bytes the peer has received, and the behaviour of the network, given
    as a name resolver and as the scripted results of the coming [send]
    and [recv] calls.  Every outcome the C library allows is a script, so
    a theorem quantified over the scripts covers every network. *)

From S2P Require Import Prelude StdString IStream.

(** One entry of the [addrinfo] list [getaddrinfo] returns: whether
    [socket] and [connect] succeed on it. *)
Record Addr := mkAddr { ai_socket_ok : bool; ai_connect_ok : bool }.

Record OS := mkOS {
  os_fds : gset Z;                            (** open descriptors *)
  os_next : Z;                                (** the descriptor [socket] returns next *)
  os_addrinfo : nat;                          (** [addrinfo] lists not yet freed *)
  os_resolve : str → str → option (list Addr); (** [getaddrinfo(host, port)] *)
  os_send : list Z;                           (** results of the coming [send] calls *)
  os_wire : str;                              (** bytes the peer has received *)
  os_recv : list (option str)                 (** results of the coming [recv] calls *)
}.

(** Well-formed states: descriptors are non-negative and below [os_next]. *)
Definition os_wf (os : OS) : Prop :=
  (0 <= os_next os)%Z ∧ set_Forall (λ fd, 0 <= fd < os_next os)%Z (os_fds os).

(** ** The state monad *)

Definition M (A : Type) : Type := OS → A * OS.

#[export] Instance M_ret : MRet M := λ A a os, (a, os).
#[export] Instance M_bind : MBind M := λ A B k m os, let '(a, os') := m os in k a os'.

(** ** System calls *)

Definition sys_getaddrinfo (host port : str) : M (option (list Addr)) := λ os,
  match os_resolve os host port with
  | Some ais => (Some ais, mkOS (os_fds os) (os_next os) (S (os_addrinfo os)) (os_resolve os)
                                (os_send os) (os_wire os) (os_recv os))
  | None => (None, os)
  end.

Definition sys_freeaddrinfo : M unit := λ os,
  ((), mkOS (os_fds os) (os_next os) (pred (os_addrinfo os)) (os_resolve os)
            (os_send os) (os_wire os) (os_recv os)).

Definition sys_socket (a : Addr) : M Z := λ os,
  if ai_socket_ok a
  then (os_next os, mkOS ({[os_next os]} ∪ os_fds os) (os_next os + 1)%Z (os_addrinfo os)
                         (os_resolve os) (os_send os) (os_wire os) (os_recv os))
  else ((-1)%Z, os).

Definition sys_connect (fd : Z) (a : Addr) : M Z := λ os,
  (if ai_connect_ok a then 0%Z else (-1)%Z, os).

Definition sys_close (fd : Z) : M Z := λ os,
  if decide (fd ∈ os_fds os)
  then (0%Z, mkOS (os_fds os ∖ {[fd]}) (os_next os) (os_addrinfo os) (os_resolve os)
                  (os_send os) (os_wire os) (os_recv os))
  else ((-1)%Z, os).

(** [send(fd, buf, count, 0)]: the script's next entry is the number of
    bytes the kernel accepts this time ([-1] for an error); once the script
    is exhausted the peer accepts everything offered.  The model reads the
    buffer only up to the end of the C++ string: for the counts the client
    passes this is all the kernel reads (see [sendHttpRequest_bounds]). *)
Definition sys_send (fd : Z) (buf : str) (count : N) : M Z := λ os,
  let accept k ns := (Z.of_nat k, mkOS (os_fds os) (os_next os) (os_addrinfo os) (os_resolve os)
                                       ns (os_wire os ++ take k buf) (os_recv os)) in
  if decide (fd ∈ os_fds os) then
    match os_send os with
    | [] => accept (min (N.to_nat count) (length buf)) []
    | n :: ns =>
        if (n <? 0)%Z
        then ((-1)%Z, mkOS (os_fds os) (os_next os) (os_addrinfo os) (os_resolve os)
                           ns (os_wire os) (os_recv os))
        else accept (min (Z.to_nat n) (min (N.to_nat count) (length buf))) ns
    end
  else ((-1)%Z, os).

(** [recv(fd, buf, cap, 0)]: the script's next entry is the data that has
    arrived ([None] for an error); [recv] returns at most [cap] bytes of it
    and leaves the rest for the next call.  An exhausted script, or an
    empty entry, is the peer closing the connection: [recv] returns 0. *)
Definition sys_recv (fd : Z) (cap : nat) : M (Z * str) := λ os,
  let with_recv rs := mkOS (os_fds os) (os_next os) (os_addrinfo os) (os_resolve os)
                           (os_send os) (os_wire os) rs in
  if decide (fd ∈ os_fds os) then
    match os_recv os with
    | [] => ((0%Z, []), os)
    | None :: rs => (((-1)%Z, []), with_recv rs)
    | Some d :: rs =>
        match take cap d with
        | [] => ((0%Z, []), with_recv rs)
        | got => ((Z.of_nat (length got), got),
                  with_recv (match drop cap d with [] => rs | rest => Some rest :: rs end))
        end
    end
  else (((-1)%Z, []), os).

(** ** Machine integers *)

(** The conversion of a value to [int] (two's complement, 32 bits). *)
Definition to_int (z : Z) : Z := ((z - INT_MIN) mod 2 ^ 32 + INT_MIN)%Z.

(** The conversion of an [int] to [size_t] (64 bits). *)
Definition size_t_of_int (z : Z) : N := Z.to_N (z mod 2 ^ 64).

(** ** Connecting: [createConnection] (processing.cpp, lines 14-50) *)

(** [for (p = servinfo; p != NULL; p = p->ai_next) { if ((sockfd = socket(..)) == -1)
    continue; if (connect(sockfd, ..) == -1) { close(sockfd); continue; } break; }];
    [None] is the loop ending with [p == NULL]. *)
Fixpoint connect_loop (servinfo : list Addr) : M (option Z) :=
  match servinfo with
  | [] => mret None
  | p :: servinfo' =>
      sockfd ← sys_socket p;
      if (sockfd =? -1)%Z then connect_loop servinfo'
      else
        rc ← sys_connect sockfd p;
        if (rc =? -1)%Z then _ ← sys_close sockfd; connect_loop servinfo'
        else mret (Some sockfd)
  end.

Definition createConnection (hostname : str) (port : Z) : M Z :=
  rv ← sys_getaddrinfo hostname (show_Z port);
  match rv with
  | None => mret (-1)%Z
  | Some servinfo =>
      p ← connect_loop servinfo;
      match p with
      | None => _ ← sys_freeaddrinfo; mret (-1)%Z
      | Some sockfd => _ ← sys_freeaddrinfo; mret sockfd
      end
  end.

(** The same function in src/src/socket/socket.cpp (lines 10-57): when no
    address connects it returns without [freeaddrinfo(servinfo)]. *)
Definition createConnection_socket (hostname : str) (port : Z) : M Z :=
  rv ← sys_getaddrinfo hostname (show_Z port);
  match rv with
  | None => mret (-1)%Z
  | Some servinfo =>
      p ← connect_loop servinfo;
      match p with
      | None => mret (-1)%Z
      | Some sockfd => _ ← sys_freeaddrinfo; mret sockfd
      end
  end.

(** ** Sending: [sendHttpRequest] (processing.cpp, lines 66-81) *)

(** [while (total < request.length()) { n = send(sockfd, request.c_str() + total,
    bytesleft, 0); if (n == -1) return false; total += n; bytesleft -= n; }
    return true;] -- [total] is converted to [size_t] for the comparison,
    [bytesleft] for the call. *)
Fixpoint send_loop (fuel : nat) (sockfd : Z) (request : str) (total bytesleft : Z) : M bool :=
  match fuel with
  | O => mret false
  | S fuel' =>
      if (size_t_of_int total <? N.of_nat (length request))%N then
        n ← sys_send sockfd (drop (Z.to_nat total) request) (size_t_of_int bytesleft);
        if (n =? -1)%Z then mret false
        else send_loop fuel' sockfd request (total + n)%Z (bytesleft - n)%Z
      else mret true
  end.

(** [int total = 0; int bytesleft = request.length();]  The loop runs at
    most once per scripted result and once more; the fuel says so. *)
Definition sendHttpRequest (sockfd : Z) (request : str) : M bool := λ os,
  send_loop (length (os_send os) + 2) sockfd request 0%Z (to_int (Z.of_nat (length request))) os.

(** ** Receiving: [receiveHttpResponse] (processing.cpp, lines 83-94) *)

Definition NUL : ascii := "000"%char.

(** [response += buffer]: the buffer is read as a C string, up to its
    first NUL. *)
Fixpoint c_str (buf : str) : str :=
  match buf with
  | [] => []
  | c :: buf' => if decide (c = NUL) then [] else c :: c_str buf'
  end.

(** A bound on the number of [recv] calls a script allows. *)
Definition recv_budget (rs : list (option str)) : nat :=
  sum_list (map (λ r, match r with Some d => S (length d) | None => 1%nat end) rs).

(** [while ((bytesReceived = recv(sockfd, buffer, sizeof(buffer) - 1, 0)) > 0)
    { buffer[bytesReceived] = '\0'; response += buffer; }]; the result
    also carries the last [bytesReceived]. *)
Fixpoint recv_loop (fuel : nat) (sockfd : Z) (response : str) : M (Z * str) :=
  match fuel with
  | O => mret (0%Z, response)
  | S fuel' =>
      '(bytesReceived, buffer) ← sys_recv sockfd 4095;
      if (0 <? bytesReceived)%Z then recv_loop fuel' sockfd (response ++ c_str buffer)
      else mret (bytesReceived, response)
  end.

Definition receiveHttpResponse (sockfd : Z) : M str := λ os,
  let '((_, response), os') := recv_loop (S (recv_budget (os_recv os))) sockfd [] os in
  (response, os').

(** The version in receive_request.cpp (lines 24-41) returns [""] when the
    last [recv] failed. *)
Definition receiveHttpResponse_legacy (sockfd : Z) : M str := λ os,
  let '((bytesReceived, response), os') := recv_loop (S (recv_budget (os_recv os))) sockfd [] os in
  (if (bytesReceived =? -1)%Z then [] else response, os').

(** What a script delivers before the connection ends: the data of its
    entries up to the first error or close, how it ends ([recv]'s last
    result: [-1] or [0]), and the entries left after it. *)
Fixpoint stream_data (rs : list (option str)) : str :=
  match rs with
  | Some (c :: d) :: rs' => (c :: d) ++ stream_data rs'
  | _ => []
  end.

Fixpoint stream_status (rs : list (option str)) : Z :=
  match rs with
  | Some (_ :: _) :: rs' => stream_status rs'
  | None :: _ => (-1)%Z
  | _ => 0%Z
  end.

Fixpoint stream_rest (rs : list (option str)) : list (option str) :=
  match rs with
  | Some (_ :: _) :: rs' => stream_rest rs'
  | _ :: rs' => rs'
  | [] => []
  end.

(** No NUL byte in the data of a script. *)
Definition nul_free (rs : list (option str)) : Prop :=
  Forall (λ r, match r with Some d => NUL ∉ d | None => True end) rs.

(** The three steps of [connect_loop] on the next address. *)
Definition os_bump (os : OS) : OS :=
  mkOS (os_fds os) (os_next os + 1) (os_addrinfo os) (os_resolve os) (os_send os) (os_wire os)
       (os_recv os).

(** The state after a successful [getaddrinfo]. *)
Definition os_alloc (os : OS) : OS :=
  mkOS (os_fds os) (os_next os) (S (os_addrinfo os)) (os_resolve os) (os_send os) (os_wire os)
       (os_recv os).

(** The resources of the state: what a leak would change. *)
Definition fd_frame (os os' : OS) : Prop :=
  os_fds os' = os_fds os ∧ os_next os' = os_next os ∧ os_addrinfo os' = os_addrinfo os.

(** The parts of the state a connection attempt leaves alone. *)
Definition same_io (os os' : OS) : Prop :=
  os_resolve os' = os_resolve os ∧ os_send os' = os_send os ∧
  os_wire os' = os_wire os ∧ os_recv os' = os_recv os.

(** ** The interface between the client and the network

    The boundary of the specification's section 6: a connection provider
    and a byte-stream reader, with a writer for the request.  The client
    ([Client.makeHttpRequest]) is written against it; the functions of
    processing.cpp are one instance, the free functions of socket.cpp,
    send_request.cpp and receive_request.cpp (composed by
    receive_request_demo.cpp) another. *)
Class Transport := {
  transport_connect : str → Z → M Z;
  transport_send : Z → str → M bool;
  transport_receive : Z → M str
}.

#[export] Instance processing_transport : Transport := {|
  transport_connect := createConnection;
  transport_send := sendHttpRequest;
  transport_receive := receiveHttpResponse
|}.

(** [createConnection] of socket.cpp, [sendHttpRequest] of
    send_request.cpp (the loop of processing.cpp) and [receiveHttpResponse]
    of receive_request.cpp. *)
Definition socket_transport : Transport := {|
  transport_connect := createConnection_socket;
  transport_send := sendHttpRequest;
  transport_receive := receiveHttpResponse_legacy
|}.

(** What the client needs of a transport to leak nothing: connecting
    opens at most one new descriptor, the one it returns, and frees what
    it allocates; sending and receiving open and close nothing. *)
Class TransportLaws (T : Transport) : Prop := {
  connect_resources : ∀ hostname port os fd os',
    os_wf os → transport_connect hostname port os = (fd, os') →
    os_wf os' ∧ os_addrinfo os' = os_addrinfo os ∧
    ((fd = (-1)%Z ∧ os_fds os' = os_fds os) ∨
     ((0 <= fd)%Z ∧ (fd ∉ os_fds os) ∧ os_fds os' = {[fd]} ∪ os_fds os));
  send_frame : ∀ sockfd request os, fd_frame os (snd (transport_send sockfd request os));
  receive_frame : ∀ sockfd os, fd_frame os (snd (transport_receive sockfd os))
}.

(** ** Lemmas *)

(** Unfold the monad operations applied to a state. *)
Ltac mstep := unfold mbind, mret, M_bind, M_ret; cbv beta iota.

Lemma same_io_refl os : same_io os os.
Proof. done. Qed.

Lemma same_io_trans os1 os2 os3 : same_io os1 os2 → same_io os2 os3 → same_io os1 os3.
Proof. intros (?&?&?&?) (?&?&?&?). split_and!; congruence. Qed.

#[export] Hint Resolve same_io_refl : http.

Lemma os_wf_fresh os : os_wf os → os_next os ∉ os_fds os.
Proof. intros [_ Hall] Hin. apply Hall in Hin. lia. Qed.

(** A state after [socket] succeeded, whatever it closed since. *)
Lemma os_wf_socket os (fds : gset Z) ai rs ss w rr :
  os_wf os → fds ⊆ {[os_next os]} ∪ os_fds os →
  os_wf (mkOS fds (os_next os + 1) ai rs ss w rr).
Proof.
  intros [Hn Hall] Hsub. split; simpl; [lia|]. intros x Hx.
  apply Hsub, elem_of_union in Hx as [Hx|Hx]; [apply elem_of_singleton in Hx; lia|].
  specialize (Hall x Hx). simpl in Hall. lia.
Qed.

Lemma os_wf_bump os : os_wf os → os_wf (os_bump os).
Proof. intros Hwf. apply os_wf_socket; [done|set_solver]. Qed.

Lemma connect_loop_skip a servinfo os :
  ai_socket_ok a = false → connect_loop (a :: servinfo) os = connect_loop servinfo os.
Proof. intros Hs. simpl. mstep. unfold sys_socket. by rewrite Hs. Qed.

Lemma connect_loop_retry a servinfo os :
  os_wf os → ai_socket_ok a = true → ai_connect_ok a = false →
  connect_loop (a :: servinfo) os = connect_loop servinfo (os_bump os).
Proof.
  intros Hwf Hs Hc. pose proof (os_wf_fresh os Hwf). pose proof Hwf as [Hn _].
  simpl. mstep. unfold sys_socket. rewrite Hs. destruct (Z.eqb_spec (os_next os) (-1)); [lia|].
  unfold sys_connect. rewrite Hc. simpl. unfold sys_close. rewrite decide_True by set_solver.
  unfold os_bump. do 2 f_equal. set_solver.
Qed.

Lemma connect_loop_hit a servinfo os :
  os_wf os → ai_socket_ok a = true → ai_connect_ok a = true →
  connect_loop (a :: servinfo) os =
    (Some (os_next os), mkOS ({[os_next os]} ∪ os_fds os) (os_next os + 1) (os_addrinfo os)
                             (os_resolve os) (os_send os) (os_wire os) (os_recv os)).
Proof.
  intros [Hn _] Hs Hc. simpl. mstep. unfold sys_socket. rewrite Hs.
  destruct (Z.eqb_spec (os_next os) (-1)); [lia|]. unfold sys_connect. by rewrite Hc.
Qed.

(** Case on the next address of [connect_loop]. *)
Ltac connect_step a :=
  let Hs := fresh "Hs" in let Hc := fresh "Hc" in
  destruct (ai_socket_ok a) eqn:Hs;
  [destruct (ai_connect_ok a) eqn:Hc;
   [rewrite connect_loop_hit by done|rewrite connect_loop_retry by done]
  |rewrite connect_loop_skip by done].

(** Every descriptor [connect_loop] opens and does not return it closes;
    the one it returns is new. *)
Lemma connect_loop_spec (servinfo : list Addr) (os : OS) :
  os_wf os →
  let '(p, os') := connect_loop servinfo os in
  os_wf os' ∧ os_addrinfo os' = os_addrinfo os ∧ same_io os os' ∧
  match p with
  | None => os_fds os' = os_fds os
  | Some sockfd => (0 <= sockfd)%Z ∧ (sockfd ∉ os_fds os) ∧ os_fds os' = {[sockfd]} ∪ os_fds os
  end.
Proof.
  revert os. induction servinfo as [|a servinfo IH]; intros os Hwf; [done|].
  pose proof (os_wf_fresh os Hwf). pose proof Hwf as [Hn _]. connect_step a.
  - split_and!; try done; apply os_wf_socket; set_solver.
  - exact (IH _ (os_wf_bump _ Hwf)).
  - by apply IH.
Qed.

Lemma os_eta (os : OS) :
  mkOS (os_fds os) (os_next os) (os_addrinfo os) (os_resolve os) (os_send os) (os_wire os)
       (os_recv os) = os.
Proof. by destruct os. Qed.

Lemma size_t_of_int_small (z : Z) : (0 <= z < 2 ^ 64)%Z → size_t_of_int z = Z.to_N z.
Proof. intros Hz. unfold size_t_of_int. by rewrite Z.mod_small. Qed.

(** [size_t(int(z))]: the residue of [z] modulo 2^32, read as a signed
    [int] and extended to 64 bits. *)
Lemma size_t_of_to_int (z : Z) :
  size_t_of_int (to_int z) =
    Z.to_N (if (z mod 2 ^ 32 <? 2 ^ 31)%Z then z mod 2 ^ 32 else 2 ^ 64 - 2 ^ 32 + z mod 2 ^ 32)%Z.
Proof.
  unfold size_t_of_int, to_int, INT_MIN. f_equal.
  destruct (Z.ltb_spec (z mod 2 ^ 32) (2 ^ 31)); Z.div_mod_to_equations; lia.
Qed.

Lemma to_int_small (z : Z) : (INT_MIN <= z <= INT_MAX)%Z → to_int z = z.
Proof.
  unfold to_int, INT_MIN, INT_MAX. intros Hz.
  rewrite Z.mod_small by lia. lia.
Qed.

(** The bytes [send] hands over, joined: what was sent before and what
    the rest of the loop sends. *)
Lemma take_drop_join (r : str) (t m j : nat) :
  take m (drop t r) ++ take j (drop (t + m) r) = take (m + j) (drop t r).
Proof. by rewrite <- drop_drop, take_take_drop. Qed.

(** The send loop from [total = t] with [bytesleft = length - t]: the peer
    receives the next [k - t] bytes of the request for some [k], and the
    loop returns [true] exactly when [k] is the whole length.  It returns
    [true] whenever the descriptor is open and no [send] fails. *)
Lemma send_loop_spec (fuel : nat) (sockfd : Z) (request : str) (t : nat) (os : OS) :
  (Z.of_nat (length request) <= INT_MAX)%Z → (t <= length request)%nat →
  (length (os_send os) + 2 <= fuel)%nat →
  let '(ok, os') := send_loop fuel sockfd request (Z.of_nat t)
                      (Z.of_nat (length request) - Z.of_nat t)%Z os in
  ∃ k ns, (t <= k <= length request)%nat ∧
    os' = mkOS (os_fds os) (os_next os) (os_addrinfo os) (os_resolve os) ns
               (os_wire os ++ take (k - t) (drop t request)) (os_recv os) ∧
    (ok = true ↔ k = length request) ∧
    (sockfd ∈ os_fds os → Forall (λ n, 0 <= n)%Z (os_send os) → ok = true).
Proof.
  revert t os. induction fuel as [|fuel IH]; intros t os Hlen Ht Hfuel; [lia|].
  cbn [send_loop]. unfold INT_MAX in Hlen.
  rewrite size_t_of_int_small by lia. destruct (N.ltb_spec (Z.to_N (Z.of_nat t)) (N.of_nat (length request))) as [Hlt|Hge].
  2:{ assert (t = length request) by lia. subst t. mstep. exists (length request), (os_send os).
      rewrite Nat.sub_diag, take_0, app_nil_r, os_eta. by split_and!. }
  mstep. rewrite size_t_of_int_small by lia. unfold sys_send.
  destruct (decide (sockfd ∈ os_fds os)) as [Hin|Hnin].
  2:{ simpl. exists t, (os_send os). rewrite Nat.sub_diag, take_0, app_nil_r.
      split_and!; [lia|lia|by rewrite os_eta|split; [done|lia]|done]. }
  rewrite Nat2Z.id, length_drop. destruct (os_send os) as [|n ns] eqn:Hs.
  - replace (N.to_nat (Z.to_N _)) with (length request - t)%nat by lia.
    rewrite Nat.min_id. destruct (Z.eqb_spec (Z.of_nat (length request - t)) (-1)); [lia|].
    destruct fuel as [|fuel]; [simpl in Hfuel; lia|]. cbn [send_loop].
    rewrite size_t_of_int_small by lia.
    destruct (N.ltb_spec (Z.to_N (Z.of_nat t + Z.of_nat (length request - t))) (N.of_nat (length request))); [lia|].
    mstep. exists (length request), []. by split_and!.
  - simpl in Hfuel. destruct (Z.ltb_spec n 0) as [Hneg|Hpos].
    + simpl. exists t, ns. rewrite Nat.sub_diag, take_0, app_nil_r.
      split_and!; [lia|lia|done|split; [done|lia]|]. intros _ Hall. apply Forall_cons in Hall as [? _]. lia.
    + replace (N.to_nat (Z.to_N _)) with (length request - t)%nat by lia. rewrite Nat.min_id.
      set (m := Nat.min (Z.to_nat n) (length request - t)).
      destruct (Z.eqb_spec (Z.of_nat m) (-1)); [lia|]. simpl.
      set (os1 := mkOS _ _ _ _ _ _ _).
      specialize (IH (t + m)%nat os1 Hlen ltac:(lia) ltac:(simpl; lia)).
      replace (Z.of_nat t + Z.of_nat m)%Z with (Z.of_nat (t + m)) by lia.
      replace (Z.of_nat (length request) - Z.of_nat t - Z.of_nat m)%Z
        with (Z.of_nat (length request) - Z.of_nat (t + m))%Z by lia.
      destruct (send_loop fuel sockfd request _ _ os1) as [ok os'].
      destruct IH as (k & ns' & Hk & -> & Hok & Hall). exists k, ns'. subst os1. simpl.
      rewrite <- app_assoc, take_drop_join. replace (m + (k - (t + m)))%nat with (k - t)%nat by lia.
      split_and!; [lia|lia|done|done|]. intros Hin' Hpos'. apply Hall; [done|]. by apply Forall_cons in Hpos' as [_ ?].
Qed.

Lemma c_str_id (s : str) : NUL ∉ s → c_str s = s.
Proof.
  induction s as [|c s IH]; [done|]. intros Hn. simpl.
  case_decide; [set_solver|]. f_equal. apply IH. set_solver.
Qed.

Lemma c_str_nul (a b : str) : NUL ∉ a → c_str (a ++ NUL :: b) = a.
Proof.
  induction a as [|c a IH]; intros Hn; [done|]. simpl. case_decide; [set_solver|].
  f_equal. apply IH. set_solver.
Qed.

(** A non-empty entry read in two parts: the first [cap] bytes, then the
    rest as the next entry. *)
Lemma stream_split (x : str) (rs : list (option str)) (cap : nat) :
  x ≠ [] →
  let rs' := match drop cap x with [] => rs | rest => Some rest :: rs end in
  stream_data (Some x :: rs) = take cap x ++ stream_data rs' ∧
  stream_status rs' = stream_status (Some x :: rs) ∧ stream_rest rs' = stream_rest (Some x :: rs).
Proof.
  intros Hx. destruct x as [|c x]; [done|]. cbn zeta.
  destruct (drop cap (c :: x)) as [|c' x'] eqn:Hd.
  - apply (f_equal length) in Hd. rewrite length_drop in Hd. simpl in *. rewrite take_ge; [done|simpl; lia].
  - split_and!; [|done|done]. change (stream_data (Some (c :: x) :: rs)) with ((c :: x) ++ stream_data rs).
    rewrite <- (take_drop cap (c :: x)) at 1. rewrite Hd, <- app_assoc. done.
Qed.

Lemma recv_budget_split (x : str) (rs : list (option str)) (cap : nat) :
  x ≠ [] → (0 < cap)%nat →
  (recv_budget (match drop cap x with [] => rs | rest => Some rest :: rs end) <
   recv_budget (Some x :: rs))%nat.
Proof.
  intros Hx Hcap. pose proof (length_drop x cap) as Hl. unfold recv_budget.
  destruct (drop cap x) as [|c' x'] eqn:Hd; destruct x; simpl in *; try done; lia.
Qed.

Lemma nul_free_split (x : str) (rs : list (option str)) (cap : nat) :
  nul_free (Some x :: rs) →
  NUL ∉ take cap x ∧ nul_free (match drop cap x with [] => rs | rest => Some rest :: rs end).
Proof.
  intros Hn. apply Forall_cons in Hn as [Hx Hrs]. rewrite <- (take_drop cap x), elem_of_app in Hx.
  split; [tauto|]. destruct (drop cap x) as [|c' x'] eqn:Hd; [done|]. constructor; [tauto|done].
Qed.

Lemma sys_recv_data (sockfd : Z) (cap : nat) (x : str) (rs : list (option str)) (os : OS) :
  sockfd ∈ os_fds os → os_recv os = Some x :: rs → take cap x ≠ [] →
  sys_recv sockfd cap os =
    ((Z.of_nat (length (take cap x)), take cap x),
     mkOS (os_fds os) (os_next os) (os_addrinfo os) (os_resolve os) (os_send os) (os_wire os)
          (match drop cap x with [] => rs | rest => Some rest :: rs end)).
Proof.
  intros Hin Hr Ht. unfold sys_recv. rewrite decide_True, Hr by done.
  by destruct (take cap x).
Qed.

(** The receive loop on an open descriptor and data without NUL bytes:
    it appends everything the peer sends before closing or failing. *)
Lemma recv_loop_spec (fuel : nat) (sockfd : Z) (response : str) (os : OS) :
  sockfd ∈ os_fds os → nul_free (os_recv os) → (recv_budget (os_recv os) < fuel)%nat →
  recv_loop fuel sockfd response os =
    ((stream_status (os_recv os), response ++ stream_data (os_recv os)),
     mkOS (os_fds os) (os_next os) (os_addrinfo os) (os_resolve os) (os_send os) (os_wire os)
          (stream_rest (os_recv os))).
Proof.
  revert response os. induction fuel as [|fuel IH]; intros response os Hin Hn Hb; [lia|].
  cbn [recv_loop]. mstep.
  destruct (os_recv os) as [|[[|c x]|] rs] eqn:Hr;
    [| |rewrite (sys_recv_data sockfd 4095 (c :: x) rs) by done|];
    try (unfold sys_recv; rewrite decide_True, Hr by done; simpl; rewrite app_nil_r, <- ?Hr;
         by rewrite ?os_eta).
  pose proof (stream_split (c :: x) rs 4095 ltac:(done)) as (Hd & Hs & Hrest).
  pose proof (recv_budget_split (c :: x) rs 4095 ltac:(done) ltac:(lia)) as Hb'.
  destruct (nul_free_split (c :: x) rs 4095 Hn) as [Hnt Hn'].
  cbv zeta in *.
  destruct (Z.ltb_spec 0 (Z.of_nat (length (take 4095 (c :: x))))) as [_|]; [|simpl in *; lia].
  rewrite IH; cbn [os_fds os_recv]; [|done|done|lia].
  by rewrite c_str_id, Hs, Hrest, Hd, app_assoc.
Qed.

(** A script of non-empty data pieces, then [rs]: the loop takes all the
    pieces and ends as [rs] makes it end. *)
Lemma stream_map_Some (ds : list str) (rs : list (option str)) :
  Forall (λ d, d ≠ []) ds →
  stream_data (map Some ds ++ rs) = mjoin ds ++ stream_data rs ∧
  stream_status (map Some ds ++ rs) = stream_status rs.
Proof.
  induction 1 as [|[|c d] ds Hd _ IH]; [done|done|]. cbn [map app stream_data stream_status mjoin].
  destruct IH as [-> ->]. by rewrite app_assoc.
Qed.

Lemma nul_free_map_Some (ds : list str) (rs : list (option str)) :
  Forall (λ d, NUL ∉ d) ds → nul_free rs → nul_free (map Some ds ++ rs).
Proof. intros Hd Hrs. apply Forall_app. split; [|done]. by apply Forall_fmap. Qed.

Lemma os_wf_alloc os : os_wf os → os_wf (os_alloc os).
Proof. done. Qed.

(** [createConnection] once the name is resolved: the connect loop, then
    [freeaddrinfo] on both of its outcomes. *)
Lemma createConnection_resolved (hostname : str) (port : Z) (os : OS) (servinfo : list Addr) :
  os_resolve os hostname (show_Z port) = Some servinfo →
  createConnection hostname port os =
    (default (-1)%Z (fst (connect_loop servinfo (os_alloc os))),
     snd (sys_freeaddrinfo (snd (connect_loop servinfo (os_alloc os))))).
Proof.
  intros Hres. unfold createConnection. mstep. unfold sys_getaddrinfo. rewrite Hres.
  fold (os_alloc os). by destruct (connect_loop servinfo (os_alloc os)) as [[fd|] os2].
Qed.

(** [createConnection] frees the address list on every path and leaves
    open exactly one new descriptor, the one it returns, or none when it
    returns -1. *)
Lemma createConnection_spec (hostname : str) (port : Z) (os : OS) (fd : Z) (os' : OS) :
  os_wf os → createConnection hostname port os = (fd, os') →
  os_wf os' ∧ os_addrinfo os' = os_addrinfo os ∧ same_io os os' ∧
  ((fd = (-1)%Z ∧ os_fds os' = os_fds os) ∨
   ((0 <= fd)%Z ∧ (fd ∉ os_fds os) ∧ os_fds os' = {[fd]} ∪ os_fds os)).
Proof.
  intros Hwf. destruct (os_resolve os hostname (show_Z port)) as [servinfo|] eqn:Hres.
  2:{ unfold createConnection. mstep. unfold sys_getaddrinfo. rewrite Hres.
      intros [= <- <-]. auto 10 with http. }
  rewrite (createConnection_resolved _ _ _ _ Hres).
  pose proof (connect_loop_spec servinfo (os_alloc os) (os_wf_alloc _ Hwf)) as Hc.
  destruct (connect_loop servinfo (os_alloc os)) as [[sockfd|] os2]; intros [= <- <-];
    destruct Hc as (Hwf2&Hai&(?&?&?&?)&Hp); (split; [done|]); simpl; rewrite Hai;
    (split; [done|]); (split; [split_and!; done|]); auto.
Qed.

Lemma fd_frame_refl os : fd_frame os os.
Proof. done. Qed.

Lemma fd_frame_trans os1 os2 os3 : fd_frame os1 os2 → fd_frame os2 os3 → fd_frame os1 os3.
Proof. intros (?&?&?) (?&?&?). split_and!; congruence. Qed.

Lemma fd_frame_wf os os' : fd_frame os os' → os_wf os → os_wf os'.
Proof. intros (Hf&Hn&_) [? ?]. split; rewrite Hn; [done|by rewrite Hf]. Qed.

#[export] Hint Resolve fd_frame_refl fd_frame_wf : http.

Lemma sys_send_frame fd buf count os : fd_frame os (snd (sys_send fd buf count os)).
Proof.
  unfold sys_send. case_decide; [|done]. destruct (os_send os) as [|n ns]; [done|].
  by destruct (n <? 0)%Z.
Qed.

Lemma sys_recv_frame fd cap os : fd_frame os (snd (sys_recv fd cap os)).
Proof.
  unfold sys_recv. case_decide; [|done].
  destruct (os_recv os) as [|[d|] rs]; [done| |done]. by destruct (take cap d).
Qed.

(** The send and receive loops open and close nothing. *)
Lemma send_loop_frame fuel sockfd request total bytesleft os :
  fd_frame os (snd (send_loop fuel sockfd request total bytesleft os)).
Proof.
  revert total bytesleft os. induction fuel as [|fuel IH]; intros total bytesleft os; [done|].
  cbn [send_loop]. case_if; [|done]. mstep.
  pose proof (sys_send_frame sockfd (drop (Z.to_nat total) request) (size_t_of_int bytesleft) os) as Hf.
  destruct (sys_send _ _ _ os) as [n os1]. case_if; [done|]. eapply fd_frame_trans; [apply Hf|apply IH].
Qed.

Lemma recv_loop_frame fuel sockfd response os :
  fd_frame os (snd (recv_loop fuel sockfd response os)).
Proof.
  revert response os. induction fuel as [|fuel IH]; intros response os; [done|].
  cbn [recv_loop]. mstep. pose proof (sys_recv_frame sockfd 4095 os) as Hf.
  destruct (sys_recv sockfd 4095 os) as [[n buf] os1]. case_if; [|done].
  eapply fd_frame_trans; [apply Hf|apply IH].
Qed.

Lemma sendHttpRequest_frame sockfd request os : fd_frame os (snd (sendHttpRequest sockfd request os)).
Proof. apply send_loop_frame. Qed.

Lemma receiveHttpResponse_frame sockfd os : fd_frame os (snd (receiveHttpResponse sockfd os)).
Proof.
  unfold receiveHttpResponse. pose proof (recv_loop_frame (S (recv_budget (os_recv os))) sockfd [] os).
  by destruct (recv_loop _ _ _ _) as [[? ?] ?].
Qed.

(** [connect_loop] returns a descriptor when some address accepts both
    [socket] and [connect]. *)
Lemma connect_loop_some (servinfo : list Addr) (os : OS) :
  os_wf os → Exists (λ a, ai_socket_ok a = true ∧ ai_connect_ok a = true) servinfo →
  is_Some (fst (connect_loop servinfo os)).
Proof.
  intros Hwf Hex. revert os Hwf. induction Hex as [a servinfo [Hs Hc]|a servinfo _ IH]; intros os Hwf.
  - rewrite connect_loop_hit by done. by eexists.
  - connect_step a; [by eexists|by apply IH, os_wf_bump|by apply IH].
Qed.

(** [connect_loop] finds nothing when every address fails. *)
Lemma connect_loop_none (servinfo : list Addr) (os : OS) :
  os_wf os → Forall (λ a, ai_socket_ok a = false ∨ ai_connect_ok a = false) servinfo →
  fst (connect_loop servinfo os) = None.
Proof.
  intros Hwf Hfail. revert os Hwf. induction Hfail as [|a servinfo Ha Hfail IH]; intros os Hwf; [done|].
  connect_step a; [destruct Ha; congruence|by apply IH, os_wf_bump|by apply IH].
Qed.

Lemma receiveHttpResponse_legacy_frame sockfd os :
  fd_frame os (snd (receiveHttpResponse_legacy sockfd os)).
Proof.
  unfold receiveHttpResponse_legacy.
  pose proof (recv_loop_frame (S (recv_budget (os_recv os))) sockfd [] os).
  by destruct (recv_loop _ _ _ _) as [[? ?] ?].
Qed.

(** The functions of processing.cpp meet the interface's laws. *)
#[export] Instance processing_transport_laws : TransportLaws processing_transport.
Proof.
  split; simpl.
  - intros hostname port os fd os' Hwf E.
    destruct (createConnection_spec _ _ _ _ _ Hwf E) as (? & ? & _ & ?). done.
  - apply sendHttpRequest_frame.
  - apply receiveHttpResponse_frame.
Qed.

(** ** Properties *)

(** C15: socket.cpp's [createConnection] does not free the address list when
    no address connects: the count of live lists grows by one. *)
Theorem createConnection_socket_leak (hostname : str) (port : Z) (os : OS) (servinfo : list Addr) :
  os_wf os → os_resolve os hostname (show_Z port) = Some servinfo →
  Forall (λ a, ai_socket_ok a = false ∨ ai_connect_ok a = false) servinfo →
  fst (createConnection_socket hostname port os) = (-1)%Z ∧
  os_addrinfo (snd (createConnection_socket hostname port os)) = S (os_addrinfo os).
Proof.
  intros Hwf Hres Hfail. unfold createConnection_socket. mstep. unfold sys_getaddrinfo. rewrite Hres.
  fold (os_alloc os).
  pose proof (connect_loop_spec servinfo (os_alloc os) (os_wf_alloc _ Hwf)) as Hc.
  pose proof (connect_loop_none servinfo (os_alloc os) (os_wf_alloc _ Hwf) Hfail) as Hnone.
  destruct (connect_loop servinfo (os_alloc os)) as [p os2]. simpl in Hnone. subst p.
  destruct Hc as (_&Hai&_). simpl. by rewrite Hai.
Qed.

(** [sendHttpRequest] on a request shorter than 2^31 bytes (so that
    [int bytesleft = request.length()] does not wrap): the peer receives
    the first [k] bytes of the request for some [k], the function returns
    [true] exactly when [k] is the whole request, and it returns [true]
    whenever the descriptor is open and no [send] fails.  Only the wire and
    the [send] script change. *)
Theorem sendHttpRequest_spec (sockfd : Z) (request : str) (os : OS) :
  (Z.of_nat (length request) <= INT_MAX)%Z →
  ∃ k ns, (k <= length request)%nat ∧
    snd (sendHttpRequest sockfd request os) =
      mkOS (os_fds os) (os_next os) (os_addrinfo os) (os_resolve os) ns
           (os_wire os ++ take k request) (os_recv os) ∧
    (fst (sendHttpRequest sockfd request os) = true ↔ k = length request) ∧
    (sockfd ∈ os_fds os → Forall (λ n, 0 <= n)%Z (os_send os) →
     fst (sendHttpRequest sockfd request os) = true).
Proof.
  intros Hlen. unfold sendHttpRequest. rewrite to_int_small by (unfold INT_MIN; lia).
  pose proof (send_loop_spec (length (os_send os) + 2) sockfd request 0 os Hlen
                ltac:(lia) ltac:(lia)) as Hs.
  rewrite Z.sub_0_r in Hs. destruct (send_loop _ _ _ _ _ _) as [ok os'].
  destruct Hs as (k & ns & Hk & -> & Hok & Htrue). exists k, ns.
  rewrite drop_0, Nat.sub_0_r in *. split_and!; [lia|done|done|done].
Qed.

(** [receiveHttpResponse] on an open descriptor, when the data contains no
    NUL byte: the response is everything the peer sent before closing the
    connection or before the first [recv] error, which is dropped
    silently. *)
Theorem receiveHttpResponse_spec (sockfd : Z) (os : OS) :
  sockfd ∈ os_fds os → nul_free (os_recv os) →
  receiveHttpResponse sockfd os =
    (stream_data (os_recv os),
     mkOS (os_fds os) (os_next os) (os_addrinfo os) (os_resolve os) (os_send os) (os_wire os)
          (stream_rest (os_recv os))).
Proof.
  intros Hin Hn. unfold receiveHttpResponse. by rewrite recv_loop_spec by (done || lia).
Qed.

(** The older [receiveHttpResponse] of receive_request.cpp returns the
    empty string when the last [recv] failed, and the data otherwise. *)
Theorem receiveHttpResponse_legacy_spec (sockfd : Z) (os : OS) :
  sockfd ∈ os_fds os → nul_free (os_recv os) →
  fst (receiveHttpResponse_legacy sockfd os) =
    if (stream_status (os_recv os) =? -1)%Z then [] else stream_data (os_recv os).
Proof.
  intros Hin Hn. unfold receiveHttpResponse_legacy. by rewrite recv_loop_spec by (done || lia).
Qed.

(** C28: [response += buffer] reads the buffer as a C string: a NUL byte in
    the data ends what is kept of that [recv] call. *)
Theorem receiveHttpResponse_nul (sockfd : Z) (os : OS) (a b : str) :
  sockfd ∈ os_fds os → os_recv os = [Some (a ++ NUL :: b)] → NUL ∉ a →
  (length (a ++ NUL :: b) <= 4095)%nat →
  fst (receiveHttpResponse sockfd os) = a.
Proof.
  intros Hin Hr Ha Hlen. unfold receiveHttpResponse. rewrite Hr. cbn [recv_budget map sum_list].
  rewrite Nat.add_0_r. cbn [recv_loop]. mstep.
  rewrite (sys_recv_data _ _ _ [] os Hin Hr) by (rewrite take_ge by lia; by destruct a).
  rewrite take_ge, drop_ge by lia.
  destruct (Z.ltb_spec 0 (Z.of_nat (length (a ++ NUL :: b)))) as [_|]; [|rewrite length_app in *; simpl in *; lia].
  cbn [recv_loop id]. mstep. unfold sys_recv. cbn [os_fds os_recv]. rewrite decide_True by done.
  simpl. by rewrite c_str_nul.
Qed.

(** C29: The error path of the two receive loops.  When the peer's data
    (pieces [ds], none empty, no NUL byte) is followed by a failed [recv],
    processing.cpp's [receiveHttpResponse] returns all of [ds], the same
    text as when the peer closes after [ds]: the loop [while
    ((bytesReceived = recv(..)) > 0)] does not tell the error from the
    end of the stream, and nothing reports it.  receive_request.cpp's
    version checks [bytesReceived == -1] and throws away everything it
    received. *)
Theorem receive_error_paths (sockfd : Z) (os : OS) (ds : list str) (rest : list (option str)) :
  sockfd ∈ os_fds os → os_recv os = map Some ds ++ None :: rest →
  Forall (λ d, d ≠ [] ∧ NUL ∉ d) ds → nul_free rest →
  (receiveHttpResponse sockfd os).1 = mjoin ds ∧
  (receiveHttpResponse sockfd os).1 =
    (receiveHttpResponse sockfd (mkOS (os_fds os) (os_next os) (os_addrinfo os) (os_resolve os)
                                      (os_send os) (os_wire os) (map Some ds))).1 ∧
  (receiveHttpResponse_legacy sockfd os).1 = [].
Proof.
  intros Hin Hr Hds Hrest. apply Forall_and in Hds as [Hne Hnul].
  assert (Hn1 : nul_free (os_recv os)) by (rewrite Hr; apply nul_free_map_Some; [done|by constructor]).
  assert (Hn2 : nul_free (map Some ds))
    by (rewrite <- (app_nil_r (map Some ds)); apply nul_free_map_Some; [done|constructor]).
  rewrite !receiveHttpResponse_spec by done. rewrite receiveHttpResponse_legacy_spec by done.
  cbn [fst os_recv]. rewrite Hr.
  destruct (stream_map_Some ds (None :: rest) Hne) as [-> ->].
  destruct (stream_map_Some ds [] Hne) as [Hd2 _]. rewrite <- (app_nil_r (map Some ds)), Hd2.
  cbn. rewrite !app_nil_r. split_and!; done.
Qed.

(** ** Witnesses *)

(** A status line arrives, then the connection is reset. *)
Lemma receive_error_paths_witness :
  (receiveHttpResponse 3 (mkOS {[3%Z]} 4 0 (λ _ _, None) [] [] [Some ‹"HTTP/1.1 200 OK"›; None])).1 =
    ‹"HTTP/1.1 200 OK"› ∧
  (receiveHttpResponse_legacy 3 (mkOS {[3%Z]} 4 0 (λ _ _, None) [] [] [Some ‹"HTTP/1.1 200 OK"›; None])).1 = [].
Proof.
  assert (Hin : 3%Z ∈ os_fds (mkOS {[3%Z]} 4 0 (λ _ _, None) [] [] [Some ‹"HTTP/1.1 200 OK"›; None]))
    by (cbn; set_solver).
  assert (Hds : Forall (λ d, d ≠ [] ∧ NUL ∉ d) [‹"HTTP/1.1 200 OK"›])
    by (repeat constructor; [discriminate|vm_compute; intros H; repeat (inversion H as [|? ? ? H']; subst; clear H; rename H' into H)]).
  destruct (receive_error_paths 3 _ [‹"HTTP/1.1 200 OK"›] [] Hin eq_refl Hds (Forall_nil_2 _))
    as (H1 & _ & H3).
  split; [rewrite H1; reflexivity|exact H3].
Defined.

Lemma createConnection_socket_leak_witness :
  os_wf (mkOS ∅ 3 0 (λ _ _, Some [mkAddr false true; mkAddr true false]) [] [] []) ∧
  os_resolve (mkOS ∅ 3 0 (λ _ _, Some [mkAddr false true; mkAddr true false]) [] [] [])
    ‹"example.com"› (show_Z 80) = Some [mkAddr false true; mkAddr true false] ∧
  Forall (λ a, ai_socket_ok a = false ∨ ai_connect_ok a = false)
    [mkAddr false true; mkAddr true false] ∧
  fst (createConnection_socket ‹"example.com"› 80
         (mkOS ∅ 3 0 (λ _ _, Some [mkAddr false true; mkAddr true false]) [] [] [])) = (-1)%Z ∧
  os_addrinfo (snd (createConnection_socket ‹"example.com"› 80
         (mkOS ∅ 3 0 (λ _ _, Some [mkAddr false true; mkAddr true false]) [] [] []))) = 1%nat.
Proof.
  assert (H1 : os_wf (mkOS ∅ 3 0 (λ _ _, Some [mkAddr false true; mkAddr true false]) [] [] []))
    by (split; [simpl; lia|apply set_Forall_empty]).
  assert (H2 : Forall (λ a, ai_socket_ok a = false ∨ ai_connect_ok a = false)
                 [mkAddr false true; mkAddr true false]) by (repeat constructor; auto).
  exact (conj H1 (conj eq_refl (conj H2 (createConnection_socket_leak _ _ _ _ H1 eq_refl H2)))).
Defined.

Lemma receiveHttpResponse_nul_witness :
  (4 : Z) ∈ os_fds (mkOS {[4%Z]} 5 0 (λ _ _, None) [] [] [Some (‹"ab"› ++ NUL :: ‹"cd"›)]) ∧
  os_recv (mkOS {[4%Z]} 5 0 (λ _ _, None) [] [] [Some (‹"ab"› ++ NUL :: ‹"cd"›)]) =
    [Some (‹"ab"› ++ NUL :: ‹"cd"›)] ∧
  NUL ∉ ‹"ab"› ∧ (length (‹"ab"› ++ NUL :: ‹"cd"›) <= 4095)%nat ∧
  fst (receiveHttpResponse 4 (mkOS {[4%Z]} 5 0 (λ _ _, None) [] []
                                [Some (‹"ab"› ++ NUL :: ‹"cd"›)])) = ‹"ab"›.
Proof.
  assert (H1 : (4 : Z) ∈ os_fds (mkOS {[4%Z]} 5 0 (λ _ _, None) [] []
                                   [Some (‹"ab"› ++ NUL :: ‹"cd"›)])) by (simpl; set_solver).
  assert (H3 : NUL ∉ ‹"ab"›) by decide_concrete.
  assert (H4 : (length (‹"ab"› ++ NUL :: ‹"cd"›) <= 4095)%nat) by (simpl; lia).
  exact (conj H1 (conj eq_refl (conj H3 (conj H4 (receiveHttpResponse_nul _ _ _ _ H1 eq_refl H3 H4))))).
Defined.

Lemma receiveHttpResponse_legacy_spec_witness :
  (4 : Z) ∈ os_fds (mkOS {[4%Z]} 5 0 (λ _ _, None) [] [] [Some ‹"HTTP/1.1 200 OK"›; None]) ∧
  nul_free [Some ‹"HTTP/1.1 200 OK"›; None] ∧
  fst (receiveHttpResponse_legacy 4
         (mkOS {[4%Z]} 5 0 (λ _ _, None) [] [] [Some ‹"HTTP/1.1 200 OK"›; None])) = [].
Proof.
  assert (H1 : (4 : Z) ∈ os_fds (mkOS {[4%Z]} 5 0 (λ _ _, None) [] []
                                   [Some ‹"HTTP/1.1 200 OK"›; None])) by (simpl; set_solver).
  assert (H2 : nul_free [Some ‹"HTTP/1.1 200 OK"›; None]) by (repeat constructor; decide_concrete).
  exact (conj H1 (conj H2 (receiveHttpResponse_legacy_spec _ _ H1 H2))).
Defined.

(** The free functions do not: the [createConnection] of socket.cpp
    breaks the connection law, on a host whose one address refuses. *)
Theorem socket_transport_unlawful : ¬ TransportLaws socket_transport.
Proof.
  intros [Hc _ _].
  destruct (Hc ‹"example.com"› 80%Z (mkOS ∅ 3 0 (λ _ _, Some [mkAddr true false]) [] [] [])
              (-1)%Z (mkOS ∅ 4 1 (λ _ _, Some [mkAddr true false]) [] [] []))
    as (_ & Hai & _).
  - split; [simpl; lia|apply set_Forall_empty].
  - vm_compute. reflexivity.
  - discriminate.
Qed.
