(* ===== verification/Client.v ===== *)
(** * The client: [makeHttpRequest] and [get] (processing.cpp, lines 142-170 and 206-229)

    [makeHttpRequest] composes the operating-system calls of [Net] with the
    request text of [Request] and the parser of [Parse]: connect, send the
    request, drain the socket, close it, parse.  [get] splits a URL of the
    form "hostname[:port]/path" and calls it with [std::stoi] for the port.
    The [SimpleHttpClient] object holds only [maxRedirects], which no
    other member reads. *)

From S2P Require Import Prelude StdString IStream Message Parse Request Net.

(** ** The object *)

Record SimpleHttpClient := mkSimpleHttpClient { maxRedirects : Z }.

(** [explicit SimpleHttpClient(int maxRedirects = 5)] *)
Definition SimpleHttpClient_new (maxRedirects : Z) : SimpleHttpClient :=
  mkSimpleHttpClient maxRedirects.
Definition SimpleHttpClient_default : SimpleHttpClient := SimpleHttpClient_new 5.

Definition setMaxRedirects (maxRedirects : Z) (c : SimpleHttpClient) : SimpleHttpClient :=
  mkSimpleHttpClient maxRedirects.
Definition getMaxRedirects (c : SimpleHttpClient) : Z := maxRedirects c.

(** ** [makeHttpRequest] *)

(** [HttpResponse response; response.isSuccess = false;
    response.errorMessage = msg; return response;] *)
Definition fail_response (msg : str) : HttpResponse :=
  set_errorMessage msg (set_isSuccess false HttpResponse_init).

(** Written against the [Transport] interface of [Net]; the program's own
    [makeHttpRequest] is this function at [processing_transport], the
    instance the member functions of processing.cpp form. *)
Definition makeHttpRequest `{Transport} (hostname path : str) (port : Z) (method : str)
    : M (option HttpResponse) :=
  sockfd ← transport_connect hostname port;
  if (sockfd =? -1)%Z then
    mret (Some (fail_response (‹"Failed to establish connection to "› ++ hostname)))
  else
    let request := formatHttpRequest hostname path method in
    sent ← transport_send sockfd request;
    if negb sent then
      _ ← sys_close sockfd;
      mret (Some (fail_response ‹"Failed to send HTTP request"›))
    else
      rawResponse ← transport_receive sockfd;
      _ ← sys_close sockfd;
      mret (parseHttpResponse rawResponse).

(** ** [get] *)

(** [size_t slashPos = url.find('/'); ...]: host part and path. *)
Definition split_url (url : str) : str * str :=
  match find_char "/"%char url with
  | None => (url, ‹"/"›)
  | Some slashPos => (substr 0 slashPos url, drop slashPos url)
  end.

(** The exceptions [get] lets escape, or the result of [makeHttpRequest]. *)
Definition get (url : str) : M (exn + option HttpResponse) :=
  let '(hostname, path) := split_url url in
  match find_char ":"%char hostname with
  | None => r ← makeHttpRequest hostname path 80 ‹"GET"›; mret (inr r)
  | Some colonPos =>
      match stoi (drop (colonPos + 1) hostname) with
      | inl e => mret (inl e)
      | inr port => r ← makeHttpRequest (substr 0 colonPos hostname) path port ‹"GET"›; mret (inr r)
      end
  end.

(** ** Lemmas *)

(** The program's transport: the member functions of processing.cpp. *)
Ltac unfold_transport := cbn [transport_connect transport_send transport_receive processing_transport].


Lemma sys_close_open (fd : Z) (os : OS) :
  fd ∈ os_fds os →
  sys_close fd os = (0%Z, mkOS (os_fds os ∖ {[fd]}) (os_next os) (os_addrinfo os) (os_resolve os)
                               (os_send os) (os_wire os) (os_recv os)).
Proof. intros Hin. unfold sys_close. by rewrite decide_True. Qed.

(** Closing the descriptor [createConnection] opened restores the
    descriptor set. *)
Lemma close_new_fd (fd : Z) (os0 os : OS) :
  os_wf os → fd ∉ os_fds os0 → os_fds os = {[fd]} ∪ os_fds os0 →
  let os' := snd (sys_close fd os) in
  os_fds os' = os_fds os0 ∧ os_addrinfo os' = os_addrinfo os ∧ os_wire os' = os_wire os ∧
  os_wf os'.
Proof.
  intros [Hn Hall] Hnew Hfds. rewrite sys_close_open by set_solver. simpl.
  assert (Hx : os_fds os ∖ {[fd]} = os_fds os0) by (rewrite Hfds; set_solver).
  rewrite Hx. split_and!; try done. split; [done|]. intros x Hx'. apply Hall. set_solver.
Qed.

Lemma createConnection_fail (hostname : str) (port : Z) (os : OS) :
  os_wf os →
  (os_resolve os hostname (show_Z port) = None ∨
   ∃ servinfo, os_resolve os hostname (show_Z port) = Some servinfo ∧
     Forall (λ a, ai_socket_ok a = false ∨ ai_connect_ok a = false) servinfo) →
  fst (createConnection hostname port os) = (-1)%Z.
Proof.
  intros Hwf [Hres | (servinfo & Hres & Hfail)].
  - unfold createConnection. mstep. unfold sys_getaddrinfo. by rewrite Hres.
  - rewrite (createConnection_resolved _ _ _ _ Hres). simpl.
    by rewrite (connect_loop_none servinfo _ (os_wf_alloc _ Hwf) Hfail).
Qed.

Lemma createConnection_ok (hostname : str) (port : Z) (os : OS) (servinfo : list Addr) :
  os_wf os → os_resolve os hostname (show_Z port) = Some servinfo →
  Exists (λ a, ai_socket_ok a = true ∧ ai_connect_ok a = true) servinfo →
  fst (createConnection hostname port os) ≠ (-1)%Z.
Proof.
  intros Hwf Hres Hex. rewrite (createConnection_resolved _ _ _ _ Hres). simpl.
  pose proof (connect_loop_some servinfo _ (os_wf_alloc _ Hwf) Hex) as [fd Hfd].
  pose proof (connect_loop_spec servinfo _ (os_wf_alloc _ Hwf)) as Hc.
  destruct (connect_loop servinfo (os_alloc os)) as [p os2]. simpl in Hfd |- *. subst p.
  destruct Hc as (_ & _ & _ & Hpos & _). simpl. lia.
Qed.

Lemma split_url_slash (h p : str) : "/"%char ∉ h → split_url (h ++ "/"%char :: p) = (h, "/"%char :: p).
Proof.
  intros Hh. unfold split_url. rewrite find_char_app by done. unfold substr.
  by rewrite drop_0, take_app_length, drop_app_length.
Qed.

Lemma split_url_none (h : str) : "/"%char ∉ h → split_url h = (h, ‹"/"›).
Proof. intros Hh. unfold split_url. by rewrite find_char_None. Qed.

(** The port part of a host name, read by [std::stoi]. *)
Lemma get_host_port (h rest p : str) (os : OS) :
  ":"%char ∉ h → "/"%char ∉ h → "/"%char ∉ rest →
  get (h ++ ":"%char :: rest ++ "/"%char :: p) os =
    match stoi rest with
    | inl e => (inl e, os)
    | inr port => let '(r, os') := makeHttpRequest h ("/"%char :: p) port ‹"GET"› os in (inr r, os')
    end.
Proof.
  intros Hc Hs Hr. unfold get. rewrite app_comm_cons, app_assoc, split_url_slash by set_solver.
  cbv zeta iota. rewrite find_char_app by done. unfold substr.
  rewrite drop_0, take_app_length. replace (length h + 1)%nat with (length (h ++ [":"%char])).
  2:{ rewrite length_app. simpl. lia. }
  rewrite (app_cons_app h rest), drop_app_length. destruct (stoi rest); [done|]. mstep.
  by destruct (makeHttpRequest _ _ _ _ os).
Qed.

(** ** Properties *)

Section lawful.
Context `{T : Transport} `{!TransportLaws T}.

(** C10: [makeHttpRequest] leaks nothing over any transport that meets the
    interface's laws: on every path, whatever the network does, the
    descriptors open afterwards are those open before, and the address
    list is freed. *)
Theorem makeHttpRequest_resources (hostname path : str) (port : Z) (method : str) (os : OS) :
  os_wf os →
  os_fds (snd (makeHttpRequest hostname path port method os)) = os_fds os ∧
  os_addrinfo (snd (makeHttpRequest hostname path port method os)) = os_addrinfo os ∧
  os_wf (snd (makeHttpRequest hostname path port method os)).
Proof.
  intros Hwf. unfold makeHttpRequest. mstep.
  destruct (transport_connect hostname port os) as [fd os1] eqn:E.
  destruct (connect_resources _ _ _ _ _ Hwf E)
    as (Hwf1 & Hai1 & [[-> Hf1] | (Hpos & Hnew & Hf1)]); [done|].
  destruct (Z.eqb_spec fd (-1)); [lia|].
  pose proof (send_frame fd (formatHttpRequest hostname path method) os1) as (F1 & N1 & A1).
  destruct (transport_send fd _ os1) as [sent os2]. simpl in F1, N1, A1.
  assert (Hwf2 : os_wf os2) by (apply (fd_frame_wf os1); [done|done]).
  destruct sent; cbn [negb].
  - pose proof (receive_frame fd os2) as (F2 & N2 & A2).
    destruct (transport_receive fd os2) as [raw os3]. simpl in F2, N2, A2.
    destruct (close_new_fd fd os os3 ltac:(by apply (fd_frame_wf os2)) Hnew ltac:(congruence))
      as (? & ? & _ & ?).
    mstep. destruct (sys_close fd os3). simpl in *. split_and!; congruence.
  - destruct (close_new_fd fd os os2 Hwf2 Hnew ltac:(congruence)) as (? & ? & _ & ?).
    mstep. destruct (sys_close fd os2). simpl in *. split_and!; congruence.
Qed.
End lawful.

(** C9: The exchange on a working network: when some address of the host
    accepts the connection, no [send] fails, the response contains no NUL
    byte and the request is shorter than 2^31 bytes, the peer receives
    exactly the text of [formatHttpRequest] and the result is the parse of
    everything the peer sent. *)
Theorem makeHttpRequest_exchange (hostname path : str) (port : Z) (method : str) (os : OS)
    (servinfo : list Addr) :
  os_wf os → os_resolve os hostname (show_Z port) = Some servinfo →
  Exists (λ a, ai_socket_ok a = true ∧ ai_connect_ok a = true) servinfo →
  Forall (λ n, 0 <= n)%Z (os_send os) → nul_free (os_recv os) →
  (Z.of_nat (length (formatHttpRequest hostname path method)) <= INT_MAX)%Z →
  fst (makeHttpRequest hostname path port method os) = parseHttpResponse (stream_data (os_recv os)) ∧
  os_wire (snd (makeHttpRequest hostname path port method os)) =
    os_wire os ++ formatHttpRequest hostname path method.
Proof.
  intros Hwf Hres Hex Hsend Hnul Hlen. unfold makeHttpRequest. unfold_transport. mstep.
  pose proof (createConnection_ok _ _ _ _ Hwf Hres Hex) as Hok.
  destruct (createConnection hostname port os) as [fd os1] eqn:E. simpl in Hok.
  destruct (createConnection_spec _ _ _ _ _ Hwf E)
    as (Hwf1 & _ & (Hr1 & Hs1 & Hw1 & Hv1) & [[? _] | (Hpos & Hnew & Hf1)]); [done|].
  destruct (Z.eqb_spec fd (-1)); [done|].
  destruct (sendHttpRequest_spec fd (formatHttpRequest hostname path method) os1 Hlen)
    as (k & ns & Hk & Hos2 & Hiff & Htrue).
  destruct (sendHttpRequest fd _ os1) as [sent os2]. simpl in Hos2, Hiff, Htrue.
  rewrite Htrue in Hiff |- * by (rewrite ?Hs1, ?Hf1; set_solver). subst os2. cbn [negb].
  rewrite receiveHttpResponse_spec by (simpl; rewrite ?Hv1, ?Hf1; set_solver || done).
  mstep. simpl. rewrite sys_close_open by (simpl; set_solver). simpl.
  rewrite Hw1, Hv1. destruct Hiff as [Hk' _]. rewrite Hk', take_ge by done. done.
Qed.

(** The connection error path: when the name does not resolve or no
    address accepts the connection, [makeHttpRequest] reports it and
    sends nothing. *)
Theorem makeHttpRequest_no_connection (hostname path : str) (port : Z) (method : str) (os : OS) :
  os_wf os →
  (os_resolve os hostname (show_Z port) = None ∨
   ∃ servinfo, os_resolve os hostname (show_Z port) = Some servinfo ∧
     Forall (λ a, ai_socket_ok a = false ∨ ai_connect_ok a = false) servinfo) →
  fst (makeHttpRequest hostname path port method os) =
    Some (fail_response (‹"Failed to establish connection to "› ++ hostname)) ∧
  os_wire (snd (makeHttpRequest hostname path port method os)) = os_wire os.
Proof.
  intros Hwf Hres. pose proof (createConnection_fail _ _ _ Hwf Hres) as Hfail.
  unfold makeHttpRequest. unfold_transport. mstep.
  destruct (createConnection hostname port os) as [fd os1] eqn:E. simpl in Hfail. subst fd.
  destruct (createConnection_spec _ _ _ _ _ Hwf E) as (_ & _ & (_ & _ & Hw1 & _) & _). done.
Qed.

(** [get] on the URL forms its comment names: "hostname/path" and
    "hostname" use port 80 (the latter with path "/"), and
    "hostname:port/path" uses the port written. *)
Theorem get_url (h p : str) (port : Z) (os : OS) :
  ":"%char ∉ h → "/"%char ∉ h → (INT_MIN <= port <= INT_MAX)%Z →
  get (h ++ "/"%char :: p) os =
    (let '(r, os') := makeHttpRequest h ("/"%char :: p) 80 ‹"GET"› os in (inr r, os')) ∧
  get h os = (let '(r, os') := makeHttpRequest h ‹"/"› 80 ‹"GET"› os in (inr r, os')) ∧
  get (h ++ ":"%char :: show_Z port ++ "/"%char :: p) os =
    (let '(r, os') := makeHttpRequest h ("/"%char :: p) port ‹"GET"› os in (inr r, os')).
Proof.
  intros Hc Hs Hport. split_and!.
  - unfold get. rewrite split_url_slash by done. cbv zeta iota. rewrite find_char_None by done.
    mstep. by destruct (makeHttpRequest _ _ _ _ os).
  - unfold get. rewrite split_url_none by done. cbv zeta iota. rewrite find_char_None by done.
    mstep. by destruct (makeHttpRequest _ _ _ _ os).
  - rewrite get_host_port by (done || by apply show_Z_notin).
    by rewrite <- (app_nil_r (show_Z port)), stoi_show.
Qed.

(** C27: A colon with no port number after it ("host:/path", and so any URL
    with a scheme, "http://host/path") makes [std::stoi] throw
    [std::invalid_argument], which [get] does not catch; no connection is
    attempted. *)
Theorem get_empty_port (h p : str) (os : OS) :
  ":"%char ∉ h → "/"%char ∉ h →
  get (h ++ ":"%char :: "/"%char :: p) os = (inl invalid_argument, os).
Proof. intros Hc Hs. exact (get_host_port h [] p os Hc Hs ltac:(set_solver)). Qed.

(** ** Witnesses *)

(** A server that answers "HTTP/1.1 200 OK\r\nContent-Type: text/plain\r\n\r\nhello"
    in two pieces, and a kernel that accepts the request in chunks of 10
    bytes. *)
Lemma makeHttpRequest_exchange_witness :
  os_wf (mkOS ∅ 3 0 (λ _ _, Some [mkAddr true false; mkAddr true true]) [10; 10; 10]%Z []
          [Some ‹"HTTP/1.1 200 OK"›; Some ([CR; LF] ++ ‹"Content-Type: text/plain"› ++
                                          CRLFCRLF ++ ‹"hello"›)]) ∧
  Exists (λ a, ai_socket_ok a = true ∧ ai_connect_ok a = true)
    [mkAddr true false; mkAddr true true] ∧
  Forall (λ n, 0 <= n)%Z [10; 10; 10]%Z ∧
  nul_free [Some ‹"HTTP/1.1 200 OK"›;
            Some ([CR; LF] ++ ‹"Content-Type: text/plain"› ++ CRLFCRLF ++ ‹"hello"›)] ∧
  (Z.of_nat (length (formatHttpRequest ‹"example.com"› ‹"/"› ‹"GET"›)) <= INT_MAX)%Z ∧
  fst (makeHttpRequest ‹"example.com"› ‹"/"› 80 ‹"GET"›
         (mkOS ∅ 3 0 (λ _ _, Some [mkAddr true false; mkAddr true true]) [10; 10; 10]%Z []
          [Some ‹"HTTP/1.1 200 OK"›; Some ([CR; LF] ++ ‹"Content-Type: text/plain"› ++
                                          CRLFCRLF ++ ‹"hello"›)])) =
    parseHttpResponse (‹"HTTP/1.1 200 OK"› ++ [CR; LF] ++ ‹"Content-Type: text/plain"› ++
                       CRLFCRLF ++ ‹"hello"›) ∧
  os_wire (snd (makeHttpRequest ‹"example.com"› ‹"/"› 80 ‹"GET"›
         (mkOS ∅ 3 0 (λ _ _, Some [mkAddr true false; mkAddr true true]) [10; 10; 10]%Z []
          [Some ‹"HTTP/1.1 200 OK"›; Some ([CR; LF] ++ ‹"Content-Type: text/plain"› ++
                                          CRLFCRLF ++ ‹"hello"›)]))) =
    [] ++ formatHttpRequest ‹"example.com"› ‹"/"› ‹"GET"›.
Proof.
  assert (H1 : os_wf (mkOS ∅ 3 0 (λ _ _, Some [mkAddr true false; mkAddr true true]) [10; 10; 10]%Z []
          [Some ‹"HTTP/1.1 200 OK"›; Some ([CR; LF] ++ ‹"Content-Type: text/plain"› ++
                                          CRLFCRLF ++ ‹"hello"›)]))
    by (split; [simpl; lia|apply set_Forall_empty]).
  assert (H2 : Exists (λ a, ai_socket_ok a = true ∧ ai_connect_ok a = true)
                 [mkAddr true false; mkAddr true true]) by (right; left; done).
  assert (H3 : Forall (λ n, 0 <= n)%Z [10; 10; 10]%Z) by (repeat constructor; lia).
  assert (H4 : nul_free [Some ‹"HTTP/1.1 200 OK"›;
            Some ([CR; LF] ++ ‹"Content-Type: text/plain"› ++ CRLFCRLF ++ ‹"hello"›)])
    by (repeat constructor; decide_concrete).
  assert (H5 : (Z.of_nat (length (formatHttpRequest ‹"example.com"› ‹"/"› ‹"GET"›)) <= INT_MAX)%Z)
    by (vm_compute; discriminate).
  exact (conj H1 (conj H2 (conj H3 (conj H4 (conj H5
    (makeHttpRequest_exchange ‹"example.com"› ‹"/"› 80 ‹"GET"› _ _ H1 eq_refl H2 H3 H4 H5)))))).
Defined.

Lemma makeHttpRequest_resources_witness :
  os_wf (mkOS {[0%Z]} 3 0 (λ _ _, Some [mkAddr true true]) [-1]%Z [] []) ∧
  os_fds (snd (makeHttpRequest ‹"example.com"› ‹"/"› 80 ‹"GET"›
                 (mkOS {[0%Z]} 3 0 (λ _ _, Some [mkAddr true true]) [-1]%Z [] []))) = {[0%Z]} ∧
  os_addrinfo (snd (makeHttpRequest ‹"example.com"› ‹"/"› 80 ‹"GET"›
                 (mkOS {[0%Z]} 3 0 (λ _ _, Some [mkAddr true true]) [-1]%Z [] []))) = 0%nat ∧
  os_wf (snd (makeHttpRequest ‹"example.com"› ‹"/"› 80 ‹"GET"›
                 (mkOS {[0%Z]} 3 0 (λ _ _, Some [mkAddr true true]) [-1]%Z [] []))).
Proof.
  assert (H : os_wf (mkOS {[0%Z]} 3 0 (λ _ _, Some [mkAddr true true]) [-1]%Z [] [])).
  { split; [simpl; lia|]. intros x Hx. simpl in *. apply elem_of_singleton in Hx. subst. lia. }
  exact (conj H (makeHttpRequest_resources _ _ _ _ _ H)).
Defined.

Lemma makeHttpRequest_no_connection_witness :
  os_wf (mkOS ∅ 3 0 (λ _ _, None) [] [] []) ∧
  fst (makeHttpRequest ‹"nowhere.invalid"› ‹"/"› 80 ‹"GET"› (mkOS ∅ 3 0 (λ _ _, None) [] [] [])) =
    Some (fail_response (‹"Failed to establish connection to "› ++ ‹"nowhere.invalid"›)) ∧
  os_wire (snd (makeHttpRequest ‹"nowhere.invalid"› ‹"/"› 80 ‹"GET"›
                  (mkOS ∅ 3 0 (λ _ _, None) [] [] []))) = [].
Proof.
  assert (H : os_wf (mkOS ∅ 3 0 (λ _ _, None) [] [] [])) by (split; [simpl; lia|apply set_Forall_empty]).
  exact (conj H (makeHttpRequest_no_connection _ _ _ _ _ H (or_introl eq_refl))).
Defined.

Lemma get_url_witness :
  ":"%char ∉ ‹"example.com"› ∧ "/"%char ∉ ‹"example.com"› ∧ (INT_MIN <= 8080 <= INT_MAX)%Z ∧
  get (‹"example.com"› ++ "/"%char :: ‹"index.html"›) (mkOS ∅ 3 0 (λ _ _, None) [] [] []) =
    (let '(r, os') := makeHttpRequest ‹"example.com"› ("/"%char :: ‹"index.html"›) 80 ‹"GET"›
                        (mkOS ∅ 3 0 (λ _ _, None) [] [] []) in (inr r, os')) ∧
  get ‹"example.com"› (mkOS ∅ 3 0 (λ _ _, None) [] [] []) =
    (let '(r, os') := makeHttpRequest ‹"example.com"› ‹"/"› 80 ‹"GET"›
                        (mkOS ∅ 3 0 (λ _ _, None) [] [] []) in (inr r, os')) ∧
  get (‹"example.com"› ++ ":"%char :: show_Z 8080 ++ "/"%char :: ‹"index.html"›)
      (mkOS ∅ 3 0 (λ _ _, None) [] [] []) =
    (let '(r, os') := makeHttpRequest ‹"example.com"› ("/"%char :: ‹"index.html"›) 8080 ‹"GET"›
                        (mkOS ∅ 3 0 (λ _ _, None) [] [] []) in (inr r, os')).
Proof.
  assert (H1 : ":"%char ∉ ‹"example.com"›) by decide_concrete.
  assert (H2 : "/"%char ∉ ‹"example.com"›) by decide_concrete.
  assert (H3 : (INT_MIN <= 8080 <= INT_MAX)%Z) by (unfold INT_MIN, INT_MAX; lia).
  exact (conj H1 (conj H2 (conj H3 (get_url _ ‹"index.html"› 8080 _ H1 H2 H3)))).
Defined.

(** "http://example.com/": the scheme is read as a host name "http" with
    an empty port. *)
Lemma get_empty_port_witness :
  ":"%char ∉ ‹"http"› ∧ "/"%char ∉ ‹"http"› ∧
  get ‹"http://example.com/"› (mkOS ∅ 3 0 (λ _ _, None) [] [] []) =
    (inl invalid_argument, mkOS ∅ 3 0 (λ _ _, None) [] [] []).
Proof.
  assert (H1 : ":"%char ∉ ‹"http"›) by decide_concrete.
  assert (H2 : "/"%char ∉ ‹"http"›) by decide_concrete.
  exact (conj H1 (conj H2 (get_empty_port ‹"http"› ‹"/example.com/"› _ H1 H2))).
Defined.
