(* ===== verification/Lifecycle.v ===== *)
(** * The life of one request as a transition system

    [makeHttpRequest] (processing.cpp, lines 142-170) at the program's own
    transport, cut at the system calls: connecting, each [send] of the
    loop of [sendHttpRequest] (lines 66-81), each [recv] of the loop of
    [receiveHttpResponse] (lines 83-94), the [close], and the value it
    returns.  A configuration is the point reached ([phase]) with the
    operating-system state; [step] is the transition relation, one rule
    per branch of the code; [createConnection] is one step (its own
    system calls are not separated).  The theorems show that every
    reachable configuration holds exactly the client's socket open between
    the connection and the [close]; that a request of 2^31 to 2^32 - 1
    bytes makes the first [send] read past the end of the string; and that
    a request of a positive multiple of 2^32 bytes, for which
    [int bytesleft] is 0, runs for ever.  Lemmas show that the functional
    model of [Client] is a run of the machine. *)

From S2P Require Import Prelude StdString IStream Message Parse Request Net Client.

(** Where the request stands: the local variables live at that point. *)
Inductive phase :=
  | Connecting
  | Sending (sockfd : Z) (total bytesleft : Z)
  | Receiving (sockfd : Z) (response : str)
  | Closing (sockfd : Z) (result : option HttpResponse)
  | Done (result : option HttpResponse).

Definition config : Type := phase * OS.

(** The socket a phase holds, if any. *)
Definition phase_socket (p : phase) : option Z :=
  match p with
  | Sending fd _ _ | Receiving fd _ | Closing fd _ => Some fd
  | Connecting | Done _ => None
  end.

(** A network for the examples: [example.com] resolves to one address
    that connects, the kernel takes the request in pieces of 16 bytes, and
    the server answers "HTTP/1.1 200 OK\r\n\r\nhello" in two pieces. *)
Definition example_os : OS :=
  mkOS ∅ 3 0 (λ _ _, Some [mkAddr true true]) [16; 16]%Z []
       [Some ‹"HTTP/1.1 200 OK"›; Some (CRLFCRLF ++ ‹"hello"›)].

(** A host name of 2^32 - 92 bytes: [GET /] to it is a request of
    exactly 2^32 bytes. *)
Definition wrap_host : str := repeat "a"%char (Z.to_nat (2 ^ 32 - 92)).

(** A host name of 2^31 - 92 bytes: [GET /] to it is a request of
    exactly 2^31 bytes, one more than [INT_MAX]. *)
Definition overread_host : str := repeat "a"%char (Z.to_nat (2 ^ 31 - 92)).

Section lifecycle.
Variables (hostname path : str) (port : Z) (method : str).

Local Notation request := (formatHttpRequest hostname path method).

Inductive step : config → config → Prop :=
  (** [if (sockfd == -1) return createErrorResponse(..)] *)
  | step_connect_fail os os' :
      createConnection hostname port os = ((-1)%Z, os') →
      step (Connecting, os)
           (Done (Some (fail_response (‹"Failed to establish connection to "› ++ hostname))), os')
  (** [int total = 0; int bytesleft = request.length();] *)
  | step_connect os sockfd os' :
      createConnection hostname port os = (sockfd, os') → sockfd ≠ (-1)%Z →
      step (Connecting, os) (Sending sockfd 0 (to_int (Z.of_nat (length request))), os')
  (** [n = send(..); total += n; bytesleft -= n;] *)
  | step_send sockfd total bytesleft os n os' :
      (size_t_of_int total <? N.of_nat (length request))%N = true →
      sys_send sockfd (drop (Z.to_nat total) request) (size_t_of_int bytesleft) os = (n, os') →
      n ≠ (-1)%Z →
      step (Sending sockfd total bytesleft, os) (Sending sockfd (total + n) (bytesleft - n), os')
  (** [if (n == -1) return false;], then [close(sockfd)] and the error. *)
  | step_send_error sockfd total bytesleft os os' :
      (size_t_of_int total <? N.of_nat (length request))%N = true →
      sys_send sockfd (drop (Z.to_nat total) request) (size_t_of_int bytesleft) os = ((-1)%Z, os') →
      step (Sending sockfd total bytesleft, os)
           (Closing sockfd (Some (fail_response ‹"Failed to send HTTP request"›)), os')
  (** The loop condition fails: [return true;]. *)
  | step_sent sockfd total bytesleft os :
      (size_t_of_int total <? N.of_nat (length request))%N = false →
      step (Sending sockfd total bytesleft, os) (Receiving sockfd [], os)
  (** [response += buffer;] *)
  | step_recv sockfd response os bytesReceived buffer os' :
      sys_recv sockfd 4095 os = ((bytesReceived, buffer), os') → (0 < bytesReceived)%Z →
      step (Receiving sockfd response, os) (Receiving sockfd (response ++ c_str buffer), os')
  (** The loop ends; [parseHttpResponse] is pure, so it is taken here. *)
  | step_recv_end sockfd response os bytesReceived buffer os' :
      sys_recv sockfd 4095 os = ((bytesReceived, buffer), os') → (bytesReceived <= 0)%Z →
      step (Receiving sockfd response, os) (Closing sockfd (parseHttpResponse response), os')
  (** [close(sockfd); return ..;] *)
  | step_close sockfd result os rc os' :
      sys_close sockfd os = (rc, os') →
      step (Closing sockfd result, os) (Done result, os').

(** The descriptors open at a configuration reached from [os0]: the
    initial ones, and the phase's socket. *)
Definition lifecycle_inv (os0 : OS) (c : config) : Prop :=
  let '(p, os) := c in
  os_wf os ∧ os_addrinfo os = os_addrinfo os0 ∧
  match phase_socket p with
  | Some fd => (0 <= fd)%Z ∧ fd ∉ os_fds os0 ∧ os_fds os = {[fd]} ∪ os_fds os0
  | None => os_fds os = os_fds os0
  end.

(** The arithmetic of the send loop: [total] bytes sent out of the
    request, [bytesleft] the rest. *)
Definition sending_inv (c : config) : Prop :=
  match c.1 with
  | Sending _ total bytesleft =>
      (0 <= total <= Z.of_nat (length request))%Z ∧ bytesleft = (Z.of_nat (length request) - total)%Z
  | _ => True
  end.

(** An upper bound on the steps left: the scripted [send] results, the
    bytes still to send, the [recv] budget. *)
Definition lifecycle_measure (c : config) : nat :=
  let '(p, os) := c in
  match p with
  | Connecting => length (os_send os) + length request + recv_budget (os_recv os) + 4
  | Sending _ total _ =>
      length (os_send os) + Z.to_nat (Z.of_nat (length request) - total) + recv_budget (os_recv os) + 3
  | Receiving _ _ => recv_budget (os_recv os) + 2
  | Closing _ _ => 1
  | Done _ => 0
  end.

(** The send loop asked for no byte at a time by a peer whose [send]
    results are all non-negative (it never reports an error). *)
Definition zero_window (fd total bytesleft : Z) (c : config) : Prop :=
  ∃ os, c = (Sending fd total bytesleft, os) ∧ fd ∈ os_fds os ∧ Forall (Z.le 0) (os_send os).

(** ** The system calls one step makes *)

Lemma sys_send_cases (fd : Z) (buf : str) (count : N) (os : OS) (n : Z) (os' : OS) :
  sys_send fd buf count os = (n, os') →
  os_recv os' = os_recv os ∧
  (n = (-1)%Z ∨
   (0 <= n)%Z ∧ (Z.to_nat n <= Nat.min (N.to_nat count) (length buf))%nat ∧
   (length (os_send os') < length (os_send os) ∨
    os_send os = [] ∧ os_send os' = [] ∧ Z.to_nat n = Nat.min (N.to_nat count) (length buf)))%nat.
Proof.
  unfold sys_send. case_decide; [|intros [= <- <-]; by split; [|left]].
  destruct (os_send os) as [|m ns]; simpl.
  - intros [= <- <-]; simpl. split; [done|right]. rewrite Nat2Z.id.
    split; [lia|split; [lia|by right]].
  - case_if; intros [= <- <-]; simpl; (split; [done|]); [by left|right]. rewrite Nat2Z.id.
    split; [lia|split; [lia|left; simpl; lia]].
Qed.

Lemma sys_recv_progress (fd : Z) (cap : nat) (os : OS) (n : Z) (buf : str) (os' : OS) :
  sys_recv fd cap os = ((n, buf), os') → (0 < n)%Z → (0 < cap)%nat →
  os_send os' = os_send os ∧ (recv_budget (os_recv os') < recv_budget (os_recv os))%nat.
Proof.
  unfold sys_recv. case_decide; [|intros [= <- _ _]; lia].
  destruct (os_recv os) as [|[d|] rs] eqn:Hr; [intros [= <- _ _]; lia| |intros [= <- _ _]; lia].
  destruct (take cap d) as [|c t] eqn:Ht; [intros [= <- _ _]; lia|].
  intros [= _ _ <-] _ Hcap; simpl. split; [done|].
  apply recv_budget_split; [|done]. intros ->. by rewrite take_nil in Ht.
Qed.

(** ** Shape of the relation *)

(** [send] asked for no byte sends none and takes the next result of
    the script. *)
Lemma sys_send_nothing (fd : Z) (buf : str) (os : OS) :
  fd ∈ os_fds os → Forall (Z.le 0) (os_send os) →
  sys_send fd buf 0 os = (0%Z, mkOS (os_fds os) (os_next os) (os_addrinfo os) (os_resolve os)
                                     (tail (os_send os)) (os_wire os) (os_recv os)).
Proof.
  intros Hin Hs. unfold sys_send. rewrite decide_True by done.
  destruct (os_send os) as [|n ns]; simpl; [by rewrite app_nil_r|].
  apply Forall_inv in Hs. destruct (Z.ltb_spec n 0); [lia|]. by rewrite Nat.min_0_r, app_nil_r.
Qed.

Lemma step_deterministic : deterministic step.
Proof.
  intros c c1 c2 H1 H2.
  destruct H1; inversion H2; subst; simplify_eq; try congruence;
    match goal with
    | H : ?e = ?a, H' : ?e = ?b |- _ => assert_fails (constr_eq a b); rewrite H in H'; simplify_eq
    end; done || lia.
Qed.

(** Only a finished request has no step: the machine never gets stuck. *)
Lemma step_progress (c : config) : (∃ r, c.1 = Done r) ∨ red step c.
Proof.
  destruct c as [p os]. destruct p as [|fd total bl|fd resp|fd r|r]; [..|left; by eexists].
  all: right.
  - destruct (createConnection hostname port os) as [fd os'] eqn:Hc.
    destruct (decide (fd = (-1)%Z)) as [->|]; eexists; by econstructor.
  - destruct (size_t_of_int total <? N.of_nat (length request))%N eqn:Hlt; [|eexists; by econstructor].
    destruct (sys_send fd (drop (Z.to_nat total) request) (size_t_of_int bl) os) as [n os'] eqn:Hs.
    destruct (decide (n = (-1)%Z)) as [->|]; eexists; by econstructor.
  - destruct (sys_recv fd 4095 os) as [[n buf] os'] eqn:Hr.
    destruct (decide (0 < n)%Z); eexists; (econstructor; [done|lia]).
  - destruct (sys_close fd os) as [rc os'] eqn:Hc. eexists; by econstructor.
Qed.

(** ** Resources *)

Lemma lifecycle_inv_frame (os0 : OS) (p p' : phase) (os os' : OS) :
  phase_socket p' = phase_socket p → fd_frame os os' →
  lifecycle_inv os0 (p, os) → lifecycle_inv os0 (p', os').
Proof.
  intros Hp Hf (Hwf & Hai & Hfd). destruct Hf as (Hfds & Hnext & Hai').
  split_and!; [by eapply fd_frame_wf|congruence|].
  rewrite Hp, Hfds. done.
Qed.

Lemma step_inv (os0 : OS) (c c' : config) :
  lifecycle_inv os0 c → step c c' → lifecycle_inv os0 c'.
Proof.
  intros Hinv Hs. destruct Hs as [os os' Hc|os fd os' Hc Hfd| | | | | |fd r os rc os' Hc].
  1,2: cbn [lifecycle_inv phase_socket] in Hinv |- *; destruct Hinv as (Hwf & Hai & Hfds);
       destruct (createConnection_spec _ _ _ _ _ Hwf Hc) as (Hwf' & Hai' & _ & [[? ?]|(? & ? & ?)]);
       (split; [done|split; [congruence|]]); first [congruence|lia|split_and!; [lia|set_solver..]].
  all: try (eapply lifecycle_inv_frame; [done| |exact Hinv];
            match goal with
            | H : sys_send ?a ?b ?n ?d = _ |- _ => pose proof (sys_send_frame a b n d) as Hf; rewrite H in Hf
            | H : sys_recv ?a ?b ?d = _ |- _ => pose proof (sys_recv_frame a b d) as Hf; rewrite H in Hf
            | _ => pose proof (fd_frame_refl os) as Hf
            end; exact Hf).
  - destruct Hinv as (Hwf & Hai & Hge & Hnew & Hfds).
    pose proof (close_new_fd fd os0 os Hwf Hnew Hfds) as (H1 & H2 & _ & H3).
    rewrite Hc in H1, H2, H3. simpl in *. split_and!; congruence.
Qed.

(** ** Termination *)

(** The loop condition and the count passed to [send] while [total] stays
    within a request that fits in an [int]. *)
Lemma send_window (len : nat) (total : Z) :
  (Z.of_nat len <= INT_MAX)%Z → (0 <= total <= Z.of_nat len)%Z →
  ((size_t_of_int total <? N.of_nat len)%N = true ↔ (total < Z.of_nat len)%Z) ∧
  N.to_nat (size_t_of_int (Z.of_nat len - total)) = Z.to_nat (Z.of_nat len - total).
Proof.
  unfold INT_MAX. intros. rewrite !size_t_of_int_small by lia. rewrite Z_N_nat.
  split; [|done]. rewrite N.ltb_lt, N2Z.inj_lt, Z2N.id by lia. lia.
Qed.

Lemma step_measure (os0 : OS) (c c' : config) :
  (Z.of_nat (length request) <= INT_MAX)%Z →
  lifecycle_inv os0 c ∧ sending_inv c → step c c' →
  (lifecycle_inv os0 c' ∧ sending_inv c') ∧ lifecycle_measure c' < lifecycle_measure c.
Proof.
  intros Hmax [Hinv Hsend] Hs. pose proof (step_inv os0 c c' Hinv Hs) as Hinv'.
  destruct Hs as [os os' Hc|os fd os' Hc Hfd|fd total bl os n os' Hlt Hs Hn|fd total bl os os' Hlt Hs
                 | |fd resp os n buf os' Hr Hn| | ]; cbn [sending_inv lifecycle_measure fst] in *;
    try (split; [by split|lia]).
  - destruct Hinv as (Hwf & _).
    destruct (createConnection_spec _ _ _ _ _ Hwf Hc) as (_ & _ & (_ & Hs & _ & Hr) & _).
    rewrite to_int_small by (unfold INT_MIN; lia). rewrite Hs, Hr. split; [split; [done|lia]|lia].
  - destruct Hsend as [Ht ->]. destruct (send_window _ total Hmax Ht) as [Hw Hcnt].
    apply Hw in Hlt. destruct (sys_send_cases _ _ _ _ _ _ Hs) as [Hr [?|(Hn0 & Hle & Hcase)]]; [done|].
    rewrite Hcnt, length_drop in Hle, Hcase. rewrite Hr. split; [split; [done|lia]|].
    destruct Hcase as [?|(-> & -> & ?)]; simpl; lia.
  - destruct (sys_recv_progress _ _ _ _ _ _ Hr Hn) as [_ Hb]; [lia|]. split; [by split|lia].
Qed.

(** A send loop asked for no byte steps, and only to itself. *)
Lemma zero_window_step (fd total bytesleft : Z) (c : config) :
  (size_t_of_int total <? N.of_nat (length request))%N = true → size_t_of_int bytesleft = 0%N →
  zero_window fd total bytesleft c → red step c ∧ ∀ c', step c c' → zero_window fd total bytesleft c'.
Proof.
  intros Hlt H0 (os & -> & Hin & Hs).
  pose proof (sys_send_nothing fd (drop (Z.to_nat total) request) os Hin Hs) as Hsend.
  rewrite <- H0 in Hsend. split; [eexists; by eapply step_send|].
  intros c' Hst. inversion Hst as [| |? ? ? ? n os' _ Hn|? ? ? ? ? _ Hn|? ? ? ? Hge| | |]; subst.
  - rewrite Hsend in Hn. injection Hn as <- <-. rewrite Z.add_0_r, Z.sub_0_r.
    eexists. split_and!; [reflexivity|done|]. destruct (os_send os); [constructor|by inversion Hs].
  - by rewrite Hsend in Hn.
  - by rewrite Hlt in Hge.
Qed.

Lemma done_nf (r : option HttpResponse) (os : OS) : nf step (Done r, os).
Proof. intros [c Hs]. inversion Hs. Qed.

Lemma sn_reaches_done (c : config) : sn step c → ∃ r os', rtc step c (Done r, os').
Proof.
  induction 1 as [c _ IH].
  destruct (step_progress c) as [[r Hr]|[c' Hs]].
  - destruct c as [p os]. simpl in Hr. subst. by exists r, os.
  - destruct (IH c' Hs) as (r & os' & Hrun). exists r, os'. by eapply rtc_l.
Qed.

Lemma lifecycle_reachable_inv (os0 : OS) (c : config) :
  os_wf os0 → rtc step (Connecting, os0) c → lifecycle_inv os0 c.
Proof.
  intros Hwf. apply (rtc_ind_r (lifecycle_inv os0) (Connecting, os0)); [done|].
  intros c1 c2 _ Hs Hinv. by eapply step_inv.
Qed.

Lemma lifecycle_reachable_measure (os0 : OS) (c : config) :
  os_wf os0 → (Z.of_nat (length request) <= INT_MAX)%Z →
  rtc step (Connecting, os0) c → lifecycle_inv os0 c ∧ sending_inv c.
Proof.
  intros Hwf Hmax. apply (rtc_ind_r (λ c, lifecycle_inv os0 c ∧ sending_inv c)); [done|].
  intros c1 c2 _ Hs Hinv. by apply (step_measure os0 c1 c2 Hmax Hinv Hs).
Qed.

(** ** The functional model is a run of the machine *)

Lemma send_loop_steps (sockfd : Z) (fuel : nat) (total : Z) (os : OS) :
  (Z.of_nat (length request) <= INT_MAX)%Z → (0 <= total <= Z.of_nat (length request))%Z →
  (length (os_send os) + Nat.min 1 (Z.to_nat (Z.of_nat (length request) - total)) < fuel)%nat →
  let '(ok, os') := send_loop fuel sockfd request total (Z.of_nat (length request) - total) os in
  rtc step (Sending sockfd total (Z.of_nat (length request) - total), os)
      (if ok then Receiving sockfd []
       else Closing sockfd (Some (fail_response ‹"Failed to send HTTP request"›)), os').
Proof.
  revert total os. induction fuel as [|fuel IH]; intros total os Hmax Ht Hfuel; [lia|].
  destruct (send_window _ total Hmax Ht) as [Hw Hcnt]. cbn [send_loop].
  destruct (size_t_of_int total <? N.of_nat (length request))%N eqn:Hlt;
    [|mstep; apply rtc_once; by constructor].
  mstep. destruct (sys_send sockfd (drop (Z.to_nat total) request)
                    (size_t_of_int (Z.of_nat (length request) - total)) os) as [n os1] eqn:Hs.
  destruct (Z.eqb_spec n (-1)) as [->|Hn]; [apply rtc_once; by constructor|].
  pose proof (proj1 Hw eq_refl) as Hlt'.
  destruct (sys_send_cases _ _ _ _ _ _ Hs) as [_ [?|(Hn0 & Hle & Hcase)]]; [done|].
  rewrite Hcnt, length_drop in Hle, Hcase.
  assert (Hf : (length (os_send os1) +
                Nat.min 1 (Z.to_nat (Z.of_nat (length request) - (total + n))) < fuel)%nat)
    by (destruct Hcase as [?|(Hs0 & -> & ?)]; [lia|rewrite Hs0 in Hfuel; cbn [length] in *; lia]).
  pose proof (IH (total + n)%Z os1 Hmax ltac:(lia) Hf) as IH'.
  replace (Z.of_nat (length request) - total - n)%Z with (Z.of_nat (length request) - (total + n))%Z
    by lia.
  destruct (send_loop fuel sockfd request (total + n) (Z.of_nat (length request) - (total + n)) os1).
  eapply rtc_l; [|exact IH'].
  replace (Z.of_nat (length request) - (total + n))%Z with (Z.of_nat (length request) - total - n)%Z
    by lia.
  by apply step_send.
Qed.

Lemma recv_loop_steps (sockfd : Z) (fuel : nat) (response : str) (os : OS) :
  (recv_budget (os_recv os) < fuel)%nat →
  let '((_, response'), os') := recv_loop fuel sockfd response os in
  rtc step (Receiving sockfd response, os) (Closing sockfd (parseHttpResponse response'), os').
Proof.
  revert response os. induction fuel as [|fuel IH]; intros response os Hfuel; [lia|].
  cbn [recv_loop]. mstep.
  destruct (sys_recv sockfd 4095 os) as [[n buf] os1] eqn:Hr.
  destruct (Z.ltb_spec 0 n) as [Hn|Hn].
  - destruct (sys_recv_progress _ _ _ _ _ _ Hr Hn) as [_ Hb]; [lia|].
    pose proof (IH (response ++ c_str buf) os1 ltac:(lia)) as IH'.
    destruct (recv_loop fuel sockfd (response ++ c_str buf) os1) as [[? ?] ?].
    eapply rtc_l; [|exact IH']. by eapply step_recv.
  - apply rtc_once. by eapply step_recv_end.
Qed.

Lemma makeHttpRequest_run (os : OS) :
  (Z.of_nat (length request) <= INT_MAX)%Z →
  let '(r, os') := makeHttpRequest hostname path port method os in
  rtc step (Connecting, os) (Done r, os').
Proof.
  intros Hmax. unfold makeHttpRequest. unfold_transport. mstep.
  destruct (createConnection hostname port os) as [fd os1] eqn:Hc.
  destruct (Z.eqb_spec fd (-1)) as [->|Hfd]; [apply rtc_once; by constructor|].
  assert (Hint : to_int (Z.of_nat (length request)) = Z.of_nat (length request))
    by (apply to_int_small; unfold INT_MIN in *; lia).
  unfold sendHttpRequest. rewrite Hint.
  pose proof (send_loop_steps fd (length (os_send os1) + 2) 0 os1 Hmax ltac:(lia) ltac:(lia))
    as Hsend.
  rewrite Z.sub_0_r in Hsend.
  destruct (send_loop _ fd request 0 _ os1) as [[|] os2]; cbn [negb].
  - unfold receiveHttpResponse.
    pose proof (recv_loop_steps fd (S (recv_budget (os_recv os2))) [] os2 ltac:(lia)) as Hrecv.
    destruct (recv_loop _ fd [] os2) as [[n resp] os3]. destruct (sys_close fd os3) eqn:?.
    eapply rtc_l; [by apply step_connect|]. rewrite Hint.
    eapply rtc_trans; [exact Hsend|]. eapply rtc_trans; [exact Hrecv|].
    apply rtc_once. by econstructor.
  - destruct (sys_close fd os2) eqn:?.
    eapply rtc_l; [by apply step_connect|]. rewrite Hint.
    eapply rtc_trans; [exact Hsend|]. apply rtc_once. by econstructor.
Qed.

(** What [makeHttpRequest] leaves behind: the descriptors it found, no
    live address list. *)
Lemma makeHttpRequest_fds (os : OS) :
  os_wf os → (Z.of_nat (length request) <= INT_MAX)%Z →
  let os' := (makeHttpRequest hostname path port method os).2 in
  os_wf os' ∧ os_addrinfo os' = os_addrinfo os ∧ os_fds os' = os_fds os.
Proof.
  intros Hwf Hmax. pose proof (makeHttpRequest_run os Hmax) as Hrun.
  destruct (makeHttpRequest hostname path port method os) as [r os'].
  exact (lifecycle_reachable_inv os (Done r, os') Hwf Hrun).
Qed.

(** ** Properties of the lifecycle *)

(** C11: Invariant of the request lifecycle, by induction on the run: in
    every configuration reachable from a well-formed state, the state is
    well formed, no [addrinfo] list is live, and the open descriptors are
    the initial ones plus, between the connection and the [close], the
    client's socket: a new, non-negative descriptor. *)
Theorem lifecycle_resources (os0 : OS) (p : phase) (os : OS) :
  os_wf os0 → rtc step (Connecting, os0) (p, os) →
  os_wf os ∧ os_addrinfo os = os_addrinfo os0 ∧
  match phase_socket p with
  | Some fd => (0 <= fd)%Z ∧ fd ∉ os_fds os0 ∧ os_fds os = {[fd]} ∪ os_fds os0
  | None => os_fds os = os_fds os0
  end.
Proof.
  intros Hwf Hrun. exact (lifecycle_reachable_inv os0 (p, os) Hwf Hrun).
Qed.

(** C14: A request whose length is a positive multiple of 2^32 never
    finishes: [int bytesleft] holds 0, every [send] is asked for no byte,
    [total] stays 0 and the loop [while (total < request.length())]
    spins for ever on a peer that never reports an error.  Every
    configuration reached from the start still steps, and none of them is
    strongly normalising. *)
Theorem lifecycle_diverges_wrap (os : OS) (fd : Z) (os' : OS) :
  os_wf os → createConnection hostname port os = (fd, os') → fd ≠ (-1)%Z →
  Forall (Z.le 0) (os_send os') → (Z.of_nat (length request) mod 2 ^ 32 = 0)%Z →
  ¬ sn step (Connecting, os) ∧ ∀ c, rtc step (Connecting, os) c → red step c.
Proof.
  intros Hwf Hc Hfd Hs Hmod.
  destruct (createConnection_spec _ _ _ _ _ Hwf Hc) as (_ & _ & _ & [[? _]|(_ & _ & Hfds)]); [done|].
  assert (H0 : size_t_of_int (to_int (Z.of_nat (length request))) = 0%N)
    by (rewrite size_t_of_to_int, Hmod; reflexivity).
  assert (Hlt : (size_t_of_int 0 <? N.of_nat (length request))%N = true)
    by (apply N.ltb_lt; rewrite formatHttpRequest_length; change (size_t_of_int 0) with 0%N; lia).
  set (P c := c = (Connecting, os) ∨ zero_window fd 0 (to_int (Z.of_nat (length request))) c).
  assert (HP : ∀ c, P c → red step c ∧ ∀ c', step c c' → P c').
  { intros c [->|Hz].
    - split; [eexists; by eapply step_connect|]. intros c' Hst.
      inversion Hst; subst; rewrite Hc in *; simplify_eq; try done.
      right. eexists. split_and!; [reflexivity|rewrite Hfds; set_solver|done].
    - destruct (zero_window_step _ _ _ _ Hlt H0 Hz) as [Hr Hc']. split; [done|].
      intros c' Hst. right. by apply Hc'. }
  split.
  - apply (closed_not_sn step P); [intros x Hx; by apply HP|intros x y Hx; by apply HP|by left].
  - intros c Hrtc. apply HP, (closed_rtc step P (λ x y Hx, proj2 (HP x Hx) y) (Connecting, os)); [by left|done].
Qed.

(** C12: Termination of the send loop of [sendHttpRequest]: when the
    request fits in an [int], the run from every reachable configuration
    of the loop leaves it by one of its two exits, the loop condition
    [total < request.length()] failing (on to receiving, nothing received
    yet) or a failed [send] (on to closing with the send error).  The
    claim is about the send phase only: the receive loop ends because
    every peer the model can express closes its connection. *)
Theorem send_loop_exits (os0 : OS) (fd total bytesleft : Z) (os : OS) :
  os_wf os0 → (Z.of_nat (length request) <= INT_MAX)%Z →
  rtc step (Connecting, os0) (Sending fd total bytesleft, os) →
  ∃ os', rtc step (Sending fd total bytesleft, os) (Receiving fd [], os') ∨
         rtc step (Sending fd total bytesleft, os)
             (Closing fd (Some (fail_response ‹"Failed to send HTTP request"›)), os').
Proof.
  intros Hwf Hmax Hr. pose proof (lifecycle_reachable_measure _ _ Hwf Hmax Hr) as HP. clear Hr.
  remember (lifecycle_measure (Sending fd total bytesleft, os)) as m eqn:Hm.
  revert total bytesleft os Hm HP. induction (lt_wf m) as [m _ IH]. intros total bytesleft os -> HP.
  destruct (step_progress (Sending fd total bytesleft, os)) as [[r Hr]|[c' Hs]]; [done|].
  destruct (step_measure os0 _ _ Hmax HP Hs) as [HP' Hlt].
  inversion Hs as [| |? ? ? ? n os' _ _ _|? ? ? ? os' _ _|? ? ? ? _| | |]; subst.
  - destruct (IH _ Hlt (total + n)%Z (bytesleft - n)%Z os' eq_refl HP') as (os'' & [H|H]);
      exists os''; [left|right]; by eapply rtc_l.
  - exists os'. right. by apply rtc_once.
  - exists os. left. by apply rtc_once.
Qed.

(** C13: [int bytesleft = request.length()] and the call [send(sockfd,
    request.c_str() + total, bytesleft, 0)]: for a request of [L] bytes,
    2^31 <= L < 2^32, connecting leads to the send loop with a negative
    [bytesleft], and the first [send] is asked for 2^64 - 2^32 + L bytes,
    more than the [L] bytes of the string: the call may read far past its
    end.  A [size_t bytesleft] would pass [L]. *)
Theorem send_count_overread (os : OS) (fd : Z) (os' : OS) :
  createConnection hostname port os = (fd, os') → fd ≠ (-1)%Z →
  (2 ^ 31 <= Z.of_nat (length request) < 2 ^ 32)%Z →
  ∃ bytesleft, step (Connecting, os) (Sending fd 0 bytesleft, os') ∧
    size_t_of_int bytesleft = Z.to_N (2 ^ 64 - 2 ^ 32 + Z.of_nat (length request)) ∧
    (N.of_nat (length request) < size_t_of_int bytesleft)%N ∧
    ∀ c', step (Sending fd 0 bytesleft, os') c' →
      ∃ n, sys_send fd request (size_t_of_int bytesleft) os' = (n, c'.2).
Proof.
  intros Hc Hfd Hr. exists (to_int (Z.of_nat (length request))).
  assert (Hb : size_t_of_int (to_int (Z.of_nat (length request))) =
               Z.to_N (2 ^ 64 - 2 ^ 32 + Z.of_nat (length request))).
  { rewrite size_t_of_to_int, Z.mod_small by lia.
    destruct (Z.ltb_spec (Z.of_nat (length request)) (2 ^ 31)); [lia|done]. }
  split_and!; [by eapply step_connect|exact Hb|rewrite Hb; lia|].
  intros c' Hst. inversion Hst as [| |? ? ? ? n ? _ Hs|? ? ? ? ? _ Hs|? ? ? ? Hge| | |]; subst;
    change (Z.to_nat 0) with 0%nat in *; try rewrite drop_0 in Hs.
  - by exists n.
  - by exists (-1)%Z.
  - apply N.ltb_ge in Hge. change (size_t_of_int 0) with 0%N in Hge. lia.
Qed.

End lifecycle.

(** [GET /] to a host of [n] bytes is a request of [n + 92] bytes. *)
Lemma repeat_host_length (n : nat) :
  Z.of_nat (length (formatHttpRequest (repeat "a"%char n) ‹"/"› ‹"GET"›)) = (Z.of_nat n + 92)%Z.
Proof.
  rewrite formatHttpRequest_length, repeat_length.
  change (length ‹"GET"›) with 3%nat. change (length ‹"/"›) with 1%nat. lia.
Qed.

(** The request for this host is 2^32 bytes long. *)
Lemma wrap_host_length : (Z.of_nat (length (formatHttpRequest wrap_host ‹"/"› ‹"GET"›)) = 2 ^ 32)%Z.
Proof. unfold wrap_host. rewrite repeat_host_length. lia. Qed.

(** The request for this host is 2^31 bytes long. *)
Lemma overread_host_length :
  (Z.of_nat (length (formatHttpRequest overread_host ‹"/"› ‹"GET"›)) = 2 ^ 31)%Z.
Proof. unfold overread_host. rewrite repeat_host_length. lia. Qed.

(** On [example_os] the connection does not depend on the host name. *)
Lemma createConnection_example_os (h : str) :
  createConnection h 80 example_os = createConnection ‹"example.com"› 80 example_os.
Proof. reflexivity. Qed.

(** The configuration after connecting on [example_os]: descriptor 3 is
    the client's socket. *)
Lemma lifecycle_resources_witness :
  os_wf example_os ∧
  rtc (step ‹"example.com"› ‹"/"› 80 ‹"GET"›) (Connecting, example_os)
      (Sending 3 0 (to_int (Z.of_nat (length (formatHttpRequest ‹"example.com"› ‹"/"› ‹"GET"›)))),
       snd (createConnection ‹"example.com"› 80 example_os)) ∧
  os_fds (snd (createConnection ‹"example.com"› 80 example_os)) = {[3%Z]} ∪ os_fds example_os.
Proof.
  assert (Hwf : os_wf example_os) by (split; [simpl; lia|apply set_Forall_empty]).
  assert (Hrun : rtc (step ‹"example.com"› ‹"/"› 80 ‹"GET"›) (Connecting, example_os)
      (Sending 3 0 (to_int (Z.of_nat (length (formatHttpRequest ‹"example.com"› ‹"/"› ‹"GET"›)))),
       snd (createConnection ‹"example.com"› 80 example_os)))
    by (apply rtc_once, step_connect; [vm_compute; reflexivity|discriminate]).
  exact (conj Hwf (conj Hrun
    (proj2 (proj2 (proj2 (proj2 (lifecycle_resources _ _ _ _ _ _ _ Hwf Hrun))))))).
Defined.

(** The 4 GiB request to a host of [example_os], whose [send] accepts
    16 bytes twice and then everything it is given, never finishes. *)
Lemma lifecycle_diverges_wrap_witness :
  ¬ sn (step wrap_host ‹"/"› 80 ‹"GET"›) (Connecting, example_os).
Proof.
  assert (Hwf : os_wf example_os) by (split; [simpl; lia|apply set_Forall_empty]).
  pose proof (createConnection_example_os wrap_host) as Hc.
  destruct (createConnection ‹"example.com"› 80 example_os) as [fd os'] eqn:He.
  vm_compute in He. injection He as <- <-.
  assert (Hs : Forall (Z.le 0) [16; 16]%Z) by (repeat constructor; lia).
  assert (Hmod : (Z.of_nat (length (formatHttpRequest wrap_host ‹"/"› ‹"GET"›)) mod 2 ^ 32 = 0)%Z)
    by (rewrite wrap_host_length; reflexivity).
  exact (proj1 (lifecycle_diverges_wrap wrap_host ‹"/"› 80 ‹"GET"› example_os 3 _ Hwf Hc ltac:(discriminate) Hs Hmod)).
Defined.

(** On [example_os] the loop sends the request (16 bytes, 16 bytes, then
    the rest) and goes on to receive. *)
Lemma send_loop_exits_witness :
  ∃ os', rtc (step ‹"example.com"› ‹"/"› 80 ‹"GET"›)
    (Sending 3 0 (to_int (Z.of_nat (length (formatHttpRequest ‹"example.com"› ‹"/"› ‹"GET"›)))),
     snd (createConnection ‹"example.com"› 80 example_os)) (Receiving 3 [], os') ∨
    rtc (step ‹"example.com"› ‹"/"› 80 ‹"GET"›)
    (Sending 3 0 (to_int (Z.of_nat (length (formatHttpRequest ‹"example.com"› ‹"/"› ‹"GET"›)))),
     snd (createConnection ‹"example.com"› 80 example_os))
    (Closing 3 (Some (fail_response ‹"Failed to send HTTP request"›)), os').
Proof.
  assert (Hwf : os_wf example_os) by (split; [simpl; lia|apply set_Forall_empty]).
  assert (Hmax : (Z.of_nat (length (formatHttpRequest ‹"example.com"› ‹"/"› ‹"GET"›)) <= INT_MAX)%Z)
    by (vm_compute; discriminate).
  assert (Hrun : rtc (step ‹"example.com"› ‹"/"› 80 ‹"GET"›) (Connecting, example_os)
      (Sending 3 0 (to_int (Z.of_nat (length (formatHttpRequest ‹"example.com"› ‹"/"› ‹"GET"›)))),
       snd (createConnection ‹"example.com"› 80 example_os)))
    by (apply rtc_once, step_connect; [vm_compute; reflexivity|discriminate]).
  exact (send_loop_exits _ _ _ _ _ _ _ _ _ Hwf Hmax Hrun).
Defined.

(** The 2^31-byte request to a host of [example_os]: the first [send] is
    asked for 2^64 - 2^31 bytes. *)
Lemma send_count_overread_witness :
  ∃ bytesleft os', step overread_host ‹"/"› 80 ‹"GET"› (Connecting, example_os) (Sending 3 0 bytesleft, os') ∧
    size_t_of_int bytesleft = Z.to_N (2 ^ 64 - 2 ^ 31).
Proof.
  pose proof (createConnection_example_os overread_host) as Hc.
  destruct (createConnection ‹"example.com"› 80 example_os) as [fd os'] eqn:He.
  vm_compute in He. injection He as <- <-.
  assert (Hr : (2 ^ 31 <= Z.of_nat (length (formatHttpRequest overread_host ‹"/"› ‹"GET"›)) < 2 ^ 32)%Z)
    by (rewrite overread_host_length; lia).
  destruct (send_count_overread overread_host ‹"/"› 80 ‹"GET"› example_os 3 _ Hc ltac:(discriminate) Hr)
    as (b & Hst & Hb & _ & _).
  eexists b, _. split; [exact Hst|]. rewrite Hb, overread_host_length. reflexivity.
Defined.
