(* ===== verification/Legacy.v ===== *)
(** * The older response code of src/src/request/receive_request.cpp

    [receive_request.cpp] has its own [HttpResponse] struct (lines 15-21:
    no constructor, no [isSuccess], no [errorMessage]), its own
    [parseHttpResponse] (lines 44-107) and [printHttpResponse] (lines
    110-132); [receive_request_demo.cpp] drives them.  The parser differs
    from the one of processing.cpp: it never checks the status line, does
    not lower the header keys, does not decode chunked bodies, and leaves
    [statusCode] uninitialised when there is no header/body separator or
    no status code.  An uninitialised [int] is [None] here; reading it
    ([printHttpResponse] prints it) is undefined behaviour, so the printer
    returns [None] on it.

    [std::map] iterates in increasing key order, comparing [char]s as
    [unsigned char]; the printer sorts the map's entries with that order. *)

From stdpp Require Import sorting.
From S2P Require Import Prelude StdString IStream Message StatusLine Headers Parse.

Record LegacyHttpResponse := mkLegacyHttpResponse {
  l_httpVersion : str;
  l_statusCode : option Z;
  l_reasonPhrase : str;
  l_headers : gmap str str;
  l_body : str
}.

(** [HttpResponse response;]: the strings and the map are empty, the
    [int] has no value. *)
Definition LegacyHttpResponse_init : LegacyHttpResponse :=
  mkLegacyHttpResponse [] None [] ∅ [].

(** [statusStream >> response.httpVersion >> response.statusCode;] then the
    reason-phrase loop.  After a failed extraction the stream reads nothing
    more, so the loop leaves the phrase empty; a failed [int] extraction
    still stores 0 or the clamped value, one that meets end of input
    stores nothing. *)
Definition legacy_status_line (line : str) (r : LegacyHttpResponse) : LegacyHttpResponse :=
  match extract_string line with
  | XOk ver rest =>
      match extract_int rest with
      | XOk code rest' =>
          mkLegacyHttpResponse ver (Some code) (reason_loop (S (length rest')) rest' [])
                               (l_headers r) (l_body r)
      | XFail v => mkLegacyHttpResponse ver (Some v) [] (l_headers r) (l_body r)
      | XEof => mkLegacyHttpResponse ver (l_statusCode r) [] (l_headers r) (l_body r)
      end
  | _ => mkLegacyHttpResponse (l_httpVersion r) (l_statusCode r) [] (l_headers r) (l_body r)
  end.

(** The split of a header line: the key as written, the trimmed value. *)
Definition legacy_entry (line : str) : option (str * str) :=
  match find_char ":"%char line with
  | Some colonPos => Some (take colonPos line, trim_value (drop (S colonPos) line))
  | None => None
  end.

(** [if (colonPos != npos) { ...; response.headers[key] = value; }] *)
Definition legacy_header_line (line : str) (r : LegacyHttpResponse) : LegacyHttpResponse :=
  match legacy_entry line with
  | Some (key, value) =>
      mkLegacyHttpResponse (l_httpVersion r) (l_statusCode r) (l_reasonPhrase r)
                           (<[key := value]> (l_headers r)) (l_body r)
  | None => r
  end.

(** [while (std::getline(headerStream, line)) { ... }] *)
Fixpoint legacy_header_loop (lines : list str) (isFirstLine : bool) (r : LegacyHttpResponse)
    : LegacyHttpResponse :=
  match lines with
  | [] => r
  | l :: ls =>
      let line := strip_cr l in
      if isFirstLine then legacy_header_loop ls false (legacy_status_line line r)
      else legacy_header_loop ls false (legacy_header_line line r)
  end.

Definition parseHttpResponse_legacy (rawResponse : str) : LegacyHttpResponse :=
  match find_sub CRLFCRLF rawResponse with
  | None => LegacyHttpResponse_init
  | Some headerEndPos =>
      let headerSection := substr 0 headerEndPos rawResponse in
      legacy_header_loop (getlines headerSection) true
        (mkLegacyHttpResponse [] None [] ∅ (drop (headerEndPos + 4) rawResponse))
  end.

(** ** [printHttpResponse] *)

(** [std::string] ordering: lexicographic on [unsigned char]. *)
Fixpoint str_leb (s t : str) : bool :=
  match s, t with
  | [], _ => true
  | _ :: _, [] => false
  | c :: s', d :: t' =>
      if (N_of_ascii c <? N_of_ascii d)%N then true
      else if (N_of_ascii c =? N_of_ascii d)%N then str_leb s' t' else false
  end.

Definition entry_le (e1 e2 : str * str) : Prop := str_leb e1.1 e2.1 = true.

#[export] Instance entry_le_dec (e1 e2 : str * str) : Decision (entry_le e1 e2).
Proof. unfold entry_le. apply _. Defined.

(** The entries of a [std::map] in iteration order. *)
Definition map_entries (m : gmap str str) : list (str * str) :=
  merge_sort entry_le (map_to_list m).

Definition printHttpResponse (r : LegacyHttpResponse) : option str :=
  code ← l_statusCode r;
  Some (endl ++ ‹"=== HTTP Response ==="› ++ endl ++
        ‹"Status: "› ++ l_httpVersion r ++ ‹" "› ++ show_Z code ++ ‹" "› ++ l_reasonPhrase r ++
        endl ++ endl ++ ‹"Headers:"› ++ endl ++
        mjoin (map (λ e, ‹"  "› ++ e.1 ++ ‹": "› ++ e.2 ++ endl) (map_entries (l_headers r))) ++
        endl ++ ‹"Body length: "› ++ show_N 10 (N.of_nat (length (l_body r))) ++ ‹" bytes"› ++ endl ++
        (if decide (l_body r = []) then []
         else endl ++ ‹"Body preview:"› ++ endl ++ take 500 (l_body r) ++
              (if (500 <? length (l_body r))%nat then ‹"... (truncated)"› else []) ++ endl)).

(** ** Lemmas *)

(** Where the status line parses, both parsers store the same fields. *)
Lemma legacy_status_agree (line : str) (r r' : HttpResponse) (lr : LegacyHttpResponse) :
  parseStatusLine line r = (true, r') →
  legacy_status_line line lr =
    mkLegacyHttpResponse (httpVersion r') (Some (statusCode r')) (reasonPhrase r')
                         (l_headers lr) (l_body lr).
Proof.
  unfold parseStatusLine, legacy_status_line.
  destruct (extract_string line) as [| |ver rest]; [done|done|].
  destruct (extract_int rest) as [|v|code rest']; intros H; by simplify_eq/=.
Qed.

Lemma legacy_entry_render (h : str * str) : header_ok h → legacy_entry (render_header h) = Some h.
Proof.
  destruct h as [k v]. intros (Hk & _ & _ & Hv & _). unfold legacy_entry, render_header. simpl.
  rewrite find_char_app by done. rewrite take_app_length.
  replace (drop (S (length k)) (k ++ ":"%char :: " "%char :: v)) with ([SP] ++ v ++ [])
    by (rewrite app_nil_r, app_cons_app, drop_app_length'; [done|rewrite length_app; simpl; lia]).
  rewrite trim_value_frame; [done|by repeat constructor|constructor|done].
Qed.

Lemma legacy_header_loop_rest (ls : list str) (r : LegacyHttpResponse) :
  legacy_header_loop ls false r = foldl (λ r l, legacy_header_line l r) r (map strip_cr ls).
Proof. revert r. induction ls as [|l ls IH]; intros r; [done|]. simpl. by rewrite IH. Qed.

Lemma legacy_header_fold_render (hs : list (str * str)) (r : LegacyHttpResponse) :
  Forall header_ok hs →
  foldl (λ r l, legacy_header_line l r) r (map render_header hs) =
    mkLegacyHttpResponse (l_httpVersion r) (l_statusCode r) (l_reasonPhrase r)
      (foldl (λ m h, <[h.1 := h.2]> m) (l_headers r) hs) (l_body r).
Proof.
  intros Hall. revert r. induction Hall as [|h hs Hh _ IH]; intros r; [by destruct r|].
  cbn [map foldl]. rewrite IH. unfold legacy_header_line at 1 2 3 4 5.
  rewrite legacy_entry_render by done. by destruct h.
Qed.

(** A header section of good lines, its separator and a body. *)
Lemma legacy_parse_head (l0 : str) (hs : list (str * str)) (b : str) :
  l0 ≠ [] → Forall line_char l0 → Forall header_ok hs →
  parseHttpResponse_legacy (join_crlf (l0 :: map render_header hs) ++ CRLFCRLF ++ b) =
    let r := legacy_status_line l0 (mkLegacyHttpResponse [] None [] ∅ b) in
    mkLegacyHttpResponse (l_httpVersion r) (l_statusCode r) (l_reasonPhrase r)
      (foldl (λ m h, <[h.1 := h.2]> m) ∅ hs) b.
Proof.
  intros Hl0 Hc0 Hhs.
  assert (Hlines : Forall (λ l, l ≠ [] ∧ Forall line_char l) (l0 :: map render_header hs)).
  { constructor; [done|]. apply Forall_map. eapply Forall_impl; [done|].
    intros h Hh. by apply render_header_chars. }
  unfold parseHttpResponse_legacy. rewrite find_sub_head by done.
  unfold substr. rewrite drop_0, take_app_length, drop_app_add.
  change (drop 4 (CRLFCRLF ++ b)) with b.
  pose proof (getlines_join_crlf _ Hlines) as Hl.
  destruct (getlines _) as [|l0' ls]; [done|]. simpl in Hl. injection Hl as H0 Hls.
  simpl. rewrite H0, legacy_header_loop_rest, Hls, legacy_header_fold_render by done.
  unfold legacy_status_line.
  destruct (extract_string l0) as [| |? ?]; [done|done|]. by destruct (extract_int _).
Qed.

(** ** Properties *)

(** C30: The older parser on a well-formed response: the status line is read
    as by the newer one, but the header keys keep their case (the map has
    the keys as written, last value wins) and the body is stored as it
    arrived, even when the headers announce the chunked encoding. *)
Theorem legacy_parse_render (ver : str) (code : Z) (words : list str)
    (hs : list (str * str)) (b : str) :
  token ver → (INT_MIN <= code <= INT_MAX)%Z → Forall token words → Forall header_ok hs →
  parseHttpResponse_legacy (render_response ver code words hs b) =
    mkLegacyHttpResponse ver (Some code) (join_words words)
      (foldl (λ m h, <[h.1 := h.2]> m) ∅ hs) b.
Proof.
  intros Hv Hc Hws Hhs. destruct (render_status_line_chars ver code words Hv Hws) as [Hne Hlc].
  unfold render_response, render_head. rewrite legacy_parse_head by done.
  by rewrite (legacy_status_agree _ _ _ _ (parseStatusLine_render ver code words HttpResponse_init Hv Hc Hws)).
Qed.

(** C31: The older parser never rejects a status line: on the specification's
    malformed example "HTTP/1.1 OK" it stores the status code 0, an empty
    reason phrase, parses the headers that follow and reports nothing. *)
Theorem legacy_status_unchecked (hs : list (str * str)) (b : str) :
  Forall header_ok hs →
  parseHttpResponse_legacy (join_crlf (‹"HTTP/1.1 OK"› :: map render_header hs) ++ CRLFCRLF ++ b) =
    mkLegacyHttpResponse ‹"HTTP/1.1"› (Some 0%Z) [] (foldl (λ m h, <[h.1 := h.2]> m) ∅ hs) b.
Proof.
  intros Hhs. rewrite legacy_parse_head; [done|done|decide_concrete|done].
Qed.

(** C32: Without a header/body separator the older parser returns the struct
    as declared, [statusCode] uninitialised, and [printHttpResponse] then
    reads it: undefined behaviour. *)
Theorem legacy_no_separator_undefined (raw : str) :
  ¬ occurs CRLFCRLF raw → printHttpResponse (parseHttpResponse_legacy raw) = None.
Proof.
  intros Hn. unfold parseHttpResponse_legacy.
  destruct (find_sub CRLFCRLF raw) eqn:E; [|done].
  destruct Hn. apply find_sub_occurs. by rewrite E.
Qed.

(** ** Witnesses *)

Lemma legacy_parse_render_witness :
  token ‹"HTTP/1.1"› ∧ (INT_MIN <= 200 <= INT_MAX)%Z ∧ Forall token [‹"OK"›] ∧
  Forall header_ok [(‹"Content-Type"›, ‹"text/plain"›)] ∧
  parseHttpResponse_legacy
    (render_response ‹"HTTP/1.1"› 200 [‹"OK"›] [(‹"Content-Type"›, ‹"text/plain"›)] ‹"hello"›) =
    mkLegacyHttpResponse ‹"HTTP/1.1"› (Some 200%Z) ‹"OK"›
      {[ ‹"Content-Type"› := ‹"text/plain"› ]} ‹"hello"›.
Proof.
  assert (H1 : token ‹"HTTP/1.1"›) by decide_concrete.
  assert (H2 : (INT_MIN <= 200 <= INT_MAX)%Z) by (unfold INT_MIN, INT_MAX; lia).
  assert (H3 : Forall token [‹"OK"›]) by decide_concrete.
  assert (H4 : Forall header_ok [(‹"Content-Type"›, ‹"text/plain"›)]) by decide_concrete.
  refine (conj H1 (conj H2 (conj H3 (conj H4 _)))).
  rewrite (legacy_parse_render _ _ _ _ _ H1 H2 H3 H4). reflexivity.
Defined.

Lemma legacy_status_unchecked_witness :
  Forall header_ok [(‹"Server"›, ‹"demo"›)] ∧
  parseHttpResponse_legacy
    (join_crlf (‹"HTTP/1.1 OK"› :: map render_header [(‹"Server"›, ‹"demo"›)]) ++ CRLFCRLF ++
     ‹"body"›) =
    mkLegacyHttpResponse ‹"HTTP/1.1"› (Some 0%Z) [] {[ ‹"Server"› := ‹"demo"› ]} ‹"body"›.
Proof.
  assert (H : Forall header_ok [(‹"Server"›, ‹"demo"›)]) by decide_concrete.
  refine (conj H _). rewrite (legacy_status_unchecked _ _ H). reflexivity.
Defined.

Lemma legacy_no_separator_undefined_witness :
  ¬ occurs CRLFCRLF (‹"HTTP/1.1 200 OK"› ++ [CR; LF]) ∧
  printHttpResponse (parseHttpResponse_legacy (‹"HTTP/1.1 200 OK"› ++ [CR; LF])) = None.
Proof.
  assert (H : ¬ occurs CRLFCRLF (‹"HTTP/1.1 200 OK"› ++ [CR; LF])).
  { intros Ho. apply find_sub_occurs in Ho. vm_compute in Ho. by destruct Ho. }
  exact (conj H (legacy_no_separator_undefined _ H)).
Defined.
