(* ===== verification/Classify.v ===== *)
(** * Status classification (processing.cpp, lines 182-192 and 232-246)

    The four static predicates [isSuccessStatusCode] .. [isServerErrorStatusCode]
    and the order in which [processResponse] tries them:
    success, redirect, client error, server error, otherwise "Unknown
    status code range".  [isServerErrorStatusCode] has no upper bound. *)

From S2P Require Import Prelude IStream.

Definition isSuccessStatusCode (statusCode : Z) : bool :=
  (200 <=? statusCode)%Z && (statusCode <? 300)%Z.
Definition isRedirectStatusCode (statusCode : Z) : bool :=
  (300 <=? statusCode)%Z && (statusCode <? 400)%Z.
Definition isClientErrorStatusCode (statusCode : Z) : bool :=
  (400 <=? statusCode)%Z && (statusCode <? 500)%Z.
Definition isServerErrorStatusCode (statusCode : Z) : bool :=
  (500 <=? statusCode)%Z.

(** The handling paths of [processResponse]. *)
Inductive StatusClass := Success | Redirect | ClientError | ServerError | Unknown.

#[export] Instance StatusClass_eq_dec : EqDecision StatusClass.
Proof. solve_decision. Defined.

(** [if (isSuccessStatusCode(...)) ... else if (isRedirectStatusCode(...)) ...] *)
Definition classify (statusCode : Z) : StatusClass :=
  if isSuccessStatusCode statusCode then Success
  else if isRedirectStatusCode statusCode then Redirect
  else if isClientErrorStatusCode statusCode then ClientError
  else if isServerErrorStatusCode statusCode then ServerError
  else Unknown.

(** The range the specification gives each class (4.5). *)
Definition spec_class (c : Z) : StatusClass :=
  if (200 <=? c)%Z && (c <? 300)%Z then Success
  else if (300 <=? c)%Z && (c <? 400)%Z then Redirect
  else if (400 <=? c)%Z && (c <? 500)%Z then ClientError
  else if (500 <=? c)%Z && (c <? 600)%Z then ServerError
  else Unknown.

Ltac unfold_status :=
  unfold classify, spec_class, isSuccessStatusCode, isRedirectStatusCode,
    isClientErrorStatusCode, isServerErrorStatusCode.

(** ** Properties *)

(** The classes the dispatch assigns, range by range. *)
Theorem classify_ranges (c : Z) :
  (classify c = Success ↔ (200 <= c < 300)%Z) ∧
  (classify c = Redirect ↔ (300 <= c < 400)%Z) ∧
  (classify c = ClientError ↔ (400 <= c < 500)%Z) ∧
  (classify c = ServerError ↔ (500 <= c)%Z) ∧
  (classify c = Unknown ↔ (c < 200)%Z).
Proof. unfold_status. destruct_cmp; simpl; split_and!; split; intros; done || lia. Qed.

(** At most one predicate holds for any code, so the order of the tests in
    [processResponse] does not matter. *)
Theorem status_predicates_exclusive (c : Z) :
  length (filter (λ b : bool, b = true)
    [isSuccessStatusCode c; isRedirectStatusCode c; isClientErrorStatusCode c;
     isServerErrorStatusCode c]) <= 1.
Proof. unfold_status. destruct_cmp; simpl; lia. Qed.

(** C21: The code agrees with the specification's classes below 600 and
    classifies every code from 600 on as a server error, where the
    specification leaves them unclassified. *)
Theorem classify_vs_spec (c : Z) :
  classify c = if (c <? 600)%Z then spec_class c else ServerError.
Proof. unfold_status. destruct_cmp; simpl; done || lia. Qed.
