(* ===== verification/Output.v ===== *)
(** * Console output of a parsed response (processing.cpp, lines 172-196 and 329-430)

    [processResponse] prints either the error or a banner, the section of
    the handler its status class selects, the important headers and a
    description of the body.  Output to [std::cout] is modelled as the
    text written, one [str] per function, [std::endl] as "\n"; the
    non-ASCII symbols of the messages are their UTF-8 bytes, as the
    compiler stores them. *)

From S2P Require Import Prelude StdString IStream Message Classify.

Definition handleSuccessResponse (response : HttpResponse) : str :=
  ‹"✓ Success! Request completed successfully."› ++ endl ++
  match headers response !! ‹"content-type"› with
  | Some v => ‹"Content Type: "› ++ v ++ endl
  | None => []
  end.

Definition handleRedirectResponse (response : HttpResponse) : str :=
  ‹"↻ Redirect response."› ++ endl ++
  match headers response !! ‹"location"› with
  | Some v => ‹"Redirect location: "› ++ v ++ endl ++
              ‹"Note: This client doesn't automatically follow redirects."› ++ endl
  | None => []
  end.

Definition handleClientErrorResponse (response : HttpResponse) : str :=
  ‹"✗ Client Error."› ++ endl ++
  (if (statusCode response =? 400)%Z then ‹"Bad Request - The server couldn't understand the request."›
   else if (statusCode response =? 401)%Z then ‹"Unauthorized - Authentication required."›
   else if (statusCode response =? 403)%Z then ‹"Forbidden - Access denied."›
   else if (statusCode response =? 404)%Z then ‹"Not Found - The requested resource doesn't exist."›
   else ‹"Client error occurred."›) ++ endl.

Definition handleServerErrorResponse (response : HttpResponse) : str :=
  ‹"⚠ Server Error."› ++ endl ++
  (if (statusCode response =? 500)%Z then ‹"Internal Server Error - Something went wrong on the server."›
   else if (statusCode response =? 502)%Z then ‹"Bad Gateway - Invalid response from upstream server."›
   else if (statusCode response =? 503)%Z then ‹"Service Unavailable - Server temporarily unavailable."›
   else ‹"Server error occurred."›) ++ endl.

Definition importantHeaders : list str :=
  [‹"content-length"›; ‹"content-type"›; ‹"server"›; ‹"date"›;
   ‹"cache-control"›; ‹"set-cookie"›; ‹"location"›].

Definition displayImportantHeaders (response : HttpResponse) : str :=
  endl ++ ‹"Important Headers:"› ++ endl ++
  mjoin (map (λ headerName,
    match headers response !! headerName with
    | Some v => ‹"  "› ++ headerName ++ ‹": "› ++ v ++ endl
    | None => []
    end) importantHeaders).

(** [isText]: no Content-Type, or one that starts with "text/" or
    contains "application/json" or "application/xml". *)
Definition isText (response : HttpResponse) : bool :=
  match headers response !! ‹"content-type"› with
  | Some type =>
      bool_decide (find_sub ‹"text/"› type = Some 0%nat) ||
      bool_decide (is_Some (find_sub ‹"application/json"› type)) ||
      bool_decide (is_Some (find_sub ‹"application/xml"› type))
  | None => true
  end.

Definition displayBodyInfo (response : HttpResponse) : str :=
  endl ++ ‹"Response Body:"› ++ endl ++
  ‹"Length: "› ++ show_N 10 (N.of_nat (length (body response))) ++ ‹" bytes"› ++ endl ++
  (if decide (body response = []) then []
   else if isText response then
     endl ++ ‹"Content preview:"› ++ endl ++ take 300 (body response) ++
     (if (300 <? length (body response))%nat then endl ++ ‹"... (content truncated)"› else []) ++
     endl
   else ‹"Binary content (not displayed)"› ++ endl).

Definition processResponse (response : HttpResponse) : str :=
  if negb (isSuccess response) then ‹"Error: "› ++ errorMessage response ++ endl
  else
    endl ++ ‹"=== HTTP Response Processing ==="› ++ endl ++
    ‹"Status: "› ++ show_Z (statusCode response) ++ ‹" "› ++ reasonPhrase response ++ endl ++
    (if isSuccessStatusCode (statusCode response) then handleSuccessResponse response
     else if isRedirectStatusCode (statusCode response) then handleRedirectResponse response
     else if isClientErrorStatusCode (statusCode response) then handleClientErrorResponse response
     else if isServerErrorStatusCode (statusCode response) then handleServerErrorResponse response
     else ‹"Unknown status code range"› ++ endl) ++
    displayImportantHeaders response ++ displayBodyInfo response.

(** ** Properties *)

(** C33: However long the body, [displayBodyInfo] prints at most 300 bytes of
    it: its output is bounded by the fixed text, the digits of the length
    and 300. *)
Theorem displayBodyInfo_bounded (response : HttpResponse) :
  (length (displayBodyInfo response) <=
     374 + length (show_N 10 (N.of_nat (length (body response)))))%nat.
Proof.
  unfold displayBodyInfo. rewrite !length_app. cbn [length endl].
  pose proof (length_take (body response) 300) as Ht.
  case_decide; [simpl; lia|]. destruct (isText response); [|simpl; lia].
  rewrite !length_app. cbn [length]. destruct (300 <? length (body response))%nat; simpl; lia.
Qed.

