(* ===== verification/ClientApi.v ===== *)
(** * The public interface of [SimpleHttpClient] (processing.h, lines 46-167)

    processing.h declares the public members of the class and documents
    what each promises in its comment: a socket or -1, [true] exactly on
    success, the raw response, the redirect setting read back, the URL
    forms [get] accepts, the status ranges of the four predicates.
    [HttpClientApi] is that interface as a record of operations,
    [processing_api] its instance by the definitions of processing.cpp,
    and [HttpClientContract] the documented promises, stated for any
    implementation.  A client proved against the contract (Section
    [client]) holds of the program by [processing_api_contract].

    The contract holds the comments the code meets, and only those.  Two
    comments it does not meet are left out of it and shown elsewhere:
    - lines 162-167 say [isServerErrorStatusCode] is true in the 5xx
      range; the code is true for every code from 500 up
      ([Classify.classify_vs_spec]), so only "5xx implies true" is a
      clause here;
    - line 49 calls [maxRedirects] the maximum number of redirects to
      follow; no member reads it and no redirect is ever followed, so only
      the setter and getter of lines 122-132 are clauses here. *)

From S2P Require Import Prelude StdString IStream Message Parse Request Net Client Lifecycle Classify Output.

Record HttpClientApi := mkHttpClientApi {
  api_createConnection : str → Z → M Z;
  api_formatHttpRequest : str → str → str → str;
  api_sendHttpRequest : Z → str → M bool;
  api_receiveHttpResponse : Z → M str;
  api_parseHttpResponse : str → option HttpResponse;
  api_makeHttpRequest : str → str → Z → str → M (option HttpResponse);
  api_processResponse : HttpResponse → str;
  api_setMaxRedirects : Z → SimpleHttpClient → SimpleHttpClient;
  api_getMaxRedirects : SimpleHttpClient → Z;
  api_get : str → M (exn + option HttpResponse);
  api_isSuccessStatusCode : Z → bool;
  api_isRedirectStatusCode : Z → bool;
  api_isClientErrorStatusCode : Z → bool;
  api_isServerErrorStatusCode : Z → bool
}.

(** The member functions as processing.cpp defines them. *)
Definition processing_api : HttpClientApi := {|
  api_createConnection := createConnection;
  api_formatHttpRequest := formatHttpRequest;
  api_sendHttpRequest := sendHttpRequest;
  api_receiveHttpResponse := receiveHttpResponse;
  api_parseHttpResponse := parseHttpResponse;
  api_makeHttpRequest := makeHttpRequest;
  api_processResponse := processResponse;
  api_setMaxRedirects := setMaxRedirects;
  api_getMaxRedirects := getMaxRedirects;
  api_get := get;
  api_isSuccessStatusCode := isSuccessStatusCode;
  api_isRedirectStatusCode := isRedirectStatusCode;
  api_isClientErrorStatusCode := isClientErrorStatusCode;
  api_isServerErrorStatusCode := isServerErrorStatusCode
|}.

(** The promises of the comments of processing.h that the code keeps (see
    the file's header for the two it breaks), for requests that fit in an
    [int] and peers whose data holds no NUL byte. *)
Record HttpClientContract (a : HttpClientApi) : Prop := {
  (** "Socket file descriptor on success, -1 on failure" *)
  contract_connect : ∀ h port os, os_wf os →
    let '(fd, os') := api_createConnection a h port os in
    os_wf os' ∧ ((fd = (-1)%Z ∧ os_fds os' = os_fds os) ∨
                 ((0 <= fd)%Z ∧ fd ∉ os_fds os ∧ os_fds os' = {[fd]} ∪ os_fds os));
  (** "true on success, false on failure": the whole request is written *)
  contract_send : ∀ fd request os, (Z.of_nat (length request) <= INT_MAX)%Z →
    ((api_sendHttpRequest a fd request os).1 = true ↔
     os_wire (api_sendHttpRequest a fd request os).2 = os_wire os ++ request);
  (** "Raw HTTP response string": all the peer sends before closing *)
  contract_receive : ∀ fd os, fd ∈ os_fds os → nul_free (os_recv os) →
    (api_receiveHttpResponse a fd os).1 = stream_data (os_recv os);
  (** "Make a complete HTTP request": the socket is closed again *)
  contract_make : ∀ h p port m os, os_wf os →
    (Z.of_nat (length (api_formatHttpRequest a h p m)) <= INT_MAX)%Z →
    os_wf (api_makeHttpRequest a h p port m os).2 ∧
    os_fds (api_makeHttpRequest a h p port m os).2 = os_fds os;
  (** "Get the current maximum redirect setting" *)
  contract_redirects : ∀ n c, api_getMaxRedirects a (api_setMaxRedirects a n c) = n;
  (** "Full URL in format hostname/path": port 80 and [GET] *)
  contract_get : ∀ h p os, ":"%char ∉ h → "/"%char ∉ h →
    api_get a (h ++ "/"%char :: p) os =
      (let '(r, os') := api_makeHttpRequest a h ("/"%char :: p) 80 ‹"GET"› os in (inr r, os'));
  (** "true if status code is in 2xx / 3xx / 4xx range" *)
  contract_success : ∀ c, api_isSuccessStatusCode a c = true ↔ (200 <= c <= 299)%Z;
  contract_redirect : ∀ c, api_isRedirectStatusCode a c = true ↔ (300 <= c <= 399)%Z;
  contract_client_error : ∀ c, api_isClientErrorStatusCode a c = true ↔ (400 <= c <= 499)%Z;
  (** "true if status code is in 5xx range", the direction the code meets *)
  contract_server_error : ∀ c, (500 <= c <= 599)%Z → api_isServerErrorStatusCode a c = true
}.

(** ** Lemmas *)

Lemma range_spec (lo hi c : Z) : ((lo <=? c)%Z && (c <? hi + 1)%Z = true) ↔ (lo <= c <= hi)%Z.
Proof. rewrite andb_true_iff, Z.leb_le, Z.ltb_lt. lia. Qed.

(** A prefix of the request is all of it exactly when its length is. *)
Lemma wire_take (w request : str) (k : nat) :
  (k <= length request)%nat → (w ++ take k request = w ++ request ↔ k = length request).
Proof.
  intros Hk. split.
  - intros Heq. apply app_inv_head in Heq. rewrite <- Heq, length_take. lia.
  - intros ->. by rewrite take_ge.
Qed.

Section client.
Context (a : HttpClientApi) (Ha : HttpClientContract a).

(** A client of the interface: [get] on a URL [host/path] whose request
    fits in an [int] leaves the descriptors as they were. *)
Lemma api_get_fds (h p : str) (os : OS) :
  os_wf os → ":"%char ∉ h → "/"%char ∉ h →
  (Z.of_nat (length (api_formatHttpRequest a h ("/"%char :: p) ‹"GET"›)) <= INT_MAX)%Z →
  os_fds (api_get a (h ++ "/"%char :: p) os).2 = os_fds os.
Proof.
  intros Hwf Hc Hs Hmax. rewrite (contract_get a Ha h p os Hc Hs).
  destruct (contract_make a Ha h ("/"%char :: p) 80 ‹"GET"› os Hwf Hmax) as [_ Hfds].
  destruct (api_makeHttpRequest a h ("/"%char :: p) 80 ‹"GET"› os). exact Hfds.
Qed.

End client.

(** The member functions of processing.cpp are an implementation of the
    interface that meets the contract, so the clients of Section [client]
    hold of the program. *)
Lemma processing_api_contract : HttpClientContract processing_api.
Proof.
  split; cbn [api_createConnection api_formatHttpRequest api_sendHttpRequest api_receiveHttpResponse
              api_makeHttpRequest api_setMaxRedirects api_getMaxRedirects api_get
              api_isSuccessStatusCode api_isRedirectStatusCode api_isClientErrorStatusCode
              api_isServerErrorStatusCode processing_api].
  - intros h port os Hwf. destruct (createConnection h port os) as [fd os'] eqn:Hc.
    destruct (createConnection_spec _ _ _ _ _ Hwf Hc) as (? & _ & _ & ?). by split.
  - intros fd request os Hmax.
    destruct (sendHttpRequest_spec fd request os Hmax) as (k & ns & Hk & -> & Hiff & _).
    rewrite Hiff. cbn [os_wire]. symmetry. by apply wire_take.
  - intros fd os Hin Hn. by rewrite receiveHttpResponse_spec.
  - intros h p port m os Hwf Hmax.
    destruct (makeHttpRequest_fds h p port m os Hwf Hmax) as (? & _ & ?). by split.
  - done.
  - intros h p os Hc Hs. apply (get_url h p 80); [done|done|unfold INT_MIN, INT_MAX; lia].
  - intros c. apply (range_spec 200 299).
  - intros c. apply (range_spec 300 399).
  - intros c. apply (range_spec 400 499).
  - intros c Hc. unfold isServerErrorStatusCode. apply Z.leb_le. lia.
Qed.
