(* ===== verification/Console.v ===== *)
(** * A process: the operating system and the standard streams

    The demo programs and the free functions of socket.cpp,
    send_request.cpp and receive_request.cpp write to [std::cout] and
    [std::cerr] and read [std::cin].  A [World] adds those streams to the
    state [OS] of [Net]; [IO] is the monad of a process over it, in which
    [None] is undefined behaviour (the run has no meaning from there on).
    Standard error holds [piece]s: the program's own text, or the message
    the C library gives for an error code ([strerror(errno)],
    [gai_strerror(rv)]), whose wording is the library's.

    [io_refines m m'] says that the process [m] acts on the operating
    system as the computation [m'] of [M] and only appends to standard
    error: the logging versions of a function are refinements of the
    silent ones, and the relation is closed under the monad's operations. *)

From S2P Require Import Prelude StdString IStream Net.

Inductive piece :=
  | Text (s : str)
  | Strerror        (** [strerror(errno)] *)
  | Gai_strerror.   (** [gai_strerror(rv)] *)

Record World := mkWorld {
  w_os : OS;
  w_out : str;           (** written to [std::cout] so far *)
  w_err : list piece;    (** written to [std::cerr] so far *)
  w_in : str             (** still to be read from [std::cin] *)
}.

Definition IO (A : Type) : Type := World → option (A * World).

#[export] Instance IO_ret : MRet IO := λ A a w, Some (a, w).
#[export] Instance IO_bind : MBind IO := λ A B k m w,
  match m w with Some (a, w') => k a w' | None => None end.

(** A system call or a function of the client that does not print. *)
Definition lift {A} (m : M A) : IO A := λ w,
  let '(a, os') := m (w_os w) in Some (a, mkWorld os' (w_out w) (w_err w) (w_in w)).

(** Undefined behaviour: an [option] of the model that is [None]. *)
Definition defined {A} (o : option A) : IO A := λ w,
  match o with Some a => Some (a, w) | None => None end.

(** [std::cout << s] *)
Definition cout (s : str) : IO unit := λ w,
  Some ((), mkWorld (w_os w) (w_out w ++ s) (w_err w) (w_in w)).

(** [std::cerr << ...] *)
Definition cerr (ps : list piece) : IO unit := λ w,
  Some ((), mkWorld (w_os w) (w_out w) (w_err w ++ ps) (w_in w)).

(** [std::cin.get()]: the next [char] as an [unsigned char], or [EOF]. *)
Definition cin_get : IO Z := λ w,
  match w_in w with
  | [] => Some ((-1)%Z, w)
  | c :: rest => Some (Z.of_N (N_of_ascii c), mkWorld (w_os w) (w_out w) (w_err w) rest)
  end.

(** [m] runs as [m'] on the operating system, reads no input, writes
    nothing to [std::cout] and only appends to [std::cerr]. *)
Definition io_refines {A} (m : IO A) (m' : M A) : Prop :=
  ∀ w, ∃ err, m w = Some ((m' (w_os w)).1, mkWorld (m' (w_os w)).2 (w_out w) (w_err w ++ err) (w_in w)).

(** ** Lemmas *)

Ltac iostep := unfold mbind, mret, IO_bind, IO_ret, M_bind, M_ret, lift, cout, cerr, defined;
               cbv beta iota.

Lemma io_refines_lift {A} (m : M A) : io_refines (lift m) m.
Proof.
  intros w. exists []. unfold lift. destruct (m (w_os w)). by rewrite !app_nil_r.
Qed.

Lemma io_refines_ret {A} (a : A) : io_refines (mret a) (mret a).
Proof. intros [os o e i]. exists []. iostep. simpl. by rewrite !app_nil_r. Qed.

Lemma io_refines_cerr (ps : list piece) : io_refines (cerr ps) (mret ()).
Proof. intros [os o e i]. by exists ps. Qed.

Lemma io_refines_bind {A B} (m : IO A) (m' : M A) (k : A → IO B) (k' : A → M B) :
  io_refines m m' → (∀ a, io_refines (k a) (k' a)) → io_refines (m ≫= k) (m' ≫= k').
Proof.
  intros Hm Hk w. destruct (Hm w) as (e1 & Hw). unfold mbind, IO_bind, M_bind. rewrite Hw.
  destruct (m' (w_os w)) as [a os1]. simpl.
  destruct (Hk a (mkWorld os1 (w_out w) (w_err w ++ e1) (w_in w))) as (e2 & Hw2).
  rewrite Hw2. simpl. exists (e1 ++ e2). by rewrite !app_assoc.
Qed.

(** Output before a step that does not print. *)
Lemma io_refines_then_log {A} (ps : list piece) (m : IO A) (m' : M A) :
  io_refines m m' → io_refines (_ ← cerr ps; m) m'.
Proof.
  intros Hm. replace m' with (_ ← (mret () : M unit); m') by done.
  apply io_refines_bind; [apply io_refines_cerr|done].
Qed.

#[export] Hint Resolve io_refines_lift io_refines_ret io_refines_cerr : http.
