(* ===== verification/FreeFunctions.v ===== *)
(** * The free functions of socket.cpp, send_request.cpp and receive_request.cpp

    The demo programs of [src/src/socket] and [src/src/request] use free
    functions that predate the [SimpleHttpClient] class: [createConnection]
    (socket.cpp, lines 10-57), [formatHttpRequest] and [sendHttpRequest]
    (send_request.cpp, lines 11-28 and 31-49) and [receiveHttpResponse]
    and [parseHttpResponse] (receive_request.cpp, lines 24-41 and 44-52).
    Unlike the silent models of [Net] and [Legacy] they report errors on
    [std::cerr]; here they are processes of [Console].  The theorems show
    that each is a refinement of the silent model ([Console.io_refines]):
    it acts on the operating system as the model does and returns the same
    value, and the text of the request is the one processing.cpp writes. *)

From S2P Require Import Prelude StdString IStream Message Parse Request Net Legacy Console.

(** ** [formatHttpRequest] (send_request.cpp, lines 11-28) *)

(** A [std::stringstream] being written: [request << s] appends. *)
Definition ss_write (request : str) (s : str) : str := request ++ s.

(** The writes in the order of the source, then [request.str()]. *)
Definition formatHttpRequest_free (hostname path method : str) : str :=
  foldl ss_write []
    [method; ‹" "›; path; ‹" HTTP/1.1"› ++ [CR; LF];
     ‹"Host: "›; hostname; [CR; LF];
     ‹"User-Agent: SimpleHTTPClient/1.0"› ++ [CR; LF];
     ‹"Accept: */*"› ++ [CR; LF];
     ‹"Connection: close"› ++ [CR; LF];
     [CR; LF]].

(** ** [createConnection] (socket.cpp, lines 10-57) *)

(** The loop of lines 30-45, with its two messages. *)
Fixpoint connect_loop_free (servinfo : list Addr) : IO (option Z) :=
  match servinfo with
  | [] => mret None
  | p :: servinfo' =>
      sockfd ← lift (sys_socket p);
      if (sockfd =? -1)%Z then
        _ ← cerr [Text ‹"socket: "›; Strerror; Text endl]; connect_loop_free servinfo'
      else
        rc ← lift (sys_connect sockfd p);
        if (rc =? -1)%Z then
          _ ← lift (sys_close sockfd);
          _ ← cerr [Text ‹"connect: "›; Strerror; Text endl]; connect_loop_free servinfo'
        else mret (Some sockfd)
  end.

Definition createConnection_free (hostname : str) (port : Z) : IO Z :=
  rv ← lift (sys_getaddrinfo hostname (show_Z port));
  match rv with
  | None => _ ← cerr [Text ‹"getaddrinfo: "›; Gai_strerror; Text endl]; mret (-1)%Z
  | Some servinfo =>
      p ← connect_loop_free servinfo;
      match p with
      | None => _ ← cerr [Text (‹"Failed to connect"› ++ endl)]; mret (-1)%Z
      | Some sockfd => _ ← lift sys_freeaddrinfo; mret sockfd
      end
  end.

(** ** [sendHttpRequest] (send_request.cpp, lines 31-49) *)

Fixpoint send_loop_free (fuel : nat) (sockfd : Z) (request : str) (total bytesleft : Z) : IO bool :=
  match fuel with
  | O => mret false
  | S fuel' =>
      if (size_t_of_int total <? N.of_nat (length request))%N then
        n ← lift (sys_send sockfd (drop (Z.to_nat total) request) (size_t_of_int bytesleft));
        if (n =? -1)%Z then
          _ ← cerr [Text ‹"Error sending request: "›; Strerror; Text endl]; mret false
        else send_loop_free fuel' sockfd request (total + n)%Z (bytesleft - n)%Z
      else mret true
  end.

(** The fuel of [Net.sendHttpRequest]. *)
Definition sendHttpRequest_free (sockfd : Z) (request : str) : IO bool := λ w,
  send_loop_free (length (os_send (w_os w)) + 2) sockfd request 0%Z
                 (to_int (Z.of_nat (length request))) w.

(** ** [receiveHttpResponse] and [parseHttpResponse] (receive_request.cpp) *)

(** Lines 24-41: the loop of [Net.recv_loop], then the report of a failed
    [recv]. *)
Definition receiveHttpResponse_free (sockfd : Z) : IO str :=
  '(bytesReceived, response) ← lift (λ os, recv_loop (S (recv_budget (os_recv os))) sockfd [] os);
  if (bytesReceived =? -1)%Z then
    _ ← cerr [Text ‹"Error receiving response: "›; Strerror; Text endl]; mret []
  else mret response.

(** Lines 44-52: the message when the response has no header/body
    separator; the rest is [Legacy.parseHttpResponse_legacy]. *)
Definition parseHttpResponse_free (rawResponse : str) : IO LegacyHttpResponse :=
  match find_sub CRLFCRLF rawResponse with
  | None => _ ← cerr [Text (‹"Invalid HTTP response format"› ++ endl)]; mret LegacyHttpResponse_init
  | Some _ => mret (parseHttpResponse_legacy rawResponse)
  end.

(** ** Lemmas *)

(** A [cerr] followed by a return refines the return. *)
Lemma io_refines_log_ret {A} (ps : list piece) (a : A) : io_refines (_ ← cerr ps; mret a) (mret a).
Proof. apply io_refines_then_log, io_refines_ret. Qed.

#[export] Hint Resolve io_refines_log_ret : http.

Lemma connect_loop_free_refines (servinfo : list Addr) :
  io_refines (connect_loop_free servinfo) (connect_loop servinfo).
Proof.
  induction servinfo as [|p servinfo IH]; simpl; [auto with http|].
  apply io_refines_bind; [auto with http|]. intros sockfd. case_if; [by apply io_refines_then_log|].
  apply io_refines_bind; [auto with http|]. intros rc. case_if; [|auto with http].
  apply io_refines_bind; [auto with http|]. intros _. by apply io_refines_then_log.
Qed.

Lemma send_loop_free_refines (fuel : nat) (sockfd : Z) (request : str) (total bytesleft : Z) :
  io_refines (send_loop_free fuel sockfd request total bytesleft)
             (send_loop fuel sockfd request total bytesleft).
Proof.
  revert total bytesleft. induction fuel as [|fuel IH]; intros total bytesleft; simpl; [auto with http|].
  case_if; [|auto with http]. apply io_refines_bind; [auto with http|].
  intros n. case_if; auto with http.
Qed.

Lemma createConnection_free_refines (hostname : str) (port : Z) :
  io_refines (createConnection_free hostname port) (createConnection_socket hostname port).
Proof.
  apply io_refines_bind; [auto with http|]. intros [servinfo|]; [|auto with http].
  apply io_refines_bind; [apply connect_loop_free_refines|]. intros [sockfd|]; [|auto with http].
  apply io_refines_bind; auto with http.
Qed.

Lemma sendHttpRequest_free_refines (sockfd : Z) (request : str) :
  io_refines (sendHttpRequest_free sockfd request) (sendHttpRequest sockfd request).
Proof. intros w. apply send_loop_free_refines. Qed.

Lemma receiveHttpResponse_free_refines (sockfd : Z) :
  io_refines (receiveHttpResponse_free sockfd) (receiveHttpResponse_legacy sockfd).
Proof.
  intros w. unfold receiveHttpResponse_free, receiveHttpResponse_legacy. iostep.
  destruct (recv_loop _ sockfd [] (w_os w)) as [[n response] os']. simpl.
  destruct (n =? -1)%Z; simpl.
  - by exists [Text ‹"Error receiving response: "›; Strerror; Text endl].
  - exists []. by rewrite !app_nil_r.
Qed.

Lemma parseHttpResponse_free_refines (rawResponse : str) :
  io_refines (parseHttpResponse_free rawResponse) (mret (parseHttpResponse_legacy rawResponse)).
Proof.
  unfold parseHttpResponse_free. destruct (find_sub CRLFCRLF rawResponse) eqn:Hf; [auto with http|].
  replace (parseHttpResponse_legacy rawResponse) with LegacyHttpResponse_init
    by (unfold parseHttpResponse_legacy; by rewrite Hf).
  auto with http.
Qed.

(** socket.cpp's [createConnection] opens at most one new descriptor, the
    one it returns; the address list is freed when it returns one. *)
Lemma createConnection_socket_fds (hostname : str) (port : Z) (os : OS) (fd : Z) (os' : OS) :
  os_wf os → createConnection_socket hostname port os = (fd, os') →
  os_wf os' ∧ same_io os os' ∧
  ((fd = (-1)%Z ∧ os_fds os' = os_fds os) ∨
   ((0 <= fd)%Z ∧ fd ∉ os_fds os ∧ os_fds os' = {[fd]} ∪ os_fds os ∧ os_addrinfo os' = os_addrinfo os)).
Proof.
  intros Hwf. unfold createConnection_socket. mstep. unfold sys_getaddrinfo.
  destruct (os_resolve os hostname (show_Z port)) as [servinfo|] eqn:Hres;
    [|intros [= <- <-]; auto 10 with http].
  fold (os_alloc os). pose proof (connect_loop_spec servinfo (os_alloc os) (os_wf_alloc _ Hwf)) as Hc.
  destruct (connect_loop servinfo (os_alloc os)) as [[sockfd|] os2]; intros [= <- <-];
    destruct Hc as (Hwf2 & Hai & (? & ? & ? & ?) & Hp); simpl in *.
  - split; [done|]. split; [split_and!; done|]. right. rewrite Hai. split_and!; tauto.
  - split; [done|]. split; [split_and!; done|]. by left.
Qed.

(** ** Properties *)

(** The two copies of [formatHttpRequest] write the same text: the writes
    of send_request.cpp into a [std::stringstream] give the request of
    processing.cpp, for every host, path and method. *)
Lemma formatHttpRequest_free_eq (hostname path method : str) :
  formatHttpRequest_free hostname path method = formatHttpRequest hostname path method.
Proof.
  unfold formatHttpRequest_free, formatHttpRequest, ss_write. cbn [foldl]. app_simpl. reflexivity.
Qed.

