(* ===== verification/Demos.v ===== *)
(** * The demo programs

    The four [main] functions of the repository as processes of
    [Console]: socket_demo.cpp and send_request_demo.cpp connect to
    example.com:80 (and send a request) with the free functions of
    [FreeFunctions]; receive_request_demo.cpp also receives, parses and
    prints the answer with the older code of [Legacy]; processing_demo.cpp
    drives [SimpleHttpClient] ([Client]) and [processResponse] ([Output])
    over six requests, waiting for a key between them.  A run returns the
    exit status of [main]; [None] is a run that reaches undefined
    behaviour. *)

From S2P Require Import Prelude StdString IStream Message Parse Request Net Client Lifecycle Legacy Classify Output Console FreeFunctions.

(** ** Default arguments *)

(** [makeHttpRequest(hostname, path, int port = 80, method = "GET")]
    (processing.h, lines 111-114). *)
Definition makeHttpRequest_default (hostname path : str) : M (option HttpResponse) :=
  makeHttpRequest hostname path 80 ‹"GET"›.

(** [formatHttpRequest(hostname, path, method = "GET")] (send_request.h,
    lines 5-6). *)
Definition formatHttpRequest_default (hostname path : str) : str :=
  formatHttpRequest_free hostname path ‹"GET"›.

(** ** socket_demo.cpp *)

Definition demo_hostname : str := ‹"example.com"›.
Definition demo_port : Z := 80.

(** [std::cout << "Connecting to " << hostname << ":" << port << std::endl;] *)
Definition announce : IO unit :=
  cout (‹"Connecting to "› ++ demo_hostname ++ ‹":"› ++ show_Z demo_port ++ endl).

Definition socket_demo_main : IO Z :=
  _ ← announce;
  sockfd ← createConnection_free demo_hostname demo_port;
  if (sockfd =? -1)%Z then _ ← cerr [Text (‹"Connection failed"› ++ endl)]; mret 1%Z
  else
    _ ← cout (‹"Connected successfully! Socket descriptor: "› ++ show_Z sockfd ++ endl);
    _ ← lift (sys_close sockfd);
    mret 0%Z.

(** ** send_request_demo.cpp *)

Definition send_request_demo_main : IO Z :=
  _ ← announce;
  sockfd ← createConnection_free demo_hostname demo_port;
  if (sockfd =? -1)%Z then _ ← cerr [Text (‹"Connection failed"› ++ endl)]; mret 1%Z
  else
    _ ← cout (‹"Connected successfully! Socket descriptor: "› ++ show_Z sockfd ++ endl);
    let request := formatHttpRequest_default demo_hostname ‹"/"› in
    _ ← cout (endl ++ ‹"Sending HTTP request:"› ++ endl ++ request ++ endl);
    sent ← sendHttpRequest_free sockfd request;
    if negb sent then
      _ ← cerr [Text (‹"Failed to send HTTP request"› ++ endl)];
      _ ← lift (sys_close sockfd);
      mret 1%Z
    else
      _ ← cout (‹"Request sent successfully!"› ++ endl);
      _ ← lift (sys_close sockfd);
      mret 0%Z.

(** ** receive_request_demo.cpp *)

(** The demo's own [struct HttpResponse] (lines 12-19) completes the type
    that receive_request.h only declares.  Its members are those of the
    struct of receive_request.cpp, as the one-definition rule requires of
    the two definitions of one type, so it is [LegacyHttpResponse]. *)
Definition DemoHttpResponse : Type := LegacyHttpResponse.

Definition receive_request_demo_main : IO Z :=
  _ ← announce;
  sockfd ← createConnection_free demo_hostname demo_port;
  if (sockfd =? -1)%Z then _ ← cerr [Text (‹"Connection failed"› ++ endl)]; mret 1%Z
  else
    _ ← cout (‹"Connected successfully!"› ++ endl);
    let request := formatHttpRequest_default demo_hostname ‹"/"› in
    _ ← cout (endl ++ ‹"Sending HTTP request..."› ++ endl);
    sent ← sendHttpRequest_free sockfd request;
    if negb sent then
      _ ← cerr [Text (‹"Failed to send HTTP request"› ++ endl)];
      _ ← lift (sys_close sockfd);
      mret 1%Z
    else
      _ ← cout (‹"Request sent! Waiting for response..."› ++ endl);
      rawResponse ← receiveHttpResponse_free sockfd;
      if decide (rawResponse = []) then
        _ ← cerr [Text (‹"Failed to receive response"› ++ endl)];
        _ ← lift (sys_close sockfd);
        mret 1%Z
      else
        response ← (parseHttpResponse_free rawResponse : IO DemoHttpResponse);
        text ← defined (printHttpResponse response);
        _ ← cout text;
        _ ← lift (sys_close sockfd);
        mret 0%Z.

(** ** processing_demo.cpp *)

(** [std::cout << prompt; std::cin.get();] *)
Definition pause (prompt : str) : IO unit := _ ← cout prompt; _ ← cin_get; mret ().

(** [response = client.makeHttpRequest(..); client.processResponse(response);] *)
Definition request_and_process (m : M (option HttpResponse)) : IO HttpResponse :=
  o ← lift m;
  response ← defined o;
  _ ← cout (processResponse response);
  mret response.

Definition testCases : list (str * str) :=
  [(‹"httpbin.org"›, ‹"/status/200"›); (‹"httpbin.org"›, ‹"/status/404"›);
   (‹"httpbin.org"›, ‹"/status/500"›); (‹"httpbin.org"›, ‹"/redirect/1"›)].

(** The loop of lines 32-47. *)
Fixpoint test_loop (cases : list (str * str)) : IO unit :=
  match cases with
  | [] => mret ()
  | (host, path) :: cases' =>
      _ ← cout (endl ++ ‹"=== Testing: "› ++ host ++ path ++ ‹" ==="› ++ endl);
      response ← request_and_process (makeHttpRequest_default host path);
      _ ← cout (if isSuccessStatusCode (statusCode response)
                then ‹"✓ Success status detected"› ++ endl
                else if isClientErrorStatusCode (statusCode response)
                then ‹"⚠ Client error detected"› ++ endl
                else []);
      _ ← pause (endl ++ ‹"Press Enter to continue..."›);
      test_loop cases'
  end.

(** An exception that leaves [main] ends the process ([inl]). *)
Definition processing_demo_main : IO (exn + Z) :=
  _ ← cout (‹"=== Example 1: Simple GET Request ==="› ++ endl);
  r ← lift (get ‹"example.com/"›);
  match r with
  | inl e => mret (inl e)
  | inr o =>
      response ← defined o;
      _ ← cout (processResponse response);
      _ ← pause (endl ++ endl ++ ‹"Press Enter to continue..."›);
      _ ← cout (endl ++ ‹"=== Example 2: Detailed Method Call ==="› ++ endl);
      _ ← request_and_process (makeHttpRequest ‹"httpbin.org"› ‹"/json"› 80 ‹"GET"›);
      _ ← pause (endl ++ endl ++ ‹"Press Enter to continue..."›);
      _ ← test_loop testCases;
      mret (inr 0%Z)
  end.

(** ** Processes for the examples *)

(** The network of [Lifecycle.example_os], nothing written or to read. *)
Definition example_world : World := mkWorld example_os [] [] [].

(** A peer that answers with a line that is not an HTTP response. *)
Definition garbage_world : World :=
  mkWorld (mkOS ∅ 3 0 (λ _ _, Some [mkAddr true true]) [] [] [Some ‹"garbage"›]) [] [] [].

(** A resolver that knows no name, and six key presses. *)
Definition offline_world : World :=
  mkWorld (mkOS ∅ 3 0 (λ _ _, None) [] [] []) [] [] ‹"\n\n\n\n\n\n"›.

(** ** Lemmas *)

(** Run a logging free function as its silent model. *)
Ltac run_free :=
  match goal with
  | |- context [createConnection_free ?h ?p ?w] =>
      let H := fresh in destruct (createConnection_free_refines h p w) as (?err & H); rewrite H; clear H
  | |- context [sendHttpRequest_free ?fd ?r ?w] =>
      let H := fresh in destruct (sendHttpRequest_free_refines fd r w) as (?err & H); rewrite H; clear H
  | |- context [receiveHttpResponse_free ?fd ?w] =>
      let H := fresh in destruct (receiveHttpResponse_free_refines fd w) as (?err & H); rewrite H; clear H
  | |- context [parseHttpResponse_free ?r ?w] =>
      let H := fresh in destruct (parseHttpResponse_free_refines r w) as (?err & H); rewrite H; clear H
  end; cbn [w_os w_out w_err w_in fst snd].

(** Closing the socket of a connection after I/O that opened and closed
    nothing. *)
Lemma close_after (fd : Z) (os0 os1 os2 : OS) :
  os_wf os1 → fd ∉ os_fds os0 → os_fds os1 = {[fd]} ∪ os_fds os0 → fd_frame os1 os2 →
  os_fds (snd (sys_close fd os2)) = os_fds os0.
Proof.
  intros Hwf Hnew Hfds Hf. destruct (close_new_fd fd os0 os2) as [H _]; [|done|..|exact H].
  - by eapply fd_frame_wf.
  - destruct Hf as [-> _]. done.
Qed.

(** The resources of a process that a run of [processing_demo] keeps. *)
Definition world_frame (W W' : World) : Prop :=
  os_wf (w_os W') ∧ os_fds (w_os W') = os_fds (w_os W) ∧ os_addrinfo (w_os W') = os_addrinfo (w_os W).

(** The requests of processing_demo.cpp fit in an [int]. *)
Definition fits (hp : str * str) : Prop :=
  (Z.of_nat (length (formatHttpRequest hp.1 hp.2 ‹"GET"›)) <= INT_MAX)%Z.

Lemma world_frame_trans (W1 W2 W3 : World) :
  world_frame W1 W2 → world_frame W2 W3 → world_frame W1 W3.
Proof. intros (? & ? & ?) (? & ? & ?). split_and!; congruence. Qed.

Lemma pause_run (s : str) (W : World) :
  pause s W = Some ((), mkWorld (w_os W) (w_out W ++ s) (w_err W) (drop 1 (w_in W))).
Proof. destruct W as [os o e [|c i]]; reflexivity. Qed.

Lemma request_and_process_run (h p : str) (port : Z) (m : str) (W W' : World) (r : HttpResponse) :
  os_wf (w_os W) → (Z.of_nat (length (formatHttpRequest h p m)) <= INT_MAX)%Z →
  request_and_process (makeHttpRequest h p port m) W = Some (r, W') →
  world_frame W W' ∧ w_in W' = w_in W.
Proof.
  intros Hwf Hmax. pose proof (makeHttpRequest_fds h p port m (w_os W) Hwf Hmax) as Hfds.
  unfold request_and_process. iostep.
  destruct (makeHttpRequest h p port m (w_os W)) as [[resp|] os']; [|done].
  intros [= <- <-]. cbn in Hfds. unfold world_frame. cbn. tauto.
Qed.

Lemma test_loop_run (cases : list (str * str)) (W W' : World) :
  os_wf (w_os W) → Forall fits cases → test_loop cases W = Some ((), W') →
  world_frame W W' ∧ w_in W' = drop (length cases) (w_in W).
Proof.
  revert W. induction cases as [|[h p] cases IH]; intros W Hwf Hfit; cbn [test_loop].
  { intros [= <-]. split; [split_and!; done|]. by rewrite drop_0. }
  inversion Hfit as [|? ? Hhp Hrest]; subst. unfold makeHttpRequest_default. iostep.
  destruct (request_and_process _ _) as [[resp W1]|] eqn:Hr; [|done].
  apply request_and_process_run in Hr as [Hf1 Hin1]; [|exact Hwf|exact Hhp].
  iostep. rewrite pause_run. intros Hloop.
  apply IH in Hloop as [Hf2 Hin2]; [|exact (proj1 Hf1)|exact Hrest].
  split; [exact (world_frame_trans _ W1 _ Hf1 Hf2)|].
  rewrite Hin2. cbn in Hin1 |- *. rewrite Hin1, drop_drop; try (f_equal; lia).
Qed.

(** [client.get("example.com/")] is [makeHttpRequest("example.com", "/")]. *)
Lemma get_example_com (os : OS) :
  get ‹"example.com/"› os =
    let '(r, os') := makeHttpRequest ‹"example.com"› ‹"/"› 80 ‹"GET"› os in (inr r, os').
Proof.
  unfold get. replace (split_url ‹"example.com/"›) with (‹"example.com"›, ‹"/"›) by reflexivity.
  replace (find_char ":"%char ‹"example.com"›) with (@None nat) by reflexivity. mstep.
  by destruct (makeHttpRequest _ _ _ _ os).
Qed.

(** With a resolver that knows no name, [makeHttpRequest] fails and leaves
    the state as it was. *)
Lemma makeHttpRequest_unresolved (h p : str) (port : Z) (m : str) (os : OS) :
  os_resolve os h (show_Z port) = None →
  makeHttpRequest h p port m os =
    (Some (fail_response (‹"Failed to establish connection to "› ++ h)), os).
Proof.
  intros Hres. unfold makeHttpRequest. unfold_transport. unfold createConnection. mstep.
  unfold sys_getaddrinfo. by rewrite Hres.
Qed.

Lemma test_loop_unresolved (cases : list (str * str)) (W : World) :
  (∀ h p, os_resolve (w_os W) h p = None) →
  ∃ W', test_loop cases W = Some ((), W') ∧ w_os W' = w_os W.
Proof.
  revert W. induction cases as [|[h p] cases IH]; intros W Hdead; cbn [test_loop]; [by eexists|].
  unfold request_and_process, makeHttpRequest_default. iostep.
  rewrite makeHttpRequest_unresolved by apply Hdead. iostep. cbn [w_os w_out w_err w_in].
  rewrite pause_run. cbn [w_os w_out w_err w_in].
  match goal with |- context [test_loop cases ?W0] => specialize (IH W0) end.
  cbn [w_os] in IH. apply IH. exact Hdead.
Qed.

(** ** Properties *)

(** C20: socket_demo.cpp prints its greeting, ends with status 0 exactly
    when [createConnection] returns a socket, whose number it prints, and
    with status 1 otherwise; on both paths the descriptors open at the
    end are those open at the start and [std::cin] is untouched. *)
Theorem socket_demo_main_spec (w : World) :
  os_wf (w_os w) →
  let '(fd, os1) := createConnection_socket demo_hostname demo_port (w_os w) in
  ∃ code w', socket_demo_main w = Some (code, w') ∧
    (code = 0%Z ↔ fd ≠ (-1)%Z) ∧ (code = 0%Z ∨ code = 1%Z) ∧
    os_fds (w_os w') = os_fds (w_os w) ∧ w_in w' = w_in w ∧
    w_out w' = w_out w ++ ‹"Connecting to "› ++ demo_hostname ++ ‹":"› ++ show_Z demo_port ++ endl ++
               (if (fd =? -1)%Z then []
                else ‹"Connected successfully! Socket descriptor: "› ++ show_Z fd ++ endl).
Proof.
  intros Hwf. destruct (createConnection_socket demo_hostname demo_port (w_os w)) as [fd os1] eqn:Hc.
  destruct (createConnection_socket_fds _ _ _ _ _ Hwf Hc) as (Hwf1 & _ & Hfd).
  unfold socket_demo_main, announce. iostep. run_free. rewrite Hc. cbn [fst snd].
  destruct (Z.eqb_spec fd (-1)) as [->|Hne]; iostep.
  { eexists _, _. split; [reflexivity|]. cbn [w_os w_in w_out].
    split_and!; [split; [done|intros []; done]|auto| |done|by rewrite app_nil_r].
    destruct Hfd as [[_ ?]|(? & _)]; [done|lia]. }
  destruct Hfd as [[? _]|(_ & Hnew & Hfds & _)]; [done|].
  cbn [w_os w_out w_err w_in].
  pose proof (close_after fd (w_os w) os1 os1 Hwf1 Hnew Hfds (fd_frame_refl os1)) as Hcl.
  destruct (sys_close fd os1) as [rc os2]. cbn [snd] in Hcl.
  eexists _, _. split; [reflexivity|]. cbn [w_os w_in w_out].
  split_and!; [split; [done|intros _; done]|auto|done|done|by rewrite <- !app_assoc].
Qed.

(** C17: send_request_demo.cpp ends normally with status 0 exactly
    when the connection is made and the whole request is sent, and with
    status 1 otherwise; on every path it closes the socket it opened and
    reads nothing from [std::cin]; the request it prints and sends is the
    text of processing.cpp's [formatHttpRequest]. *)
Theorem send_request_demo_main_spec (w : World) :
  os_wf (w_os w) →
  let '(fd, os1) := createConnection_socket demo_hostname demo_port (w_os w) in
  let request := formatHttpRequest demo_hostname ‹"/"› ‹"GET"› in
  ∃ code w', send_request_demo_main w = Some (code, w') ∧
    (code = 0%Z ↔ fd ≠ (-1)%Z ∧ (sendHttpRequest fd request os1).1 = true) ∧
    (code = 0%Z ∨ code = 1%Z) ∧
    os_fds (w_os w') = os_fds (w_os w) ∧ w_in w' = w_in w ∧
    (fd ≠ (-1)%Z →
     w_out w' = w_out w ++ ‹"Connecting to "› ++ demo_hostname ++ ‹":"› ++ show_Z demo_port ++ endl ++
                ‹"Connected successfully! Socket descriptor: "› ++ show_Z fd ++ endl ++
                endl ++ ‹"Sending HTTP request:"› ++ endl ++ request ++ endl ++
                (if (sendHttpRequest fd request os1).1 then ‹"Request sent successfully!"› ++ endl
                 else [])).
Proof.
  intros Hwf. destruct (createConnection_socket demo_hostname demo_port (w_os w)) as [fd os1] eqn:Hc.
  destruct (createConnection_socket_fds _ _ _ _ _ Hwf Hc) as (Hwf1 & _ & Hfd).
  unfold send_request_demo_main, announce. iostep. run_free. rewrite Hc. cbn [fst snd].
  destruct (Z.eqb_spec fd (-1)) as [->|Hne]; iostep.
  { eexists _, _. split; [reflexivity|]. cbn. split_and!; [split; [done|intros []; done]|auto|..];
      [destruct Hfd as [[_ ?]|(? & _)]; [done|lia]|done|done]. }
  destruct Hfd as [[? _]|(_ & Hnew & Hfds & _)]; [done|].
  unfold formatHttpRequest_default. rewrite formatHttpRequest_free_eq. run_free.
  pose proof (sendHttpRequest_frame fd (formatHttpRequest demo_hostname ‹"/"› ‹"GET"›) os1) as Hf.
  destruct (sendHttpRequest fd (formatHttpRequest demo_hostname ‹"/"› ‹"GET"›) os1) as [[|] os2];
    cbn [negb fst snd] in *; iostep; cbn [w_os w_in w_out];
    pose proof (close_after fd (w_os w) os1 os2 Hwf1 Hnew Hfds Hf) as Hcl;
    destruct (sys_close fd os2) as [rc os3]; cbn [snd] in Hcl;
    (eexists _, _; split; [reflexivity|]); cbn [w_os w_in w_out];
    (split_and!; [split; [try done|intros [_ ?]; try done]|auto|done|done|]);
    (intros _; rewrite <- !app_assoc; reflexivity).
Qed.

(** C18: receive_request_demo.cpp has undefined behaviour exactly when
    it connects, sends the request, receives a non-empty answer and the
    older parser leaves [statusCode] uninitialised (no header/body
    separator, or no status code in the first line), because
    [printHttpResponse] then prints that [int].  Every other run ends with
    status 0 or 1, all descriptors it opened closed and [std::cin]
    untouched. *)
Theorem receive_request_demo_main_ub (w : World) :
  os_wf (w_os w) →
  let '(fd, os1) := createConnection_socket demo_hostname demo_port (w_os w) in
  let '(sent, os2) := sendHttpRequest fd (formatHttpRequest demo_hostname ‹"/"› ‹"GET"›) os1 in
  let rawResponse := (receiveHttpResponse_legacy fd os2).1 in
  (receive_request_demo_main w = None ↔
     fd ≠ (-1)%Z ∧ sent = true ∧ rawResponse ≠ [] ∧
     l_statusCode (parseHttpResponse_legacy rawResponse) = None) ∧
  ∀ code w', receive_request_demo_main w = Some (code, w') →
    (code = 0%Z ∨ code = 1%Z) ∧ os_fds (w_os w') = os_fds (w_os w) ∧ w_in w' = w_in w.
Proof.
  intros Hwf. destruct (createConnection_socket demo_hostname demo_port (w_os w)) as [fd os1] eqn:Hc.
  destruct (createConnection_socket_fds _ _ _ _ _ Hwf Hc) as (Hwf1 & _ & Hfd).
  unfold receive_request_demo_main, announce. iostep. run_free. rewrite Hc. cbn [fst snd].
  destruct (Z.eqb_spec fd (-1)) as [->|Hne]; iostep.
  { destruct (sendHttpRequest _ _ os1) as [sent os2].
    split; [split; [done|intros []; done]|]. intros ?? [= <- <-]. cbn.
    destruct Hfd as [[_ ?]|(? & _)]; [auto|lia]. }
  destruct Hfd as [[? _]|(_ & Hnew & Hfds & _)]; [done|].
  unfold formatHttpRequest_default. rewrite formatHttpRequest_free_eq. run_free.
  pose proof (sendHttpRequest_frame fd (formatHttpRequest demo_hostname ‹"/"› ‹"GET"›) os1) as Hf.
  destruct (sendHttpRequest fd (formatHttpRequest demo_hostname ‹"/"› ‹"GET"›) os1) as [[|] os2];
    cbn [negb fst snd] in *; iostep; cbn [w_os w_in w_out].
  2:{ pose proof (close_after fd (w_os w) os1 os2 Hwf1 Hnew Hfds Hf) as Hcl.
      destruct (sys_close fd os2) as [rc os3]; cbn [snd] in Hcl.
      split; [split; [done|intros (_ & ? & _); done]|]. intros ?? [= <- <-]. auto. }
  run_free. pose proof (receiveHttpResponse_legacy_frame fd os2) as Hf2.
  destruct (receiveHttpResponse_legacy fd os2) as [raw os3]; cbn [fst snd] in *.
  pose proof (close_after fd (w_os w) os1 os3 Hwf1 Hnew Hfds (fd_frame_trans _ _ _ Hf Hf2)) as Hcl.
  destruct (decide (raw = [])) as [->|Hraw]; iostep; cbn [w_os w_in w_out].
  { destruct (sys_close fd os3) as [rc os4]; cbn [snd] in Hcl.
    split; [split; [done|intros (_ & _ & ? & _); done]|]. intros ?? [= <- <-]. auto. }
  run_free. unfold printHttpResponse. cbn [mret M_ret fst].
  destruct (l_statusCode (parseHttpResponse_legacy raw)) as [code|]; cbn; [|split; [by split|done]].
  destruct (sys_close fd os3) as [rc os4]; cbn [snd] in Hcl.
  split; [split; [done|intros (_ & _ & _ & ?); done]|]. intros ?? [= <- <-]. auto.
Qed.

(** C19: processing_demo.cpp never lets an exception escape: a run that
    has no undefined behaviour ends with status 0, has read one character
    of [std::cin] at each of its six pauses, and leaves the descriptors and
    address lists of the process as it found them, after six requests.
    When no host name resolves, the run is defined: every request fails
    with an error response and the program still ends with status 0. *)
Theorem processing_demo_main_spec (w : World) :
  os_wf (w_os w) →
  (∀ r w', processing_demo_main w = Some (r, w') →
     r = inr 0%Z ∧ os_fds (w_os w') = os_fds (w_os w) ∧
     os_addrinfo (w_os w') = os_addrinfo (w_os w) ∧ w_in w' = drop 6 (w_in w)) ∧
  ((∀ h p, os_resolve (w_os w) h p = None) → ∃ w', processing_demo_main w = Some (inr 0%Z, w')).
Proof.
  intros Hwf.
  assert (Hfit : Forall fits ((‹"example.com"›, ‹"/"›) :: (‹"httpbin.org"›, ‹"/json"›) :: testCases))
    by (repeat constructor; unfold fits; vm_compute; discriminate).
  inversion Hfit as [|? ? Hfit1 Hfit']; subst. inversion Hfit' as [|? ? Hfit2 Hcases]; subst.
  unfold processing_demo_main. iostep. rewrite get_example_com. split.
  - pose proof (makeHttpRequest_fds ‹"example.com"› ‹"/"› 80 ‹"GET"› (w_os w) Hwf Hfit1) as Hf0.
    cbn [w_os w_out w_err w_in].
    destruct (makeHttpRequest _ _ _ _ (w_os w)) as [[resp|] os1]; cbn in Hf0; iostep; [|done].
    rewrite pause_run. cbn [w_os w_out w_err w_in].
    destruct (request_and_process _ _) as [[resp2 W2]|] eqn:Hr; [|done].
    apply request_and_process_run in Hr as [Hf2 Hin2]; [|exact (proj1 Hf0)|exact Hfit2].
    iostep. rewrite pause_run. cbn [w_os w_out w_err w_in].
    destruct (test_loop _ _) as [[[] W3]|] eqn:Hl; [|done].
    apply test_loop_run in Hl as [Hf3 Hin3]; [|exact (proj1 Hf2)|exact Hcases].
    intros ?? [= <- <-]. destruct Hf0 as (_ & ? & ?), Hf2 as (_ & ? & ?), Hf3 as (_ & ? & ?).
    cbn in *. split_and!; [done|congruence|congruence|].
    by rewrite Hin3, Hin2, !drop_drop.
  - intros Hdead. cbn [w_os w_out w_err w_in].
    rewrite makeHttpRequest_unresolved by apply Hdead. iostep.
    rewrite pause_run. unfold request_and_process. iostep.
    rewrite makeHttpRequest_unresolved by apply Hdead. iostep. rewrite pause_run.
    cbn [w_os w_out w_err w_in].
    match goal with |- context [test_loop testCases ?W0] =>
      destruct (test_loop_unresolved testCases W0 Hdead) as (W' & -> & _) end.
    by eexists.
Qed.

(** ** Witnesses *)

Lemma example_world_wf : os_wf (w_os example_world).
Proof. split; [simpl; lia|apply set_Forall_empty]. Qed.

(** On [example_world] the demo connects on descriptor 3, sends the
    request and ends with status 0, descriptor 3 closed again. *)
Lemma send_request_demo_main_spec_witness :
  os_wf (w_os example_world) ∧
  ∃ w', send_request_demo_main example_world = Some (0%Z, w') ∧ os_fds (w_os w') = ∅.
Proof.
  pose proof (send_request_demo_main_spec example_world example_world_wf) as H.
  split; [exact example_world_wf|].
  destruct (createConnection_socket _ _ _) as [fd os1] eqn:Hc.
  vm_compute in Hc. injection Hc as <- <-.
  destruct H as (code & w' & Hm & Hiff & _ & Hfds & _).
  assert (code = 0%Z) as -> by (apply Hiff; split; [discriminate|vm_compute; reflexivity]).
  exists w'. split; [exact Hm|rewrite Hfds; reflexivity].
Defined.

(** The answer "garbage" has no header/body separator: the run has
    undefined behaviour. *)
Lemma receive_request_demo_main_ub_witness :
  os_wf (w_os garbage_world) ∧ receive_request_demo_main garbage_world = None.
Proof.
  assert (Hwf : os_wf (w_os garbage_world)) by (split; [simpl; lia|apply set_Forall_empty]).
  pose proof (receive_request_demo_main_ub garbage_world Hwf) as H.
  split; [exact Hwf|].
  destruct (createConnection_socket _ _ _) as [fd os1] eqn:Hc.
  vm_compute in Hc. injection Hc as <- <-.
  destruct (sendHttpRequest _ _ _) as [sent os2] eqn:Hs.
  vm_compute in Hs. injection Hs as <- <-.
  apply (proj1 H). split_and!; [discriminate|reflexivity|vm_compute; discriminate|vm_compute; reflexivity].
Defined.

(** On [example_world] the socket demo connects on descriptor 3 and
    closes it again. *)
Lemma socket_demo_main_spec_witness :
  os_wf (w_os example_world) ∧
  ∃ w', socket_demo_main example_world = Some (0%Z, w') ∧ os_fds (w_os w') = ∅.
Proof.
  pose proof (socket_demo_main_spec example_world example_world_wf) as H.
  split; [exact example_world_wf|].
  destruct (createConnection_socket _ _ _) as [fd os1] eqn:Hc.
  vm_compute in Hc. injection Hc as <- <-.
  destruct H as (code & w' & Hm & Hiff & _ & Hfds & _).
  assert (code = 0%Z) as -> by (apply Hiff; discriminate).
  exists w'. split; [exact Hm|rewrite Hfds; reflexivity].
Defined.

Lemma processing_demo_main_spec_witness :
  os_wf (w_os offline_world) ∧ ∃ w', processing_demo_main offline_world = Some (inr 0%Z, w').
Proof.
  assert (Hwf : os_wf (w_os offline_world)) by (split; [simpl; lia|apply set_Forall_empty]).
  split; [exact Hwf|]. exact (proj2 (processing_demo_main_spec offline_world Hwf) (λ _ _, eq_refl)).
Defined.
